(* ===================================================================== *)
(* test-assistant-be: the generation routes (src/routes/generations.js), *)
(* the model client (services/openAIService.js), the Generation schema   *)
(* (models/Generation.js) and utils/projectUtils.js, as a shallow        *)
(* embedding.                                                            *)
(*                                                                       *)
(* Conventions of the embedding                                          *)
(*  - a JS string is a [string]; its length is the number of characters; *)
(*  - a JS number that the code only uses as an integer is a [Z]; the    *)
(*    result of [parseInt] is a [JS.Num], an integer or NaN; money is an *)
(*    exact rational [Q] (the source computes it in IEEE doubles, whose  *)
(*    rounding is left out);                                             *)
(*  - a Date is a [Z], milliseconds since the epoch; an absent field     *)
(*    (undefined) is [None];                                             *)
(*  - the document store is a finite map from _id to document; a request *)
(*    handler is a function from the world before the request to a reply *)
(*    and the world after it;                                            *)
(*  - the JIRA client and the chat-completion client are collaborators   *)
(*    whose answers are parameters ([Env]); calls to them and the waits  *)
(*    of the retry loop are recorded in the world's trace;               *)
(*  - logger calls are left out.                                         *)
(* ===================================================================== *)

From Stdlib Require Import ZArith QArith Qround String Ascii List Bool Lia.
From stdpp Require Import base option gmap strings list fin_maps sorting.

Local Open Scope string_scope.
Local Open Scope Z_scope.

(* --------------------------------------------------------------------- *)
(* JavaScript primitives the routes rely on                              *)
(* --------------------------------------------------------------------- *)

Module JS.

(* [x || d] on a possibly undefined string: the empty string is falsy. *)
Definition or_string (x : option string) (d : string) : string :=
  match x with
  | Some s => if String.eqb s "" then d else s
  | None => d
  end.

(* [x || d] on a number: 0 is falsy. *)
Definition or_number (x d : Z) : Z := if x =? 0 then d else x.

(* [!s] for a string. *)
Definition falsy (s : string) : bool := String.eqb s "".

(* String.prototype.startsWith *)
Definition startsWith (s p : string) : bool := String.prefix p s.

(* String.prototype.includes *)
Fixpoint includes (s needle : string) : bool :=
  String.prefix needle s
  || match s with
     | EmptyString => false
     | String _ rest => includes rest needle
     end.

(* String.prototype.toUpperCase on ASCII letters *)
Definition upper_char (c : ascii) : ascii :=
  let n := nat_of_ascii c in
  if ((97 <=? n) && (n <=? 122))%nat then ascii_of_nat (n - 32) else c.

Fixpoint toUpperCase (s : string) : string :=
  match s with
  | EmptyString => EmptyString
  | String c rest => String (upper_char c) (toUpperCase rest)
  end.

(* The result of parseInt: an integer, or NaN. *)
Inductive Num := NaN | Int (z : Z).

Definition is_space (c : ascii) : bool :=
  let n := nat_of_ascii c in
  ((9 <=? n) && (n <=? 13) || (n =? 32))%nat.

Definition digit_of (c : ascii) : option Z :=
  let n := nat_of_ascii c in
  if ((48 <=? n) && (n <=? 57))%nat then Some (Z.of_nat n - 48) else None.

Fixpoint skip_space (s : string) : string :=
  match s with
  | String c rest => if is_space c then skip_space rest else s
  | EmptyString => s
  end.

(* The longest prefix of decimal digits, as a number; [None] when the
   prefix is empty. [acc] is the value read so far. *)
Fixpoint digits (s : string) (acc : option Z) : option Z :=
  match s with
  | String c rest =>
      match digit_of c with
      | Some d => digits rest (Some (10 * default 0 acc + d))
      | None => acc
      end
  | EmptyString => acc
  end.

(* parseInt(s, 10): leading white space, an optional sign, then decimal
   digits up to the first other character; NaN without a digit. *)
Definition parseInt (s : string) : Num :=
  let t := skip_space s in
  let '(sign, body) :=
    match t with
    | String "-" rest => (-1, rest)
    | String "+" rest => (1, rest)
    | _ => (1, t)
    end in
  match digits body None with
  | Some n => Int (sign * n)
  | None => NaN
  end.

(* Math.max and Math.min of an integer and a number: NaN is absorbing. *)
Definition max (a : Z) (b : Num) : Num :=
  match b with NaN => NaN | Int z => Int (Z.max a z) end.

Definition min (a : Z) (b : Num) : Num :=
  match b with NaN => NaN | Int z => Int (Z.min a z) end.

(* Math.ceil(a / b) for integers a and b > 0. *)
Definition ceil_div (a b : Z) : Z := (a + b - 1) / b.

(* Math.round(q): the nearest integer, a tie going up. *)
Definition round (q : Q) : Z := Qfloor (q + (1 # 2))%Q.

(* The line feed of a template literal. *)
Definition nl : string := String (ascii_of_nat 10) EmptyString.

(* The double quote inside a template literal. *)
Definition dq : string := String (ascii_of_nat 34) EmptyString.

End JS.

(* --------------------------------------------------------------------- *)
(* The data model: models/Generation.js                                  *)
(* --------------------------------------------------------------------- *)

Inductive Status := completed | failed.
Inductive Mode := manual | auto.

Global Instance Status_eq_dec : EqDecision Status.
Proof. solve_decision. Defined.

Global Instance Mode_eq_dec : EqDecision Mode.
Proof. solve_decision. Defined.

(* markdownSchema *)
Module Markdown.
Record t := mk { content : option string; filename : option string }.
End Markdown.

(* versionSchema *)
Module Version.
Record t := mk {
  version : Z;
  content : string;
  updatedAt : Z;
  updatedBy : string;
  notes : option string
}.
End Version.

Record TokenUsage := {
  promptTokens : Z;
  completionTokens : Z;
  totalTokens : Z
}.

(* generationSchema. [result_markdown] is the path result.markdown;
   [published], [version], [currentVersion] and [createdAt] have schema
   defaults, so they are never undefined; [updatedAt] comes from the
   timestamps option. jiraTickets and pdfAttachments, which no route
   touches, are left out. *)
Module Generation.
Record t := mk {
  issueKey : string;
  email : string;
  project : option string;
  mode : option Mode;
  status : option Status;
  createdAt : Z;
  updatedAt : Z;
  startedAt : option Z;
  completedAt : option Z;
  generationTimeSeconds : option Q;
  cost : option Q;
  tokenUsage : option TokenUsage;
  result_markdown : option Markdown.t;
  error : option string;
  published : bool;
  publishedAt : option Z;
  publishedBy : option string;
  version : list Version.t;
  currentVersion : Z
}.

Definition set_status (v : option Status) (g : t) : t :=
  {| issueKey := issueKey g; email := email g; project := project g;
     mode := mode g; status := v; createdAt := createdAt g; updatedAt
     := updatedAt g; startedAt := startedAt g; completedAt :=
     completedAt g; generationTimeSeconds := generationTimeSeconds g;
     cost := cost g; tokenUsage := tokenUsage g; result_markdown :=
     result_markdown g; error := error g; published := published g;
     publishedAt := publishedAt g; publishedBy := publishedBy g;
     version := version g; currentVersion := currentVersion g |}.

Definition set_updatedAt (v : Z) (g : t) : t :=
  {| issueKey := issueKey g; email := email g; project := project g;
     mode := mode g; status := status g; createdAt := createdAt g;
     updatedAt := v; startedAt := startedAt g; completedAt :=
     completedAt g; generationTimeSeconds := generationTimeSeconds g;
     cost := cost g; tokenUsage := tokenUsage g; result_markdown :=
     result_markdown g; error := error g; published := published g;
     publishedAt := publishedAt g; publishedBy := publishedBy g;
     version := version g; currentVersion := currentVersion g |}.

Definition set_completedAt (v : option Z) (g : t) : t :=
  {| issueKey := issueKey g; email := email g; project := project g;
     mode := mode g; status := status g; createdAt := createdAt g;
     updatedAt := updatedAt g; startedAt := startedAt g; completedAt
     := v; generationTimeSeconds := generationTimeSeconds g; cost :=
     cost g; tokenUsage := tokenUsage g; result_markdown :=
     result_markdown g; error := error g; published := published g;
     publishedAt := publishedAt g; publishedBy := publishedBy g;
     version := version g; currentVersion := currentVersion g |}.

Definition set_generationTimeSeconds (v : option Q) (g : t) : t :=
  {| issueKey := issueKey g; email := email g; project := project g;
     mode := mode g; status := status g; createdAt := createdAt g;
     updatedAt := updatedAt g; startedAt := startedAt g; completedAt
     := completedAt g; generationTimeSeconds := v; cost := cost g;
     tokenUsage := tokenUsage g; result_markdown := result_markdown g;
     error := error g; published := published g; publishedAt :=
     publishedAt g; publishedBy := publishedBy g; version := version
     g; currentVersion := currentVersion g |}.

Definition set_cost (v : option Q) (g : t) : t :=
  {| issueKey := issueKey g; email := email g; project := project g;
     mode := mode g; status := status g; createdAt := createdAt g;
     updatedAt := updatedAt g; startedAt := startedAt g; completedAt
     := completedAt g; generationTimeSeconds := generationTimeSeconds
     g; cost := v; tokenUsage := tokenUsage g; result_markdown :=
     result_markdown g; error := error g; published := published g;
     publishedAt := publishedAt g; publishedBy := publishedBy g;
     version := version g; currentVersion := currentVersion g |}.

Definition set_tokenUsage (v : option TokenUsage) (g : t) : t :=
  {| issueKey := issueKey g; email := email g; project := project g;
     mode := mode g; status := status g; createdAt := createdAt g;
     updatedAt := updatedAt g; startedAt := startedAt g; completedAt
     := completedAt g; generationTimeSeconds := generationTimeSeconds
     g; cost := cost g; tokenUsage := v; result_markdown :=
     result_markdown g; error := error g; published := published g;
     publishedAt := publishedAt g; publishedBy := publishedBy g;
     version := version g; currentVersion := currentVersion g |}.

Definition set_result_markdown (v : option Markdown.t) (g : t) : t :=
  {| issueKey := issueKey g; email := email g; project := project g;
     mode := mode g; status := status g; createdAt := createdAt g;
     updatedAt := updatedAt g; startedAt := startedAt g; completedAt
     := completedAt g; generationTimeSeconds := generationTimeSeconds
     g; cost := cost g; tokenUsage := tokenUsage g; result_markdown :=
     v; error := error g; published := published g; publishedAt :=
     publishedAt g; publishedBy := publishedBy g; version := version
     g; currentVersion := currentVersion g |}.

Definition set_error (v : option string) (g : t) : t :=
  {| issueKey := issueKey g; email := email g; project := project g;
     mode := mode g; status := status g; createdAt := createdAt g;
     updatedAt := updatedAt g; startedAt := startedAt g; completedAt
     := completedAt g; generationTimeSeconds := generationTimeSeconds
     g; cost := cost g; tokenUsage := tokenUsage g; result_markdown :=
     result_markdown g; error := v; published := published g;
     publishedAt := publishedAt g; publishedBy := publishedBy g;
     version := version g; currentVersion := currentVersion g |}.

Definition set_published (v : bool) (g : t) : t :=
  {| issueKey := issueKey g; email := email g; project := project g;
     mode := mode g; status := status g; createdAt := createdAt g;
     updatedAt := updatedAt g; startedAt := startedAt g; completedAt
     := completedAt g; generationTimeSeconds := generationTimeSeconds
     g; cost := cost g; tokenUsage := tokenUsage g; result_markdown :=
     result_markdown g; error := error g; published := v; publishedAt
     := publishedAt g; publishedBy := publishedBy g; version :=
     version g; currentVersion := currentVersion g |}.

Definition set_publishedAt (v : option Z) (g : t) : t :=
  {| issueKey := issueKey g; email := email g; project := project g;
     mode := mode g; status := status g; createdAt := createdAt g;
     updatedAt := updatedAt g; startedAt := startedAt g; completedAt
     := completedAt g; generationTimeSeconds := generationTimeSeconds
     g; cost := cost g; tokenUsage := tokenUsage g; result_markdown :=
     result_markdown g; error := error g; published := published g;
     publishedAt := v; publishedBy := publishedBy g; version :=
     version g; currentVersion := currentVersion g |}.

Definition set_publishedBy (v : option string) (g : t) : t :=
  {| issueKey := issueKey g; email := email g; project := project g;
     mode := mode g; status := status g; createdAt := createdAt g;
     updatedAt := updatedAt g; startedAt := startedAt g; completedAt
     := completedAt g; generationTimeSeconds := generationTimeSeconds
     g; cost := cost g; tokenUsage := tokenUsage g; result_markdown :=
     result_markdown g; error := error g; published := published g;
     publishedAt := publishedAt g; publishedBy := v; version :=
     version g; currentVersion := currentVersion g |}.

Definition set_version (v : list Version.t) (g : t) : t :=
  {| issueKey := issueKey g; email := email g; project := project g;
     mode := mode g; status := status g; createdAt := createdAt g;
     updatedAt := updatedAt g; startedAt := startedAt g; completedAt
     := completedAt g; generationTimeSeconds := generationTimeSeconds
     g; cost := cost g; tokenUsage := tokenUsage g; result_markdown :=
     result_markdown g; error := error g; published := published g;
     publishedAt := publishedAt g; publishedBy := publishedBy g;
     version := v; currentVersion := currentVersion g |}.

Definition set_currentVersion (v : Z) (g : t) : t :=
  {| issueKey := issueKey g; email := email g; project := project g;
     mode := mode g; status := status g; createdAt := createdAt g;
     updatedAt := updatedAt g; startedAt := startedAt g; completedAt
     := completedAt g; generationTimeSeconds := generationTimeSeconds
     g; cost := cost g; tokenUsage := tokenUsage g; result_markdown :=
     result_markdown g; error := error g; published := published g;
     publishedAt := publishedAt g; publishedBy := publishedBy g;
     version := version g; currentVersion := v |}.

End Generation.

(* Modelled from the spec: models/Project.js is not among the sources; the
   fields are the ones utils/projectUtils.js and the testcases route set,
   and the spec's Project aggregate lists. *)
Module Project.
Record t := mk {
  _id : string;
  projectKey : string;
  createdBy : string;
  firstGeneratedAt : Z;
  lastGeneratedAt : Z;
  totalGenerations : Z
}.

Definition set_lastGeneratedAt (v : Z) (p : t) : t :=
  {| _id := _id p; projectKey := projectKey p; createdBy := createdBy p;
     firstGeneratedAt := firstGeneratedAt p; lastGeneratedAt := v;
     totalGenerations := totalGenerations p |}.

Definition set_totalGenerations (v : Z) (p : t) : t :=
  {| _id := _id p; projectKey := projectKey p; createdBy := createdBy p;
     firstGeneratedAt := firstGeneratedAt p;
     lastGeneratedAt := lastGeneratedAt p; totalGenerations := v |}.
End Project.

(* --------------------------------------------------------------------- *)
(* The chat-completion client and the JIRA client, as seen by the code   *)
(* --------------------------------------------------------------------- *)

Inductive Role := system | user.

Record Message := { role : Role; content : string }.

Record ChatRequest := {
  model : string;
  messages : list Message;
  max_completion_tokens : Z;
  temperature : Q
}.

(* response.usage, each count possibly missing *)
Record Usage := {
  prompt_tokens : option Z;
  completion_tokens : option Z;
  total_tokens : option Z
}.

(* What the code reads of a chat completion:
   response.choices[0]?.message?.content and response.usage. *)
Record ChatResponse := {
  choice_content : option string;
  usage : option Usage
}.

(* A promise settles: it resolves with a value or rejects with an Error,
   of which the code reads the message. *)
Inductive Settled (A : Type) :=
| Resolved (a : A)
| Rejected (message : string).
Arguments Resolved {A} a.
Arguments Rejected {A} message.

Record Attachment := { mimeType : option string }.

(* issue.fields; [description] stands for the text that
   jira.extractTextFromADF returns for fields.description. *)
Record IssueFields := {
  summary : option string;
  description : option string;
  attachment : option (list Attachment)
}.

(* The result of jira.getIssue: { success, issue } or { success, error }. *)
Inductive IssueResult :=
| IssueFound (fields : IssueFields)
| IssueFailed (error : string).

(* What a request finds around it: the ids mongoose gives to new
   documents, the environment variables of the model client, and the
   answers of the collaborators. [chat_completion n] answers the n-th call
   (counted from 0) made while serving the request. [jira_service] is the
   error message when the JiraService constructor throws. *)
Record Env := {
  new_generation_id : string;
  new_project_id : string;
  jira_service : string + (string -> IssueResult);
  OPENAI_API_KEY : option string;
  OPENAI_MODEL : option string;
  chat_completion : nat -> ChatRequest -> Settled ChatResponse
}.

(* --------------------------------------------------------------------- *)
(* The world: the two collections, the clock and the trace of outside    *)
(* calls                                                                 *)
(* --------------------------------------------------------------------- *)

Inductive Event :=
| JiraGetIssue (issueKey : string)
| ChatCompletion (request : ChatRequest)
| Sleep (ms : Z).

Record World := {
  generations : gmap string Generation.t;
  projects : gmap string Project.t;
  now : Z;
  trace : list Event
}.

Definition set_generations (v : gmap string Generation.t) (w : World) : World :=
  {| generations := v; projects := projects w; now := now w; trace := trace w |}.

Definition set_projects (v : gmap string Project.t) (w : World) : World :=
  {| generations := generations w; projects := v; now := now w; trace := trace w |}.

Definition emit (e : Event) (w : World) : World :=
  {| generations := generations w; projects := projects w; now := now w;
     trace := trace w ++ [e] |}.

(* await new Promise(resolve => setTimeout(resolve, ms)) *)
Definition sleep (ms : Z) (w : World) : World :=
  {| generations := generations w; projects := projects w; now := now w + ms;
     trace := trace w ++ [Sleep ms] |}.

(* Generation.findById *)
Definition findById (id : string) (w : World) : option Generation.t :=
  generations w !! id.

(* doc.save(): the document replaces the stored one; the timestamps option
   stamps updatedAt. *)
Definition save (id : string) (g : Generation.t) (w : World) : World :=
  set_generations (<[id := Generation.set_updatedAt (now w) g]> (generations w)) w.

(* Generation.findByIdAndDelete *)
Definition findByIdAndDelete (id : string) (w : World) : World :=
  set_generations (delete id (generations w)) w.

Definition empty_world (t0 : Z) : World :=
  {| generations := ∅; projects := ∅; now := t0; trace := [] |}.

(* --------------------------------------------------------------------- *)
(* Replies                                                               *)
(* --------------------------------------------------------------------- *)

Record ViewData := {
  view_email : string;
  view_content : string;
  view_filename : string;
  view_issueKey : string;
  view_projectKey : option string;
  view_updatedAt : Z;
  view_published : bool;
  view_publishedAt : option Z;
  view_publishedBy : option string;
  view_currentVersion : Z;
  view_version : list Version.t;
  view_lastUpdatedBy : string;
  view_lastUpdatedAt : Z
}.

Record Pagination := {
  pg_page : Z;
  pg_limit : Z;
  pg_total : Z;
  pg_pages : Z
}.

(* The JSON bodies of the routes. *)
Inductive Body :=
| ErrorBody (error : string)                          (* success: false *)
| PreflightBody (issueKey title description : string) (attachments : Z)
    (estimatedTokens : Z) (estimatedCost : Q)
| ListBody (items : list (string * Generation.t)) (pagination : Pagination)
| CreatedBody (generationId issueKey : string) (markdown : Markdown.t)
    (generationTimeSeconds : Q) (cost : option Q)
| ViewBody (data : ViewData)
| ContentBody (content : string) (currentVersion : Z)
| PublishBody (published : bool) (publishedAt : option Z)
    (publishedBy : option string)
| MessageBody (message : string).

(* What a handler does with a request: res.status(code).json(body) (200
   when no status is set), res.send of a file, next(e) in the handler's
   catch, or an exception that leaves a handler without a catch. *)
Inductive Reply :=
| Json (code : Z) (body : Body)
| File (contentType contentDisposition text : string)
| Next (message : string)
| Uncaught (message : string).

(* --------------------------------------------------------------------- *)
(* utils/projectUtils.js                                                 *)
(* --------------------------------------------------------------------- *)

Definition is_alnum (c : ascii) : bool :=
  let n := nat_of_ascii c in
  ((48 <=? n) && (n <=? 57) || (65 <=? n) && (n <=? 90)
   || (97 <=? n) && (n <=? 122))%nat.

(* The longest run of [A-Z0-9] characters (case-insensitive) at the head
   of a string, and what follows it. *)
Fixpoint span_alnum (s : string) : string * string :=
  match s with
  | String c rest =>
      if is_alnum c
      then let '(run, tail) := span_alnum rest in (String c run, tail)
      else (EmptyString, s)
  | EmptyString => (EmptyString, EmptyString)
  end.

(* issueKey.match(/^([A-Z0-9]+)-/i): the run must be non-empty and be
   followed by a hyphen. *)
Definition extractProject (issueKey : string) : option string :=
  if JS.falsy issueKey then None
  else
    match span_alnum issueKey with
    | (String c run, String "-" _) => Some (JS.toUpperCase (String c run))
    | _ => None
    end.

(* --------------------------------------------------------------------- *)
(* routes/generations.js: view, content, publish, download, delete       *)
(* --------------------------------------------------------------------- *)

(* gen.status === s *)
Definition status_is (s : Status) (gen : Generation.t) : bool :=
  bool_decide (Generation.status gen = Some s).

(* gen.result?.markdown?.content *)
Definition markdown_content (gen : Generation.t) : option string :=
  Generation.result_markdown gen ≫= Markdown.content.

(* gen.result?.markdown?.filename *)
Definition markdown_filename (gen : Generation.t) : option string :=
  Generation.result_markdown gen ≫= Markdown.filename.

(* GET /:id/view *)
Definition get_view (id email : string) (w : World) : Reply :=
  match findById id w with
  | None => Json 404 (ErrorBody "Not found")
  | Some gen =>
      let isOwner := String.eqb (Generation.email gen) email in
      let isPublishedAndCompleted :=
        Generation.published gen && status_is completed gen in
      if negb isOwner && negb isPublishedAndCompleted
      then Json 404 (ErrorBody "Not found")
      else
        let latestVersion := last (Generation.version gen) in
        let projectKey :=
          if JS.falsy (Generation.issueKey gen) then None
          else extractProject (Generation.issueKey gen) in
        Json 200 (ViewBody
          {| view_email := Generation.email gen;
             view_content := JS.or_string (markdown_content gen) "";
             view_filename := JS.or_string (markdown_filename gen) "output.md";
             view_issueKey := Generation.issueKey gen;
             view_projectKey := projectKey;
             view_updatedAt := Generation.updatedAt gen;
             view_published := Generation.published gen || false;
             view_publishedAt := Generation.publishedAt gen;
             view_publishedBy := Generation.publishedBy gen;
             view_currentVersion := JS.or_number (Generation.currentVersion gen) 1;
             view_version := Generation.version gen;
             view_lastUpdatedBy :=
               JS.or_string (Version.updatedBy <$> latestVersion)
                            (Generation.email gen);
             view_lastUpdatedAt :=
               default (Generation.updatedAt gen)
                       (Version.updatedAt <$> latestVersion) |})
  end.

(* Lines 365-390 of the content route: the outgoing content becomes a
   version, unless it is empty or equal to the incoming one. *)
Definition track_version (email content : string) (t : Z)
    (gen : Generation.t) : Generation.t :=
  let currentContent := JS.or_string (markdown_content gen) "" in
  if negb (JS.falsy currentContent) && negb (String.eqb currentContent content)
  then
    let currentVersionNum := JS.or_number (Generation.currentVersion gen) 1 in
    let versionExists :=
      existsb (fun v => Version.version v =? currentVersionNum)
              (Generation.version gen) in
    let gen :=
      if versionExists then gen
      else Generation.set_version
             (Generation.version gen ++
              [ {| Version.version := currentVersionNum;
                   Version.content := currentContent;
                   Version.updatedAt := t;
                   Version.updatedBy := email;
                   Version.notes := None |} ]) gen in
    Generation.set_currentVersion (currentVersionNum + 1) gen
  else gen.

(* Lines 393-395: gen.result.markdown.content = content, on a markdown
   object that is created when it is missing. *)
Definition write_content (content : string) (gen : Generation.t) : Generation.t :=
  let markdown := default (Markdown.mk None None) (Generation.result_markdown gen) in
  Generation.set_result_markdown
    (Some (Markdown.mk (Some content) (Markdown.filename markdown))) gen.

(* PUT /:id/content. [content] is [None] when req.body.content is not a
   string. *)
Definition put_content (id email : string) (content : option string)
    (w : World) : Reply * World :=
  match content with
  | None => (Json 400 (ErrorBody "content must be a string"), w)
  | Some content =>
      match findById id w with
      | None => (Json 404 (ErrorBody "Not found"), w)
      | Some gen =>
          if negb (String.eqb (Generation.email gen) email)
          then (Json 404 (ErrorBody "Not found"), w)
          else if negb (status_is completed gen)
          then (Json 400 (ErrorBody "Can only update completed generations"), w)
          else
            let gen := write_content content (track_version email content (now w) gen) in
            (Json 200 (ContentBody (default "" (markdown_content gen))
                         (JS.or_number (Generation.currentVersion gen) 1)),
             save id gen w)
      end
  end.

(* PUT /:id/publish. [published] is [None] when req.body.published is not
   a boolean. *)
Definition put_publish (id email : string) (published : option bool)
    (w : World) : Reply * World :=
  match published with
  | None => (Json 400 (ErrorBody "Published must be a boolean"), w)
  | Some published =>
      match findById id w with
      | None => (Json 404 (ErrorBody "Not found"), w)
      | Some gen =>
          if negb (String.eqb (Generation.email gen) email)
          then (Json 404 (ErrorBody "Not found"), w)
          else if negb (status_is completed gen)
          then (Json 400 (ErrorBody "Can only publish completed generations"), w)
          else
            let gen := Generation.set_published published gen in
            let gen :=
              if published
              then Generation.set_publishedBy (Some email)
                     (Generation.set_publishedAt (Some (now w)) gen)
              else Generation.set_publishedBy None
                     (Generation.set_publishedAt None gen) in
            (Json 200 (PublishBody (Generation.published gen)
                         (Generation.publishedAt gen)
                         (Generation.publishedBy gen)),
             save id gen w)
      end
  end.

(* GET /:id/download *)
Definition get_download (id email : string) (w : World) : Reply :=
  match findById id w with
  | None => Json 404 (ErrorBody "Not found")
  | Some gen =>
      let isOwner := String.eqb (Generation.email gen) email in
      let isPublishedAndCompleted :=
        Generation.published gen && status_is completed gen in
      if negb isOwner && negb isPublishedAndCompleted
      then Json 404 (ErrorBody "Not found")
      else if negb (status_is completed gen)
      then Json 400 (ErrorBody "Not completed")
      else
        File "text/markdown"
             ("attachment; filename=" +:+ JS.dq
                +:+ JS.or_string (markdown_filename gen) "output.md" +:+ JS.dq)
             (JS.or_string (markdown_content gen) "")
  end.

(* DELETE /:id *)
Definition delete_generation (id email : string) (w : World) : Reply * World :=
  match findById id w with
  | None => (Json 404 (ErrorBody "Generation not found"), w)
  | Some gen =>
      if negb (String.eqb (Generation.email gen) email)
      then (Json 403 (ErrorBody "You can only delete your own generations"), w)
      else (Json 200 (MessageBody "Generation deleted successfully"),
            findByIdAndDelete id w)
  end.

(* --------------------------------------------------------------------- *)
(* services/openAIService.js                                             *)
(* --------------------------------------------------------------------- *)

Definition MANUAL_PROMPT : string :=
  "You are an expert manual QA Engineer. Generate comprehensive test cases from JIRA issue descriptions.

**Context:** You will receive JIRA issue details including title, description, comments, and acceptance criteria. Use ONLY this information - never invent requirements.

**Output Requirements:**
1. Use proper markdown with ## for main headings and - for bullet points
2. Include a title: " +:+ JS.dq +:+
  "# Test Cases for [JIRA-ID]: [Issue Title]" +:+ JS.dq +:+
  "
3. Structure by categories: ## **Functional Requirements**, ## **UI & Visual Validation**, ## **Edge Cases**, ## **Data Integrity** (if applicable)
4. Include blank lines before and after lists
5. Each test case should be:
   - Clear and actionable
   - Cover specific acceptance criteria
   - Include preconditions, steps, and expected results
   - Prioritized (High/Medium/Low)

**Must NOT:**
- Never mention specific individual names
- Never include implementation details (HTML classes, functions)
- Never invent requirements not in the JIRA issue

**Coverage:**
- Positive and negative test cases
- Edge cases and boundary conditions
- Error handling
- User workflows
- Form validations
- State transitions
- Accessibility considerations (if UI-related)

Generate comprehensive test cases now.".

Definition AUTO_PROMPT : string :=
  "You are an expert QA automation specialist. Generate automation-friendly test cases from JIRA issue descriptions.

**Context:** You will receive JIRA issue details. Use ONLY this information - never invent requirements.

**Output Requirements:**
1. Use proper markdown format
2. Title: " +:+ JS.dq +:+
  "# Automation Tests for [JIRA-ID]: [Issue Title]" +:+ JS.dq +:+
  "
3. Structure tests by acceptance criteria
4. Include blank lines before and after lists
5. Each test should specify:
   - Clear, automatable steps
   - Specific UI elements or data to verify
   - Assertion points
   - Test data requirements

**Must NOT:**
- Never include subjective validations
- Never write vague steps
- Never include non-verifiable assertions

**Focus on:**
- Idempotent, independent test scenarios
- Clear element identification strategies
- Repeatable test data
- Programmatically verifiable assertions
- Error handling in automation
- State management

Generate automation-friendly test cases now.".

Record OpenAIService := {
  service_model : string;
  maxCompletionTokens : Z;
  maxRetries : Z
}.

(* constructor() *)
Definition new_OpenAIService (env : Env) : string + OpenAIService :=
  if JS.falsy (JS.or_string (OPENAI_API_KEY env) "")
  then inl "OPENAI_API_KEY is not "
  else inr {| service_model := JS.or_string (OPENAI_MODEL env) "gpt-4o-mini";
              maxCompletionTokens := 8000;
              maxRetries := 3 |}.

(* What generateTestCase resolves with: { content, tokenUsage, cost }. *)
Record TestCaseResult := {
  result_content : string;
  result_tokenUsage : TokenUsage;
  result_cost : Q
}.

(* The number of chat-completion calls made so far. *)
Definition is_call (e : Event) : bool :=
  match e with ChatCompletion _ => true | _ => false end.

Definition calls (w : World) : nat := length (List.filter is_call (trace w)).

(* Lines 122-135: token usage and cost of a response. *)
Definition account (content : string) (response : ChatResponse) : TestCaseResult :=
  let usage := default {| prompt_tokens := None; completion_tokens := None;
                          total_tokens := None |} (usage response) in
  let tokenUsage :=
    {| promptTokens := default 0 (prompt_tokens usage);
       completionTokens := default 0 (completion_tokens usage);
       totalTokens := default 0 (total_tokens usage) |} in
  let inputCost := ((inject_Z (promptTokens tokenUsage) / 1000000) * (15 # 100))%Q in
  let outputCost := ((inject_Z (completionTokens tokenUsage) / 1000000) * (60 # 100))%Q in
  let totalCost := (inputCost + outputCost)%Q in
  {| result_content := content; result_tokenUsage := tokenUsage;
     result_cost := totalCost |}.

(* One pass through the body of the try inside the loop (lines 105-135):
   the call, and the check that the first choice has content. *)
Definition attempt (env : Env) (request : ChatRequest) (w : World)
  : Settled TestCaseResult * World :=
  let answer := chat_completion env (calls w) request in
  let w := emit (ChatCompletion request) w in
  match answer with
  | Rejected message => (Rejected message, w)
  | Resolved response =>
      match choice_content response with
      | Some content =>
          if JS.falsy content
          then (Rejected "Empty response from OpenAI", w)
          else (Resolved (account content response), w)
      | None => (Rejected "Empty response from OpenAI", w)
      end
  end.

(* The while loop of lines 104-150. It resolves with [None] (undefined)
   when the loop condition fails; [fuel] bounds the number of times the
   condition is evaluated, and the result is [None] when it runs out. *)
Fixpoint retry_loop (fuel : nat) (this : OpenAIService) (env : Env)
    (request : ChatRequest) (retryCount : Z) (w : World)
  : option (Settled (option TestCaseResult) * World) :=
  match fuel with
  | O => None
  | S fuel =>
      if retryCount <=? maxRetries this then
        match attempt env request w with
        | (Resolved result, w) => Some (Resolved (Some result), w)
        | (Rejected message, w) =>
            let retryCount := retryCount + 1 in
            if retryCount <=? maxRetries this then
              let waitTime := 2 ^ retryCount * 1000 in
              retry_loop fuel this env request retryCount (sleep waitTime w)
            else Some (Rejected message, w)
        end
      else Some (Resolved None, w)
  end.

(* Lines 83-98 and 108-111: the request generateTestCase sends. *)
Definition chat_request (this : OpenAIService) (context issueKey : string)
    (autoMode : option bool) : ChatRequest :=
  let autoMode := default false autoMode in
  let systemPrompt := if autoMode then AUTO_PROMPT else MANUAL_PROMPT in
  let issueContext :=
    JS.nl +:+ JS.nl +:+ "JIRA issue: " +:+ issueKey +:+ JS.nl +:+ JS.nl +:+ context in
  let messages :=
    [ {| role := system; content := systemPrompt |};
      {| role := user; content := issueContext |} ] in
  {| model := service_model this; messages := messages;
     max_completion_tokens := maxCompletionTokens this;
     temperature := 7 # 10 |}.

(* generateTestCase(context, issueKey, autoMode = false, images = []);
   [autoMode] is [None] when the caller leaves the argument out. The
   images argument is unused. *)
Definition generateTestCase (this : OpenAIService) (env : Env)
    (context issueKey : string) (autoMode : option bool) (w : World)
  : option (Settled (option TestCaseResult) * World) :=
  let request := chat_request this context issueKey autoMode in
  retry_loop (S (Z.to_nat (maxRetries this + 1))) this env request 0 w.

(* --------------------------------------------------------------------- *)
(* routes/generations.js: the service handles, testcases, preflight      *)
(* --------------------------------------------------------------------- *)

(* getJiraService(): the constructor's error is thrown again. *)
Definition getJiraService (env : Env) : string + (string -> IssueResult) :=
  jira_service env.

(* getOpenAIService(): any constructor error is replaced. *)
Definition getOpenAIService (env : Env) : string + OpenAIService :=
  match new_OpenAIService env with
  | inl _ => inl "email and apiToken are required on environment"
  | inr service => inr service
  end.

(* findOrCreateProject of utils/projectUtils.js, on the project
   collection keyed by project key. *)
Definition findOrCreateProject (env : Env) (projectKey userEmail : string)
    (w : World) : Project.t * World :=
  let normalizeKey := JS.toUpperCase projectKey in
  let project :=
    match projects w !! normalizeKey with
    | None =>
        {| Project._id := new_project_id env;
           Project.projectKey := normalizeKey;
           Project.createdBy := userEmail;
           Project.firstGeneratedAt := now w;
           Project.lastGeneratedAt := now w;
           Project.totalGenerations := 0 |}
    | Some project => Project.set_lastGeneratedAt (now w) project
    end in
  (project, set_projects (<[normalizeKey := project]> (projects w)) w).

(* Generation.countDocuments({ project: id }) *)
Definition countByProject (id : string) (w : World) : Z :=
  Z.of_nat (size (filter (fun kv : string * Generation.t =>
                            Generation.project kv.2 = Some id)
                         (generations w))).

(* new Generation({ issueKey, email, project, mode: 'manual', startedAt })
   with the schema defaults. *)
Definition new_Generation (issueKey email : string) (project : option string)
    (t : Z) : Generation.t :=
  {| Generation.issueKey := issueKey;
     Generation.email := email;
     Generation.project := project;
     Generation.mode := Some manual;
     Generation.status := None;
     Generation.createdAt := t;
     Generation.updatedAt := t;
     Generation.startedAt := Some t;
     Generation.completedAt := None;
     Generation.generationTimeSeconds := None;
     Generation.cost := None;
     Generation.tokenUsage := None;
     Generation.result_markdown := None;
     Generation.error := None;
     Generation.published := false;
     Generation.publishedAt := None;
     Generation.publishedBy := None;
     Generation.version := [];
     Generation.currentVersion := 1 |}.

(* The catch of lines 245-252. *)
Definition generation_failed (id : string) (generation : Generation.t)
    (message : string) (w : World) : Reply * World :=
  let generation := Generation.set_status (Some failed) generation in
  let generation :=
    Generation.set_error (Some ("OpenAI generation failed: " +:+ message)) generation in
  let generation := Generation.set_completedAt (Some (now w)) generation in
  (Json 500 (ErrorBody (JS.or_string (Some message) "Failed to generate test cases")),
   save id generation w).

(* Lines 164-175: the project of the issue key, found or created. The
   collections do not fail in this model, so the catch is never entered. *)
Definition associate_project (env : Env) (issueKey email : string) (w : World)
  : option Project.t * World :=
  match extractProject issueKey with
  | Some projectKey =>
      let '(project, w) := findOrCreateProject env projectKey email w in
      (Some project, w)
  | None => (None, w)
  end.

(* Lines 187-194: the project's count of generations, counted again. *)
Definition recount_project (project : option Project.t) (w : World) : World :=
  match project with
  | Some project =>
      match projects w !! Project.projectKey project with
      | Some updatedProject =>
          let updatedProject :=
            Project.set_totalGenerations
              (countByProject (Project._id project) w) updatedProject in
          set_projects
            (<[Project.projectKey project := updatedProject]> (projects w)) w
      | None => w
      end
  | None => w
  end.

(* Lines 203-209: the issue could not be fetched. *)
Definition fetch_failed (id : string) (generation : Generation.t)
    (error : string) (w : World) : Reply * World :=
  let generation := Generation.set_status (Some failed) generation in
  let generation :=
    Generation.set_error
      (Some (JS.or_string (Some error) "Failed to fetch JIRA issue")) generation in
  let generation := Generation.set_completedAt (Some (now w)) generation in
  (Json 404 (ErrorBody error), save id generation w).

(* Lines 241-244: the title the content gets when it has none. *)
Definition ensure_title (issueKey summary markdownContent : string) : string :=
  if negb (JS.startsWith markdownContent "#")
  then "# Test Cases for " +:+ issueKey +:+ ": "
       +:+ JS.or_string (Some summary) "Untitled"
       +:+ JS.nl +:+ JS.nl +:+ markdownContent
  else markdownContent.

(* Lines 254-294: the generation succeeded. *)
Definition generation_completed (id issueKey : string) (generation : Generation.t)
    (markdownContent : string) (tokenUsage : TokenUsage) (cost : Q)
    (startTime : Z) (w : World) : Reply * World :=
  let generationTimeSeconds := (inject_Z (now w - startTime) / 1000)%Q in
  let generation := Generation.set_status (Some completed) generation in
  let generation := Generation.set_completedAt (Some (now w)) generation in
  let generation :=
    Generation.set_generationTimeSeconds
      (Some (inject_Z (JS.round (generationTimeSeconds * 100)) / 100)%Q)
      generation in
  let generation := Generation.set_cost (Some cost) generation in
  let generation := Generation.set_tokenUsage (Some tokenUsage) generation in
  let markdown :=
    {| Markdown.filename := Some (issueKey +:+ "_testcases_" +:+ id +:+ ".md");
       Markdown.content := Some markdownContent |} in
  let generation := Generation.set_result_markdown (Some markdown) generation in
  let generation := Generation.set_currentVersion 1 generation in
  let generation := Generation.set_version [] generation in
  (Json 200
     (CreatedBody id issueKey markdown
        (default 0%Q (Generation.generationTimeSeconds generation))
        (Generation.cost generation)),
   save id generation w).

(* Lines 226-252: the model client is obtained and called inside a try
   whose catch is [generation_failed]. The call leaves out autoMode. The
   result is [None] only if the retry loop runs out of fuel. *)
Definition generate (env : Env) (id issueKey : string) (generation : Generation.t)
    (summary context : string) (startTime : Z) (w : World)
  : option (Reply * World) :=
  match getOpenAIService env with
  | inl message => Some (generation_failed id generation message w)
  | inr openai =>
      '(result, w) ← generateTestCase openai env context issueKey None w;
      match result with
      | Rejected message => Some (generation_failed id generation message w)
      | Resolved None =>
          Some (generation_failed id generation
                  "Cannot read properties of undefined (reading 'content')" w)
      | Resolved (Some result) =>
          Some (generation_completed id issueKey generation
                  (ensure_title issueKey summary (result_content result))
                  (result_tokenUsage result) (result_cost result) startTime w)
      end
  end.

(* Lines 215-219: the summary and the context built from the issue. *)
Definition issue_summary (fields : IssueFields) : string :=
  JS.or_string (summary fields) "".

Definition issue_context (fields : IssueFields) : string :=
  let summary := issue_summary fields in
  let description := JS.or_string (description fields) "" in
  "Title: " +:+ summary +:+ " Description:" +:+ description.

(* Lines 164-194: the generation document is created and saved before
   anything is fetched, and its project is counted again. *)
Definition open_generation (env : Env) (issueKey email : string) (w : World)
  : Generation.t * World :=
  let '(project, w) := associate_project env issueKey email w in
  let generation :=
    new_Generation issueKey email (Project._id <$> project) (now w) in
  let w := save (new_generation_id env) generation w in
  let w := recount_project project w in
  (generation, w).

(* POST /testcases. [issueKey] is [None] when the body has none. *)
Definition post_testcases (env : Env) (email : string) (issueKey : option string)
    (w : World) : option (Reply * World) :=
  let issueKey := JS.or_string issueKey "" in
  if JS.falsy issueKey
  then Some (Json 400 (ErrorBody "issueKey required"), w)
  else
    let '(generation, w) := open_generation env issueKey email w in
    let id := new_generation_id env in
    let startTime := now w in
    match getJiraService env with
    | inl message => Some (Next message, w)
    | inr getIssue =>
        let issueResult := getIssue issueKey in
        let w := emit (JiraGetIssue issueKey) w in
        match issueResult with
        | IssueFailed error => Some (fetch_failed id generation error w)
        | IssueFound fields =>
            generate env id issueKey generation (issue_summary fields)
              (issue_context fields) startTime w
        end
    end.

(* number.toFixed(d), kept as the rational it prints. *)
Definition toFixed (d : Z) (q : Q) : Q :=
  (inject_Z (JS.round (q * inject_Z (10 ^ d))) / inject_Z (10 ^ d))%Q.

(* att => att.mimeType?.startWiths('image/') of line 67. A string has no
   method startWiths, so the call throws a TypeError whenever mimeType is
   defined; when it is undefined the optional chain gives undefined. *)
Definition image_test (att : Attachment) : string + bool :=
  match mimeType att with
  | None => inr false
  | Some _ => inl "att.mimeType?.startWiths is not a function"
  end.

(* Array.prototype.filter with a callback that may throw. *)
Fixpoint filter_throwing {A : Type} (test : A -> string + bool) (l : list A)
  : string + list A :=
  match l with
  | [] => inr []
  | x :: rest =>
      match test x with
      | inl message => inl message
      | inr keep =>
          match filter_throwing test rest with
          | inl message => inl message
          | inr kept => inr (if keep then x :: kept else kept)
          end
      end
  end.

(* Lines 72 and 75. *)
Definition estimateTokens (contextCharacter images : Z) : Z :=
  JS.ceil_div contextCharacter 4 + images * 200.

Definition estimateCost (estimatedTokens : Z) : Q :=
  ((inject_Z estimatedTokens / 1000000) * (15 # 100)
   + (8000 / 1000000) * (60 # 100))%Q.

(* Lines 53-57 of the preflight route: the status code for a message of
   the JIRA client. *)
Definition statusCode (error : string) : Z :=
  if JS.includes error "authentication" || JS.includes error "forbidden"
  then 401
  else if JS.includes error "not found" then 404 else 500.

(* POST /preflight. The handler has no try: what is thrown in it is not
   caught. *)
Definition post_preflight (env : Env) (issueKey : option string) (w : World)
  : Reply * World :=
  let issueKey := JS.or_string issueKey "" in
  if JS.falsy issueKey
  then (Json 400 (ErrorBody "issueKey required"), w)
  else
    match getJiraService env with
    | inl message => (Uncaught message, w)
    | inr getIssue =>
        let issueResult := getIssue issueKey in
        let w := emit (JiraGetIssue issueKey) w in
        match issueResult with
        | IssueFailed error =>
            (Json (statusCode error)
               (ErrorBody (JS.or_string (Some error) "Issue not found in JIRA")), w)
        | IssueFound fields =>
            let summary := JS.or_string (summary fields) "" in
            let description := JS.or_string (description fields) "" in
            let attachment := default [] (attachment fields) in
            match filter_throwing image_test attachment with
            | inl message => (Uncaught message, w)
            | inr imageAttachments =>
                let contextText := summary +:+ " " +:+ description in
                let contextCharacter := Z.of_nat (String.length contextText) in
                let estimatedTokens :=
                  estimateTokens contextCharacter (Z.of_nat (length imageAttachments)) in
                let estimatedCost := estimateCost estimatedTokens in
                (Json 200
                   (PreflightBody issueKey (JS.or_string (Some summary) "N/A")
                      description (Z.of_nat (length attachment))
                      estimatedTokens (toFixed 5 estimatedCost)), w)
            end
        end
    end.

(* --------------------------------------------------------------------- *)
(* routes/generations.js: the list                                       *)
(* --------------------------------------------------------------------- *)

(* (page - 1) * limit on numbers that may be NaN *)
Definition skip_of (page limit : JS.Num) : JS.Num :=
  match page, limit with
  | JS.Int p, JS.Int l => JS.Int ((p - 1) * l)
  | _, _ => JS.NaN
  end.

(* Lines 103-105: page, limit and skip from the query string; a
   parameter is [None] when the query has none. *)
Definition list_params (page limit : option string) : JS.Num * JS.Num * JS.Num :=
  let page := JS.max 1 (JS.parseInt (JS.or_string page "1")) in
  let limit := JS.min 50 (JS.max 1 (JS.parseInt (JS.or_string limit "10"))) in
  let skip := skip_of page limit in
  (page, limit, skip).

(* The three filter documents of lines 110-126, as the test they make. *)
Definition list_filter (filterType email : string) (gen : Generation.t) : bool :=
  if String.eqb filterType "mine"
  then String.eqb (Generation.email gen) email
  else if String.eqb filterType "published"
  then Generation.published gen && status_is completed gen
  else String.eqb (Generation.email gen) email
       || Generation.published gen && status_is completed gen.

(* The order of .sort({ createdAt: -1 }): most recent first. *)
Definition newer_first (x y : string * Generation.t) : Prop :=
  Generation.createdAt y.2 ≤ Generation.createdAt x.2.

Global Instance newer_first_dec : RelDecision newer_first.
Proof. intros x y. unfold newer_first. apply Z_le_dec. Defined.

Definition sort_desc (l : list (string * Generation.t))
  : list (string * Generation.t) :=
  merge_sort newer_first l.

(* Generation.find(filter) and Generation.countDocuments(filter) *)
Definition find (test : Generation.t -> bool) (w : World)
  : list (string * Generation.t) :=
  List.filter (fun kv => test kv.2) (map_to_list (generations w)).

(* GET /. The result is [None] when skip or limit is NaN: what the driver
   does with such a query is outside the sources. *)
Definition get_list (email : string) (page limit filter : option string)
    (w : World) : option Reply :=
  let '(page, limit, skip) := list_params page limit in
  let filterType := JS.or_string filter "all" in
  match page, limit, skip with
  | JS.Int page, JS.Int limit, JS.Int skip =>
      let found := find (list_filter filterType email) w in
      let generations :=
        take (Z.to_nat limit) (drop (Z.to_nat skip) (sort_desc found)) in
      let total := Z.of_nat (length found) in
      let pages := JS.ceil_div total limit in
      Some (Json 200 (ListBody generations
                        {| pg_page := page; pg_limit := limit;
                           pg_total := total; pg_pages := pages |}))
  | _, _, _ => None
  end.

(* ===================================================================== *)
(* The vocabulary of the properties, and sample requests and worlds      *)
(* ===================================================================== *)

(* The content the route takes as stored: gen.result?.markdown?.content || '' *)
Definition stored_content (gen : Generation.t) : string :=
  JS.or_string (markdown_content gen) "".

(* The snapshot the route pushes. *)
Definition snapshot (gen : Generation.t) (email : string) (t : Z) : Version.t :=
  {| Version.version := JS.or_number (Generation.currentVersion gen) 1;
     Version.content := stored_content gen;
     Version.updatedAt := t;
     Version.updatedBy := email;
     Version.notes := None |}.

Definition versionExists (gen : Generation.t) : bool :=
  existsb (fun v => Version.version v =? JS.or_number (Generation.currentVersion gen) 1)
          (Generation.version gen).

(* The generation of the spec's scenario after an edit has emptied its
   content: see [emptied_world_by_edit]. *)
Definition emptied_generation : Generation.t :=
  {| Generation.issueKey := "KAN-10";
     Generation.email := "qa@example.com";
     Generation.project := None;
     Generation.mode := Some manual;
     Generation.status := Some completed;
     Generation.createdAt := 1000;
     Generation.updatedAt := 4000;
     Generation.startedAt := Some 1000;
     Generation.completedAt := Some 2000;
     Generation.generationTimeSeconds := Some 1%Q;
     Generation.cost := Some 0%Q;
     Generation.tokenUsage := None;
     Generation.result_markdown :=
       Some {| Markdown.content := Some ""; Markdown.filename := Some "KAN-10_testcases_g1.md" |};
     Generation.error := None;
     Generation.published := false;
     Generation.publishedAt := None;
     Generation.publishedBy := None;
     Generation.version :=
       [ {| Version.version := 1; Version.content := "# Test Cases for KAN-10";
            Version.updatedAt := 4000; Version.updatedBy := "qa@example.com";
            Version.notes := None |} ];
     Generation.currentVersion := 2 |}.

Definition emptied_world : World :=
  {| generations := {[ "g1" := emptied_generation ]}; projects := ∅;
     now := 4000; trace := [] |}.

(* The generation of the scenario of the spec's section 8, once completed. *)
Definition login_generation : Generation.t :=
  {| Generation.issueKey := "KAN-10";
     Generation.email := "qa@example.com";
     Generation.project := None;
     Generation.mode := Some manual;
     Generation.status := Some completed;
     Generation.createdAt := 1000;
     Generation.updatedAt := 2000;
     Generation.startedAt := Some 1000;
     Generation.completedAt := Some 2000;
     Generation.generationTimeSeconds := Some 1%Q;
     Generation.cost := Some 0%Q;
     Generation.tokenUsage := None;
     Generation.result_markdown :=
       Some {| Markdown.content := Some "# Test Cases for KAN-10";
               Markdown.filename := Some "KAN-10_testcases_g1.md" |};
     Generation.error := None;
     Generation.published := false;
     Generation.publishedAt := None;
     Generation.publishedBy := None;
     Generation.version := [];
     Generation.currentVersion := 1 |}.

Definition login_world : World :=
  {| generations := {[ "g1" := login_generation ]}; projects := ∅;
     now := 4000; trace := [] |}.

(* N content edits in a row by the same requester. *)
Fixpoint put_contents (id email : string) (contents : list string) (w : World)
  : World :=
  match contents with
  | [] => w
  | content :: rest => put_contents id email rest (put_content id email (Some content) w).2
  end.

(* Each submitted content differs from the content stored just before it. *)
Fixpoint each_differs (stored : string) (contents : list string) : Prop :=
  match contents with
  | [] => True
  | content :: rest => stored ≠ content ∧ each_differs content rest
  end.

(* The same, and the content stored just before each edit is not empty. *)
Fixpoint each_changes (stored : string) (contents : list string) : Prop :=
  match contents with
  | [] => True
  | content :: rest => stored ≠ "" ∧ stored ≠ content ∧ each_changes content rest
  end.

Definition version_numbers (gen : Generation.t) : list Z :=
  Version.version <$> Generation.version gen.

(* The request carries the manual prompt as its system message. *)
Definition manual_request (request : ChatRequest) : Prop :=
  ∃ text, messages request =
          [ {| role := system; content := MANUAL_PROMPT |};
            {| role := user; content := text |} ].

Definition manual_event (e : Event) : Prop :=
  match e with
  | ChatCompletion request => manual_request request
  | _ => True
  end.

(* The events of the retry loop: calls with one request, and waits. *)
Definition loop_event (request : ChatRequest) (e : Event) : Prop :=
  e = ChatCompletion request ∨ ∃ ms, e = Sleep ms.

(* [w'] differs from [w] by time and by the events [evs] only. *)
Definition extends (w : World) (evs : list Event) (w' : World) : Prop :=
  generations w' = generations w
  ∧ projects w' = projects w
  ∧ trace w' = (trace w ++ evs)%list.

(* What a generation is like when the testcases route has stored it:
   in flight, failed with a message, or completed with its markdown. *)
Definition settled (g : Generation.t) : Prop :=
  match Generation.status g with
  | None => Generation.error g = None ∧ Generation.result_markdown g = None
  | Some failed =>
      (∃ message, Generation.error g = Some message ∧ message ≠ "")
      ∧ Generation.result_markdown g = None
  | Some completed =>
      Generation.error g = None ∧ is_Some (Generation.result_markdown g)
  end.

Definition created (g : Generation.t) : Prop :=
  settled g ∧ Generation.mode g = Some manual.

(* Time passes between requests. *)
Definition advance (dt : Z) (w : World) : World :=
  {| generations := generations w; projects := projects w; now := now w + dt;
     trace := trace w |}.

(* One request that may change the world, or the passing of time. The id
   of a new document is one that the collection does not hold. *)
Inductive step : World → World → Prop :=
| step_testcases env email issueKey w reply w' :
    generations w !! new_generation_id env = None →
    post_testcases env email issueKey w = Some (reply, w') →
    step w w'
| step_preflight env issueKey w :
    step w (post_preflight env issueKey w).2
| step_content id email content w :
    step w (put_content id email content w).2
| step_publish id email published w :
    step w (put_publish id email published w).2
| step_delete id email w :
    step w (delete_generation id email w).2
| step_clock dt w :
    0 ≤ dt → step w (advance dt w).

(* The worlds the service can be in, from empty collections. *)
Definition reachable (w : World) : Prop :=
  ∃ t0, rtc step (empty_world t0) w.

(* What an edit or a publication may do to a document. *)
Definition updated (g g' : Generation.t) : Prop :=
  Generation.status g = Some completed
  ∧ Generation.status g' = Generation.status g
  ∧ Generation.error g' = Generation.error g
  ∧ Generation.mode g' = Generation.mode g
  ∧ (is_Some (Generation.result_markdown g) → is_Some (Generation.result_markdown g'))
  ∧ Generation.currentVersion g ≤ Generation.currentVersion g'.

(* The documents a step leaves, against the ones it found. *)
Inductive change (m m' : gmap string Generation.t) : Prop :=
| change_none : m' = m → change m m'
| change_create id g :
    m !! id = None → m' = <[id := g]> m → created g → change m m'
| change_update id g g' :
    m !! id = Some g → m' = <[id := g']> m → updated g g' → change m m'
| change_delete id : m' = delete id m → change m m'.

(* Every stored generation is as the testcases route left it, up to edits
   and publications; every event of the trace carries the manual prompt. *)
Definition world_ok (w : World) : Prop :=
  map_Forall (fun _ g => created g) (generations w)
  ∧ Forall manual_event (trace w).

(* The predicate of the spec's section 4.4, in the spec's words. *)
Definition canView (generation : Generation.t) (requesterEmail : string) : bool :=
  String.eqb (Generation.email generation) requesterEmail
  || Generation.published generation && status_is completed generation.

Definition NotFound : Reply := Json 404 (ErrorBody "Not found").

(* What the download route sends for a generation. *)
Definition download_of (gen : Generation.t) : Reply :=
  File "text/markdown"
       ("attachment; filename=" +:+ JS.dq
          +:+ JS.or_string (markdown_filename gen) "output.md" +:+ JS.dq)
       (stored_content gen).

(* The owner's generation whose issue could not be fetched. *)
Definition failed_generation : Generation.t :=
  {| Generation.issueKey := "BAD-1";
     Generation.email := "qa@example.com";
     Generation.project := None;
     Generation.mode := Some manual;
     Generation.status := Some failed;
     Generation.createdAt := 1000;
     Generation.updatedAt := 2000;
     Generation.startedAt := Some 1000;
     Generation.completedAt := Some 2000;
     Generation.generationTimeSeconds := None;
     Generation.cost := None;
     Generation.tokenUsage := None;
     Generation.result_markdown := None;
     Generation.error := Some "Issue not found";
     Generation.published := false;
     Generation.publishedAt := None;
     Generation.publishedBy := None;
     Generation.version := [];
     Generation.currentVersion := 1 |}.


(* The audit fields the route writes for a desired state. *)
Definition stamp_at (published : bool) (t : Z) : option Z :=
  if published then Some t else None.

Definition stamp_by (published : bool) (email : string) : option string :=
  if published then Some email else None.

(* error is a non-empty string *)
Definition has_error (g : Generation.t) : Prop :=
  ∃ message, Generation.error g = Some message ∧ message ≠ "".

(* A JIRA client that finds no issue, and a world after one request to
   the testcases route with it. *)
Definition deaf_env : Env :=
  {| new_generation_id := "g2";
     new_project_id := "p1";
     jira_service := inr (fun _ => IssueFailed "Issue not found");
     OPENAI_API_KEY := Some "sk-test";
     OPENAI_MODEL := None;
     chat_completion := fun _ _ => Rejected "unreachable" |}.

Definition after_testcases (env : Env) (email : string) (issueKey : option string)
    (w : World) : World :=
  match post_testcases env email issueKey w with
  | Some (_, w') => w'
  | None => w
  end.

Definition bad_world : World :=
  after_testcases deaf_env "qa@example.com" (Some "BAD-1") (empty_world 1000).

(* A JIRA client that finds the issue of the spec's scenario and a model
   client that answers at once. *)
Definition login_issue : IssueFields :=
  {| summary := Some "Login button misaligned";
     description := Some "The button overlaps the footer.";
     attachment := None |}.

Definition login_answer : ChatResponse :=
  {| choice_content := Some "- Verify the position of the login button";
     usage := Some {| prompt_tokens := Some 1200; completion_tokens := Some 800;
                      total_tokens := Some 2000 |} |}.

Definition login_env : Env :=
  {| new_generation_id := "g1";
     new_project_id := "p1";
     jira_service := inr (fun _ => IssueFound login_issue);
     OPENAI_API_KEY := Some "sk-test";
     OPENAI_MODEL := None;
     chat_completion := fun _ _ => Resolved login_answer |}.

Definition created_world : World :=
  after_testcases login_env "qa@example.com" (Some "KAN-10") (empty_world 1000).

(* The message an attempt throws for an answer of the client; [None] when
   the attempt succeeds. *)
Definition failure_of (answer : Settled ChatResponse) : option string :=
  match answer with
  | Rejected message => Some message
  | Resolved response =>
      match choice_content response with
      | Some text =>
          if JS.falsy text then Some "Empty response from OpenAI" else None
      | None => Some "Empty response from OpenAI"
      end
  end.

(* The client's answers to the calls number n0, n0 + 1, ... make the
   attempts fail with the messages [msgs], in this order. *)
Definition fails_from (env : Env) (request : ChatRequest) (n0 : nat)
    (msgs : list string) : Prop :=
  ∀ i message, msgs !! i = Some message →
    failure_of (chat_completion env (n0 + i)%nat request) = Some message.

(* The events of a number of attempts in a row that starts at
   [retryCount]: a call, then a wait and a call for each further one. *)
Fixpoint schedule (request : ChatRequest) (retryCount : Z) (attempts : nat)
  : list Event :=
  match attempts with
  | O => []
  | S more =>
      ChatCompletion request ::
      match more with
      | O => []
      | S _ => Sleep (2 ^ (retryCount + 1) * 1000)
               :: schedule request (retryCount + 1) more
      end
  end.

(* The service the constructor builds when only the API key is set. *)
Definition default_service : OpenAIService :=
  {| service_model := "gpt-4o-mini"; maxCompletionTokens := 8000; maxRetries := 3 |}.

(* A model client that is rate-limited throughout, and one that recovers
   at the third call. *)
Definition limited_env : Env :=
  {| new_generation_id := "g1";
     new_project_id := "p1";
     jira_service := inr (fun _ => IssueFound login_issue);
     OPENAI_API_KEY := Some "sk-test";
     OPENAI_MODEL := None;
     chat_completion := fun _ _ => Rejected "429 Too Many Requests" |}.

Definition recovering_env : Env :=
  {| new_generation_id := "g1";
     new_project_id := "p1";
     jira_service := inr (fun _ => IssueFound login_issue);
     OPENAI_API_KEY := Some "sk-test";
     OPENAI_MODEL := None;
     chat_completion := fun n _ =>
       if (n <? 2)%nat then Rejected "503 Service Unavailable"
       else Resolved login_answer |}.

Definition login_request : ChatRequest :=
  chat_request default_service (issue_context login_issue) "KAN-10" None.

(* A JIRA client that is refused, and one that cannot connect. *)
Definition refused_env : Env :=
  {| new_generation_id := "g3";
     new_project_id := "p1";
     jira_service := inr (fun _ => IssueFailed "JIRA authentication failed");
     OPENAI_API_KEY := Some "sk-test";
     OPENAI_MODEL := None;
     chat_completion := fun _ _ => Rejected "unreachable" |}.

Definition offline_env : Env :=
  {| new_generation_id := "g4";
     new_project_id := "p1";
     jira_service := inr (fun _ => IssueFailed "connect ECONNREFUSED");
     OPENAI_API_KEY := Some "sk-test";
     OPENAI_MODEL := None;
     chat_completion := fun _ _ => Rejected "unreachable" |}.

(* An issue with a screenshot attached. *)
Definition screenshot_issue : IssueFields :=
  {| summary := Some "Login button misaligned";
     description := Some "See the screenshot.";
     attachment := Some [ {| mimeType := Some "image/png" |} ] |}.

Definition screenshot_env : Env :=
  {| new_generation_id := "g5";
     new_project_id := "p1";
     jira_service := inr (fun _ => IssueFound screenshot_issue);
     OPENAI_API_KEY := Some "sk-test";
     OPENAI_MODEL := None;
     chat_completion := fun _ _ => Rejected "unreachable" |}.

(* A colleague's published generation, more recent than g2. *)
Definition shared_generation : Generation.t :=
  Generation.set_publishedBy (Some "lead@example.com")
    (Generation.set_publishedAt (Some 6000)
       (Generation.set_published true
          {| Generation.issueKey := "KAN-11";
             Generation.email := "lead@example.com";
             Generation.project := None;
             Generation.mode := Some manual;
             Generation.status := Some completed;
             Generation.createdAt := 5000;
             Generation.updatedAt := 6000;
             Generation.startedAt := Some 5000;
             Generation.completedAt := Some 5500;
             Generation.generationTimeSeconds := Some (1 # 2)%Q;
             Generation.cost := Some 0%Q;
             Generation.tokenUsage := None;
             Generation.result_markdown :=
               Some {| Markdown.content := Some "# Test Cases for KAN-11";
                       Markdown.filename := Some "KAN-11_testcases_g6.md" |};
             Generation.error := None;
             Generation.published := false;
             Generation.publishedAt := None;
             Generation.publishedBy := None;
             Generation.version := [];
             Generation.currentVersion := 1 |})).

Definition team_world : World :=
  {| generations := {[ "g2" := failed_generation; "g6" := shared_generation;
                       "g1" := login_generation ]};
     projects := ∅; now := 7000; trace := [] |}.

(* ===================================================================== *)
(* Further vocabulary: what the routes store, and what holds of it       *)
(* ===================================================================== *)

(* What the content route stores for a generation (lines 365-397). *)
Definition edited (email content : string) (t : Z) (g : Generation.t)
  : Generation.t :=
  Generation.set_updatedAt t (write_content content (track_version email content t g)).

(* What the publish route stores for a generation (lines 429-440). *)
Definition republished (email : string) (published : bool) (t : Z)
    (g : Generation.t) : Generation.t :=
  Generation.set_updatedAt t
    (Generation.set_publishedBy (stamp_by published email)
       (Generation.set_publishedAt (stamp_at published t)
          (Generation.set_published published g))).

(* A stored generation after a request that changed it: an edit or a
   publication at time [t], in the name of its own email, while it was
   completed. *)
Inductive touched (t : Z) (g : Generation.t) : Generation.t → Prop :=
| touched_edit content :
    Generation.status g = Some completed →
    touched t g (edited (Generation.email g) content t g)
| touched_publish published :
    Generation.status g = Some completed →
    touched t g (republished (Generation.email g) published t g).

(* The fields the testcases route gives a generation and never changes
   afterwards in the same request. *)
Definition opened_by (email issueKey : string) (g : Generation.t) : Prop :=
  Generation.email g = email
  ∧ Generation.issueKey g = issueKey
  ∧ Generation.currentVersion g = 1
  ∧ Generation.version g = []
  ∧ Generation.published g = false
  ∧ Generation.publishedAt g = None
  ∧ Generation.publishedBy g = None.

(* version[] holds the versions 1 .. currentVersion - 1, in this order,
   each written in the name of the owner. *)
Definition history_ok (g : Generation.t) : Prop :=
  1 ≤ Generation.currentVersion g
  ∧ version_numbers g = seqZ 1 (Generation.currentVersion g - 1)
  ∧ Forall (fun v => Version.updatedBy v = Generation.email g) (Generation.version g).

(* The three publication fields agree, and only a completed generation is
   published, in the name of its owner. *)
Definition publication_ok (g : Generation.t) : Prop :=
  (Generation.published g = true ↔
     is_Some (Generation.publishedAt g) ∧ is_Some (Generation.publishedBy g))
  ∧ (Generation.published g = false ↔
       Generation.publishedAt g = None ∧ Generation.publishedBy g = None)
  ∧ (Generation.published g = true →
       Generation.status g = Some completed
       ∧ Generation.publishedBy g = Some (Generation.email g)).

(* The world of the spec's scenario after the owner's first edit, and
   after the owner has published the generation. *)
Definition edited_world : World :=
  (put_content "g1" "qa@example.com" (Some "# Login") created_world).2.


(* The time spent in the waits of a list of events, and the numbers of
   calls to the model and to JIRA among them. *)
Definition slept (evs : list Event) : Z :=
  foldr (fun e total => match e with Sleep ms => ms + total | _ => total end) 0 evs.

Definition model_calls (evs : list Event) : nat :=
  length (List.filter is_call evs).

Definition is_fetch (e : Event) : bool :=
  match e with JiraGetIssue _ => true | _ => false end.

Definition jira_calls (evs : list Event) : nat :=
  length (List.filter is_fetch evs).

(* Every character of a string passes a test. *)
Fixpoint string_forall (test : ascii → bool) (s : string) : bool :=
  match s with
  | EmptyString => true
  | String c rest => test c && string_forall test rest
  end.

(* A digit or an upper-case letter. *)
Definition is_upper_alnum (c : ascii) : bool :=
  let n := nat_of_ascii c in
  ((48 <=? n) && (n <=? 57) || (65 <=? n) && (n <=? 90))%nat.

(* Each project is stored under its own key. *)
Definition projects_keyed (w : World) : Prop :=
  ∀ key p, projects w !! key = Some p → Project.projectKey p = key.

(* The project collection is sound: each project is stored under its key,
   a non-empty string of digits and upper-case letters, and counts at
   least one generation; and the project of every stored generation is
   the id of a stored project. *)
Definition projects_ok (w : World) : Prop :=
  projects_keyed w
  ∧ (∀ key p, projects w !! key = Some p →
       key ≠ "" ∧ string_forall is_upper_alnum key = true
       ∧ 1 ≤ Project.totalGenerations p)
  ∧ (∀ id g pid, findById id w = Some g → Generation.project g = Some pid →
       ∃ key p, projects w !! key = Some p ∧ Project._id p = pid).

(* --------------------------------------------------------------------- *)
(* middleware/auth.js                                                    *)
(* --------------------------------------------------------------------- *)

(* String.prototype.slice(n) for n within the string or beyond it. *)
Fixpoint slice (s : string) (n : nat) : string :=
  match n, s with
  | O, _ => s
  | S n, String _ rest => slice rest n
  | S _, EmptyString => EmptyString
  end.

(* What the code writes into a token and reads from it. [token_type] is
   the field type of a refresh token. *)
Record TokenPayload := {
  sub : option string;
  payload_email : option string;
  payload_name : option string;
  token_type : option string
}.

(* req.user *)
Record RequestUser := {
  userId : option string;
  user_email : option string;
  user_name : option string
}.

(* What issueAccessToken and issueRefreshToken read of a user document. *)
Record UserDocument := {
  user_id : string;
  document_email : string;
  document_name : option string
}.

(* jwtConfig of config/index.js *)
Record JwtConfig := {
  accessTokenTtlSec : Z;
  refreshTokenTtlSec : Z;
  secret : string
}.

(* What requireAuth does: it calls next() with req.user set, or it
   answers res.status(code).json({ success: false, error }). *)
Inductive AuthResult :=
| Passed (user : RequestUser)
| Refused (code : Z) (error : string).

Section Jwt.

(* jsonwebtoken: sign(payload, secret, { expiresIn }), and
   verify(token, secret) at the time of the request, [None] when it
   throws. *)
Variable jwt_sign : TokenPayload → string → Z → string.
Variable jwt_verify : string → string → option TokenPayload.

Definition issueAccessToken (jwtConfig : JwtConfig) (user : UserDocument) : string :=
  jwt_sign {| sub := Some (user_id user);
              payload_email := Some (document_email user);
              payload_name := document_name user;
              token_type := None |}
           (secret jwtConfig) (accessTokenTtlSec jwtConfig).

Definition issueRefreshToken (jwtConfig : JwtConfig) (user : UserDocument) : string :=
  jwt_sign {| sub := Some (user_id user);
              payload_email := None;
              payload_name := None;
              token_type := Some "refresh" |}
           (secret jwtConfig) (refreshTokenTtlSec jwtConfig).

(* requireAuth(req, res, next); [authorization] is
   req.headers.authorization. *)
Definition requireAuth (jwtConfig : JwtConfig) (authorization : option string)
  : AuthResult :=
  let header := JS.or_string authorization "" in
  let token :=
    if JS.startsWith header "Bearer " then Some (slice header 7) else None in
  match token with
  | None => Refused 401 "Missing token"
  | Some token =>
      if JS.falsy token then Refused 401 "Missing token"
      else
        match jwt_verify token (secret jwtConfig) with
        | Some payload =>
            Passed {| userId := sub payload;
                      user_email := payload_email payload;
                      user_name := payload_name payload |}
        | None => Refused 401 "invalid token"
        end
  end.

End Jwt.

(* jwt.verify accepts what jwt.sign made of [payload], and gives the
   payload back; the token is not the empty text. *)
Definition verifies (jwt_sign : TokenPayload → string → Z → string)
    (jwt_verify : string → string → option TokenPayload)
    (jwtConfig : JwtConfig) (payload : TokenPayload) (ttl : Z) : Prop :=
  jwt_sign payload (secret jwtConfig) ttl ≠ ""
  ∧ jwt_verify (jwt_sign payload (secret jwtConfig) ttl) (secret jwtConfig)
    = Some payload.

(* A toy signer for examples: the two tokens of one user are the texts
   "access" and "refresh". *)
Definition toy_sign (payload : TokenPayload) (secret : string) (ttl : Z) : string :=
  match token_type payload with Some _ => "refresh" | None => "access" end.

Definition toy_verify (user : UserDocument) (token secret : string)
  : option TokenPayload :=
  if String.eqb token "access"
  then Some {| sub := Some (user_id user);
               payload_email := Some (document_email user);
               payload_name := document_name user;
               token_type := None |}
  else if String.eqb token "refresh"
  then Some {| sub := Some (user_id user);
               payload_email := None;
               payload_name := None;
               token_type := Some "refresh" |}
  else None.

Definition qa_user : UserDocument :=
  {| user_id := "u1"; document_email := "qa@example.com"; document_name := Some "QA" |}.

Definition toy_config : JwtConfig :=
  {| accessTokenTtlSec := 3600; refreshTokenTtlSec := 1209600; secret := "s3cret" |}.

(* ===================================================================== *)
(* Properties                                                            *)
(* ===================================================================== *)

(* --------------------------------------------------------------------- *)
(* The primitives, on examples                                           *)
(* --------------------------------------------------------------------- *)

Example parseInt_12abc : JS.parseInt "12abc" = JS.Int 12.
Proof. reflexivity. Qed.

Example parseInt_neg : JS.parseInt "  -7" = JS.Int (-7).
Proof. reflexivity. Qed.

Example parseInt_abc : JS.parseInt "abc" = JS.NaN.
Proof. reflexivity. Qed.

Example includes_mid : JS.includes "Issue not found in JIRA" "not found" = true.
Proof. reflexivity. Qed.

Example extractProject_SDET : extractProject "SDET-123" = Some "SDET".
Proof. reflexivity. Qed.

Example extractProject_lower : extractProject "sdet-45" = Some "SDET".
Proof. reflexivity. Qed.

Example extractProject_empty : extractProject "" = None.
Proof. reflexivity. Qed.

(* --------------------------------------------------------------------- *)
(* The store                                                             *)
(* --------------------------------------------------------------------- *)

Lemma findById_save id g w :
  findById id (save id g w) = Some (Generation.set_updatedAt (now w) g).
Proof. unfold findById, save. simpl. apply lookup_insert_eq. Qed.

Lemma findById_save_ne id id' g w :
  id ≠ id' → findById id' (save id g w) = findById id' w.
Proof. intros Hne. unfold findById, save. simpl. by apply lookup_insert_ne. Qed.

Lemma eqb_string_refl (s : string) : String.eqb s s = true.
Proof. apply String.eqb_refl. Qed.

Lemma status_is_true s g : Generation.status g = Some s → status_is s g = true.
Proof. intros H. unfold status_is. by apply bool_decide_eq_true. Qed.

Lemma falsy_spec s : JS.falsy s = true ↔ s = "".
Proof. unfold JS.falsy. apply String.eqb_eq. Qed.

Lemma falsy_false s : JS.falsy s = false ↔ s ≠ "".
Proof. unfold JS.falsy. apply String.eqb_neq. Qed.

(* --------------------------------------------------------------------- *)
(* The version store: PUT /:id/content                                   *)
(* --------------------------------------------------------------------- *)

Lemma track_version_changed email content t gen :
  stored_content gen ≠ "" → stored_content gen ≠ content →
  track_version email content t gen =
  Generation.set_currentVersion (JS.or_number (Generation.currentVersion gen) 1 + 1)
    (if versionExists gen then gen
     else Generation.set_version (Generation.version gen ++ [snapshot gen email t]) gen).
Proof.
  intros Hne Hdiff. unfold track_version. fold (stored_content gen).
  apply falsy_false in Hne. apply String.eqb_neq in Hdiff.
  rewrite Hne, Hdiff. reflexivity.
Qed.

Lemma track_version_same email content t gen :
  stored_content gen = "" ∨ stored_content gen = content →
  track_version email content t gen = gen.
Proof.
  intros H. unfold track_version. fold (stored_content gen).
  destruct H as [H | H].
  - apply falsy_spec in H. rewrite H. reflexivity.
  - apply String.eqb_eq in H. rewrite H, andb_false_r. reflexivity.
Qed.

Lemma write_content_content content gen :
  markdown_content (write_content content gen) = Some content.
Proof. reflexivity. Qed.

(* What the route answers and stores for an owner's completed generation. *)
Lemma put_content_owner id email content w gen :
  findById id w = Some gen →
  Generation.email gen = email →
  Generation.status gen = Some completed →
  let gen' := write_content content (track_version email content (now w) gen) in
  put_content id email (Some content) w =
  (Json 200 (ContentBody content (JS.or_number (Generation.currentVersion gen') 1)),
   save id gen' w).
Proof.
  intros Hfind Hmail Hstatus. unfold put_content.
  rewrite Hfind, Hmail, eqb_string_refl, (status_is_true _ _ Hstatus). reflexivity.
Qed.

(* The owner empties the content of g1: the first snapshot is taken. *)
Example emptied_world_by_edit :
  (put_content "g1" "qa@example.com" (Some "") login_world).2 = emptied_world.
Proof. vm_compute. reflexivity. Qed.




Lemma versionExists_fresh gen k :
  Generation.currentVersion gen = k → 1 ≤ k →
  version_numbers gen = seqZ 1 (k - 1) →
  versionExists gen = false.
Proof.
  intros Hcv Hk Hnums. unfold versionExists.
  apply not_true_is_false. intros Hex.
  apply existsb_exists in Hex as (v & Hin & Heq).
  apply Z.eqb_eq in Heq.
  assert (Hmem : Version.version v ∈ version_numbers gen).
  { unfold version_numbers. apply list_elem_of_fmap. exists v. split; [done|].
    by apply list_elem_of_In. }
  rewrite Hnums in Hmem. apply elem_of_seqZ in Hmem.
  unfold JS.or_number in Heq. rewrite Hcv in Heq.
  destruct (Z.eqb_spec k 0); lia.
Qed.

(* One edit that changes a non-empty content, on a generation whose
   history holds the versions 1..k-1 and whose current version is k. *)
Lemma put_content_next id email content w gen k :
  findById id w = Some gen →
  Generation.email gen = email →
  Generation.status gen = Some completed →
  Generation.currentVersion gen = k → 1 ≤ k →
  version_numbers gen = seqZ 1 (k - 1) →
  stored_content gen ≠ "" → stored_content gen ≠ content →
  ∃ gen',
    findById id (put_content id email (Some content) w).2 = Some gen'
    ∧ Generation.email gen' = email
    ∧ Generation.status gen' = Some completed
    ∧ Generation.currentVersion gen' = k + 1
    ∧ version_numbers gen' = seqZ 1 k
    ∧ stored_content gen' = content.
Proof.
  intros Hfind Hmail Hstatus Hcv Hk Hnums Hne Hdiff.
  rewrite (put_content_owner _ _ content _ _ Hfind Hmail Hstatus). simpl.
  rewrite (track_version_changed _ _ _ _ Hne Hdiff).
  rewrite (versionExists_fresh gen k Hcv Hk Hnums).
  eexists. split; [apply findById_save|]. simpl.
  assert (Hnum : JS.or_number (Generation.currentVersion gen) 1 = k).
  { unfold JS.or_number. rewrite Hcv. destruct (Z.eqb_spec k 0); [lia | done]. }
  split; [done|]. split; [done|]. split; [by rewrite Hnum|]. split.
  - unfold version_numbers in *. simpl. rewrite fmap_app, Hnums. simpl. rewrite Hnum.
    replace k with (Z.of_nat (S (Z.to_nat (k - 1)))) at 3 by lia.
    rewrite seqZ_S. do 2 f_equal; lia.
  - unfold stored_content, markdown_content. simpl. unfold JS.or_string.
    destruct (String.eqb_spec content ""); [by subst | done].
Qed.

Lemma put_contents_run id email contents : ∀ w gen k,
  findById id w = Some gen →
  Generation.email gen = email →
  Generation.status gen = Some completed →
  Generation.currentVersion gen = k → 1 ≤ k →
  version_numbers gen = seqZ 1 (k - 1) →
  each_changes (stored_content gen) contents →
  ∃ gen',
    findById id (put_contents id email contents w) = Some gen'
    ∧ Generation.currentVersion gen' = k + Z.of_nat (length contents)
    ∧ version_numbers gen' = seqZ 1 (k - 1 + Z.of_nat (length contents)).
Proof.
  induction contents as [|content rest IH]; intros w gen k Hfind Hmail Hstatus Hcv Hk Hnums Hch.
  - exists gen. simpl. split; [done|]. split; [lia|]. by rewrite Z.add_0_r.
  - destruct Hch as (Hne & Hdiff & Hrest).
    destruct (put_content_next id email content w gen k) as (gen1 & Hf1 & Hm1 & Hs1 & Hc1 & Hn1 & Hst1);
      try done.
    destruct (IH (put_content id email (Some content) w).2 gen1 (k + 1)) as (gen' & Hf' & Hc' & Hn');
      try done; try lia.
    + by replace (k + 1 - 1) with k by lia.
    + by rewrite Hst1.
    + exists gen'. simpl length. split; [done|]. split; [lia|].
      rewrite Hn'. f_equal. lia.
Qed.

(* --------------------------------------------------------------------- *)
(* What the testcases route does to the world                            *)
(* --------------------------------------------------------------------- *)

Lemma extends_refl w : extends w [] w.
Proof. unfold extends. by rewrite app_nil_r. Qed.

Lemma extends_trans w1 evs1 w2 evs2 w3 :
  extends w1 evs1 w2 → extends w2 evs2 w3 → extends w1 (evs1 ++ evs2) w3.
Proof.
  intros (Hg1 & Hp1 & Ht1) (Hg2 & Hp2 & Ht2). unfold extends.
  rewrite Hg2, Hp2, Ht2, Ht1, app_assoc. done.
Qed.

Lemma extends_emit e w : extends w [e] (emit e w).
Proof. done. Qed.

Lemma extends_sleep ms w : extends w [Sleep ms] (sleep ms w).
Proof. done. Qed.

Lemma attempt_extends env request w :
  extends w [ChatCompletion request] (attempt env request w).2.
Proof.
  unfold attempt.
  destruct (chat_completion env (calls w) request) as [response|message]; [|done].
  destruct (choice_content response) as [text|]; [|done].
  destruct (JS.falsy text); done.
Qed.

Lemma retry_loop_extends this env request fuel : ∀ retryCount w result w',
  retry_loop fuel this env request retryCount w = Some (result, w') →
  ∃ evs, extends w evs w' ∧ Forall (loop_event request) evs.
Proof.
  induction fuel as [|fuel IH]; intros retryCount w result w' Hrun; [done|].
  simpl in Hrun.
  destruct (retryCount <=? maxRetries this); [|].
  - pose proof (attempt_extends env request w) as Hatt.
    destruct (attempt env request w) as [[ok|message] w1]; simpl in Hatt.
    + injection Hrun as <- <-. exists [ChatCompletion request].
      split; [done|]. repeat constructor.
    + destruct (retryCount + 1 <=? maxRetries this).
      * apply IH in Hrun as (evs & Hext & Hall).
        exists ([ChatCompletion request] ++ [Sleep (2 ^ (retryCount + 1) * 1000)] ++ evs)%list.
        split.
        -- eapply extends_trans; [exact Hatt|].
           eapply extends_trans; [apply extends_sleep | exact Hext].
        -- constructor; [by left|]. constructor; [right; by eexists | done].
      * injection Hrun as <- <-. exists [ChatCompletion request].
        split; [done|]. repeat constructor.
  - injection Hrun as <- <-. exists []. split; [apply extends_refl | constructor].
Qed.

Lemma chat_request_manual this context issueKey :
  manual_request (chat_request this context issueKey None).
Proof. unfold manual_request, chat_request. simpl. by eexists. Qed.

Lemma loop_event_manual request e :
  manual_request request → loop_event request e → manual_event e.
Proof. intros Hm [-> | [ms ->]]; done. Qed.

Lemma or_string_nonempty x d : d ≠ "" → JS.or_string x d ≠ "".
Proof.
  intros Hd. unfold JS.or_string. destruct x as [s|]; [|done].
  destruct (String.eqb_spec s ""); done.
Qed.

Lemma save_generations id g w :
  generations (save id g w) = <[id := Generation.set_updatedAt (now w) g]> (generations w).
Proof. done. Qed.

Lemma generation_failed_effect id g message w reply w' :
  Generation.result_markdown g = None → Generation.mode g = Some manual →
  generation_failed id g message w = (reply, w') →
  ∃ g', generations w' = <[id := g']> (generations w)
        ∧ created g' ∧ trace w' = trace w.
Proof.
  intros Hmd Hmode Hrun. unfold generation_failed in Hrun. injection Hrun as <- <-.
  eexists. split; [apply save_generations|].
  split; [|done]. split; [|done]. unfold settled. simpl.
  split; [|done]. eexists. split; [done|]. done.
Qed.

Lemma fetch_failed_effect id g error w reply w' :
  Generation.result_markdown g = None → Generation.mode g = Some manual →
  fetch_failed id g error w = (reply, w') →
  ∃ g', generations w' = <[id := g']> (generations w)
        ∧ created g' ∧ trace w' = trace w.
Proof.
  intros Hmd Hmode Hrun. unfold fetch_failed in Hrun. injection Hrun as <- <-.
  eexists. split; [apply save_generations|].
  split; [|done]. split; [|done]. unfold settled. simpl.
  split; [|done]. eexists. split; [done|].
  by apply (or_string_nonempty (Some error) "Failed to fetch JIRA issue").
Qed.

Lemma generation_completed_effect id issueKey g text usage cost start w reply w' :
  Generation.error g = None → Generation.mode g = Some manual →
  generation_completed id issueKey g text usage cost start w = (reply, w') →
  ∃ g', generations w' = <[id := g']> (generations w)
        ∧ created g' ∧ trace w' = trace w.
Proof.
  intros Herr Hmode Hrun. unfold generation_completed in Hrun. injection Hrun as <- <-.
  eexists. split; [apply save_generations|].
  split; [|done]. split; [|done]. unfold settled. simpl. split; [done|]. by eexists.
Qed.

Lemma generate_effect env id issueKey g summary context start w reply w' :
  Generation.error g = None → Generation.result_markdown g = None →
  Generation.mode g = Some manual →
  generate env id issueKey g summary context start w = Some (reply, w') →
  ∃ g' evs, generations w' = <[id := g']> (generations w)
            ∧ created g'
            ∧ trace w' = (trace w ++ evs)%list
            ∧ Forall manual_event evs.
Proof.
  intros Herr Hmd Hmode Hrun. unfold generate in Hrun.
  destruct (getOpenAIService env) as [message|openai].
  - apply (inj Some) in Hrun.
    apply generation_failed_effect in Hrun as (g' & Hg & Hc & Ht); [|done..].
    exists g', []. rewrite app_nil_r. done.
  - unfold generateTestCase in Hrun.
    destruct (retry_loop _ openai env _ 0 w) as [[result w1]|] eqn:Hloop; [|done].
    simpl in Hrun.
    apply retry_loop_extends in Hloop as (evs & (Hg1 & _ & Ht1) & Hall).
    assert (Hman : Forall manual_event evs).
    { eapply Forall_impl; [exact Hall|]. intros e He.
      eapply loop_event_manual; [apply chat_request_manual | exact He]. }
    destruct result as [[result|]|message]; apply (inj Some) in Hrun.
    + apply generation_completed_effect in Hrun as (g' & Hg & Hc & Ht); [|done..].
      exists g', evs. rewrite Hg, Ht, Hg1, Ht1. done.
    + apply generation_failed_effect in Hrun as (g' & Hg & Hc & Ht); [|done..].
      exists g', evs. rewrite Hg, Ht, Hg1, Ht1. done.
    + apply generation_failed_effect in Hrun as (g' & Hg & Hc & Ht); [|done..].
      exists g', evs. rewrite Hg, Ht, Hg1, Ht1. done.
Qed.

Lemma open_generation_effect env issueKey email w :
  let '(g, w') := open_generation env issueKey email w in
  generations w' = <[new_generation_id env := Generation.set_updatedAt (now w') g]> (generations w)
  ∧ trace w' = trace w
  ∧ now w' = now w
  ∧ Generation.error g = None
  ∧ Generation.result_markdown g = None
  ∧ Generation.status g = None
  ∧ Generation.mode g = Some manual.
Proof.
  unfold open_generation, associate_project.
  destruct (extractProject issueKey) as [projectKey|]; simpl.
  - destruct (_ !! _); simpl; by repeat split.
  - by repeat split.
Qed.

(* The testcases route leaves the generations alone (when it refuses the
   request) or stores one generation under the new id; the events it adds
   to the trace carry the manual prompt. *)
Lemma post_testcases_effect env email issueKey w reply w' :
  post_testcases env email issueKey w = Some (reply, w') →
  (generations w' = generations w
   ∨ ∃ g, generations w' = <[new_generation_id env := g]> (generations w) ∧ created g)
  ∧ ∃ evs, trace w' = (trace w ++ evs)%list ∧ Forall manual_event evs.
Proof.
  unfold post_testcases. intros Hrun.
  destruct (JS.falsy (JS.or_string issueKey "")).
  { injection Hrun as <- <-. split; [by left|]. exists []. by rewrite app_nil_r. }
  pose proof (open_generation_effect env (JS.or_string issueKey "") email w) as Hopen.
  destruct (open_generation env (JS.or_string issueKey "") email w) as [g0 w1].
  destruct Hopen as (Hg1 & Ht1 & _ & Herr & Hmd & Hst & Hmode).
  destruct (getJiraService env) as [message|getIssue].
  { injection Hrun as <- <-. split.
    - right. eexists. split; [exact Hg1|]. split; [|done].
      unfold settled. simpl. by rewrite Hst. 
    - exists []. by rewrite app_nil_r. }
  destruct (getIssue (JS.or_string issueKey "")) as [fields|error].
  - apply generate_effect in Hrun as (g' & evs & Hg & Hc & Ht & Hall); [|done..].
    split.
    + right. exists g'. split; [|done]. rewrite Hg. simpl. rewrite Hg1.
      apply insert_insert_eq.
    + exists (JiraGetIssue (JS.or_string issueKey "") :: evs). split.
      * rewrite Ht. simpl. rewrite Ht1, <- app_assoc. done.
      * constructor; done.
  - apply (inj Some) in Hrun.
    apply fetch_failed_effect in Hrun as (g' & Hg & Hc & Ht); [|done..].
    split.
    + right. exists g'. split; [|done]. rewrite Hg. simpl. rewrite Hg1.
      apply insert_insert_eq.
    + exists [JiraGetIssue (JS.or_string issueKey "")]. split; [|repeat constructor].
      rewrite Ht. simpl. by rewrite Ht1.
Qed.

(* --------------------------------------------------------------------- *)
(* The service as a transition system                                    *)
(* --------------------------------------------------------------------- *)

Lemma track_version_keeps email content t g :
  let g' := track_version email content t g in
  Generation.status g' = Generation.status g
  ∧ Generation.error g' = Generation.error g
  ∧ Generation.mode g' = Generation.mode g
  ∧ Generation.result_markdown g' = Generation.result_markdown g
  ∧ Generation.currentVersion g ≤ Generation.currentVersion g'.
Proof.
  unfold track_version.
  destruct (negb _ && negb _); [|by repeat split].
  assert (Hle : Generation.currentVersion g
                ≤ JS.or_number (Generation.currentVersion g) 1 + 1).
  { unfold JS.or_number. destruct (Z.eqb_spec (Generation.currentVersion g) 0); lia. }
  destruct (existsb _ _); simpl; by repeat split.
Qed.

Lemma put_content_effect id email content w :
  trace (put_content id email content w).2 = trace w
  ∧ (generations (put_content id email content w).2 = generations w
     ∨ ∃ g g', generations w !! id = Some g
               ∧ generations (put_content id email content w).2
                 = <[id := g']> (generations w)
               ∧ updated g g').
Proof.
  unfold put_content. destruct content as [content|]; [|by split; [|left]].
  unfold findById. destruct (generations w !! id) as [g|] eqn:Hg; [|by split; [|left]].
  destruct (negb (String.eqb (Generation.email g) email)); [by split; [|left]|].
  destruct (status_is completed g) eqn:Hst; [|by split; [|left]].
  simpl. split; [done|]. right. eexists _, _. split; [done|].
  split; [apply save_generations|].
  apply bool_decide_eq_true in Hst.
  destruct (track_version_keeps email content (now w) g) as (Hs & He & Hm & _ & Hc).
  unfold updated. simpl. by repeat split.
Qed.

Lemma put_publish_effect id email published w :
  trace (put_publish id email published w).2 = trace w
  ∧ (generations (put_publish id email published w).2 = generations w
     ∨ ∃ g g', generations w !! id = Some g
               ∧ generations (put_publish id email published w).2
                 = <[id := g']> (generations w)
               ∧ Generation.result_markdown g' = Generation.result_markdown g
               ∧ Generation.status g = Some completed
               ∧ Generation.status g' = Generation.status g
               ∧ Generation.error g' = Generation.error g
               ∧ Generation.mode g' = Generation.mode g
               ∧ Generation.currentVersion g' = Generation.currentVersion g).
Proof.
  unfold put_publish. destruct published as [published|]; [|by split; [|left]].
  unfold findById. destruct (generations w !! id) as [g|] eqn:Hg; [|by split; [|left]].
  destruct (negb (String.eqb (Generation.email g) email)); [by split; [|left]|].
  destruct (status_is completed g) eqn:Hst; [|by split; [|left]].
  simpl. split; [done|]. right. eexists _, _. split; [done|].
  split; [apply save_generations|].
  apply bool_decide_eq_true in Hst.
  destruct published; simpl; by repeat split.
Qed.

Lemma delete_generation_effect id email w :
  trace (delete_generation id email w).2 = trace w
  ∧ (generations (delete_generation id email w).2 = generations w
     ∨ generations (delete_generation id email w).2 = delete id (generations w)).
Proof.
  unfold delete_generation. destruct (findById id w) as [g|]; [|by split; [|left]].
  destruct (negb (String.eqb (Generation.email g) email)); [by split; [|left]|].
  split; [done | by right].
Qed.

Lemma post_preflight_effect env issueKey w :
  generations (post_preflight env issueKey w).2 = generations w
  ∧ ∃ evs, trace (post_preflight env issueKey w).2 = (trace w ++ evs)%list
           ∧ Forall manual_event evs.
Proof.
  unfold post_preflight.
  assert (Hsame : ∃ evs, trace w = (trace w ++ evs)%list ∧ Forall manual_event evs).
  { exists []. by rewrite app_nil_r. }
  assert (Hone : ∃ evs, (trace w ++ [JiraGetIssue (JS.or_string issueKey "")])%list
                        = (trace w ++ evs)%list ∧ Forall manual_event evs).
  { eexists. split; [done|]. repeat constructor. }
  destruct (JS.falsy _); [done|].
  destruct (getJiraService env) as [message|getIssue]; [done|].
  destruct (getIssue _) as [fields|error]; [|done].
  destruct (filter_throwing _ _); done.
Qed.

Lemma step_change w w' :
  step w w' →
  change (generations w) (generations w')
  ∧ ∃ evs, trace w' = (trace w ++ evs)%list ∧ Forall manual_event evs.
Proof.
  assert (Hsame : ∀ w, ∃ evs, trace w = (trace w ++ evs)%list ∧ Forall manual_event evs).
  { intros w0. exists []. by rewrite app_nil_r. }
  destruct 1 as [env email issueKey w reply w' Hfresh Hrun | env issueKey w
                | id email content w | id email published w | id email w | dt w Hdt].
  - apply post_testcases_effect in Hrun as ([Hg | (g & Hg & Hc)] & Ht).
    + split; [by apply change_none | done].
    + split; [by eapply change_create | done].
  - destruct (post_preflight_effect env issueKey w) as (Hg & Ht).
    split; [by apply change_none | done].
  - destruct (put_content_effect id email content w) as (Ht & [Hg | (g & g' & Hl & Hg & Hu)]).
    + split; [by apply change_none | rewrite Ht; apply Hsame].
    + split; [by eapply change_update | rewrite Ht; apply Hsame].
  - destruct (put_publish_effect id email published w)
      as (Ht & [Hg | (g & g' & Hl & Hg & Hmd & Hst & Hs & He & Hm & Hc)]).
    + split; [by apply change_none | rewrite Ht; apply Hsame].
    + split; [|rewrite Ht; apply Hsame].
      eapply change_update; [done..|]. unfold updated.
      rewrite Hmd, Hs, He, Hm, Hc. by repeat split.
  - destruct (delete_generation_effect id email w) as (Ht & [Hg | Hg]).
    + split; [by apply change_none | rewrite Ht; apply Hsame].
    + split; [by eapply change_delete | rewrite Ht; apply Hsame].
  - split; [by apply change_none | apply (Hsame w)].
Qed.

Lemma updated_created g g' : updated g g' → created g → created g'.
Proof.
  intros (Hc & Hs & He & Hm & Hmd & _) [Hset Hmode]. split; [|congruence].
  unfold settled in *. rewrite Hs, Hc, He. rewrite Hc in Hset.
  destruct Hset as [Herr Hsome]. split; [done | by apply Hmd].
Qed.

Lemma change_ok m m' :
  change m m' →
  map_Forall (fun _ g => created g) m → map_Forall (fun _ g => created g) m'.
Proof.
  intros [-> | id g Hfresh -> Hc | id g g' Hl -> Hu | id ->] Hall.
  - done.
  - by apply map_Forall_insert_2.
  - apply map_Forall_insert_2; [|done].
    eapply updated_created; [exact Hu|]. by eapply (Hall id g).
  - by apply map_Forall_delete.
Qed.

Lemma step_ok w w' : step w w' → world_ok w → world_ok w'.
Proof.
  intros Hstep [Hgen Htr]. apply step_change in Hstep as (Hch & evs & Ht & Hevs).
  split; [by eapply change_ok | rewrite Ht; by apply Forall_app].
Qed.

Lemma reachable_ok w : reachable w → world_ok w.
Proof.
  intros [t0 Hrun]. revert w Hrun. apply rtc_ind_r.
  - split; [apply map_Forall_empty | constructor].
  - intros w1 w2 _ Hstep IH. by eapply step_ok.
Qed.

(* currentVersion of a document that a step keeps does not go down. *)
Lemma change_currentVersion m m' id g g' :
  change m m' → m !! id = Some g → m' !! id = Some g' →
  Generation.currentVersion g ≤ Generation.currentVersion g'.
Proof.
  intros [-> | id0 g0 Hfresh -> Hc | id0 g0 g0' Hl -> Hu | id0 ->] Hg Hg'.
  - rewrite Hg in Hg'. injection Hg' as ->. lia.
  - destruct (decide (id0 = id)) as [->|Hne]; [congruence|].
    rewrite lookup_insert_ne in Hg' by done. rewrite Hg in Hg'. injection Hg' as ->. lia.
  - destruct (decide (id0 = id)) as [->|Hne].
    + rewrite lookup_insert_eq in Hg'. injection Hg' as <-.
      rewrite Hl in Hg. injection Hg as <-. apply Hu.
    + rewrite lookup_insert_ne in Hg' by done. rewrite Hg in Hg'. injection Hg' as ->. lia.
  - destruct (decide (id0 = id)) as [->|Hne].
    + by rewrite lookup_delete_eq in Hg'.
    + rewrite lookup_delete_ne in Hg' by done. rewrite Hg in Hg'. injection Hg' as ->. lia.
Qed.

(** C2, as the claim states it, fails: generation g1 starts at
    currentVersion 1 with an empty version[]; the edits "" and "# Login"
    each differ from the content stored before them; after these two edits
    currentVersion is 2, not 3, and version[] has one entry, not two. *)
Lemma put_contents_counterexample :
  findById "g1" login_world = Some login_generation
  ∧ Generation.status login_generation = Some completed
  ∧ Generation.currentVersion login_generation = 1
  ∧ Generation.version login_generation = []
  ∧ each_differs (stored_content login_generation) [""; "# Login"]
  ∧ ∃ gen', findById "g1" (put_contents "g1" "qa@example.com" [""; "# Login"] login_world)
            = Some gen'
      ∧ Generation.currentVersion gen' = 2
      ∧ Generation.currentVersion gen' ≠ 1 + Z.of_nat (length [""; "# Login"])
      ∧ version_numbers gen' = [1]
      ∧ length (Generation.version gen') ≠ length [""; "# Login"].
Proof.
  split; [reflexivity|]. split; [reflexivity|]. split; [reflexivity|].
  split; [reflexivity|]. split; [simpl; repeat split; discriminate|].
  eexists. split; [vm_compute; reflexivity|].
  split; [reflexivity|]. split; [discriminate|]. split; [reflexivity | discriminate].
Qed.

(** C2, amended: for a completed generation at currentVersion 1 with an
    empty version[], after N content edits by the owner in which each
    submitted content differs from the content stored immediately before
    it and that stored content is not empty, currentVersion is 1 + N and
    version[] has exactly N entries, numbered 1..N in this order. And no
    step of the service (create, preflight, edit, publish, delete, the
    passing of time) lowers the currentVersion of a generation it keeps. *)
Theorem version_monotonicity :
  (∀ id email contents w gen,
     findById id w = Some gen →
     Generation.email gen = email →
     Generation.status gen = Some completed →
     Generation.currentVersion gen = 1 →
     Generation.version gen = [] →
     each_changes (stored_content gen) contents →
     ∃ gen',
       findById id (put_contents id email contents w) = Some gen'
       ∧ Generation.currentVersion gen' = 1 + Z.of_nat (length contents)
       ∧ version_numbers gen' = seqZ 1 (Z.of_nat (length contents))
       ∧ length (Generation.version gen') = length contents)
  ∧ (∀ w w' id g g',
       step w w' →
       findById id w = Some g → findById id w' = Some g' →
       Generation.currentVersion g ≤ Generation.currentVersion g').
Proof.
  split.
  - intros id email contents w gen Hfind Hmail Hstatus Hcv Hvs Hch.
    destruct (put_contents_run id email contents w gen 1) as (gen' & Hf & Hc & Hn);
      try done.
    { unfold version_numbers. by rewrite Hvs. }
    exists gen'. split; [done|]. split; [done|].
    replace (1 - 1 + Z.of_nat (length contents)) with (Z.of_nat (length contents)) in Hn by lia.
    split; [done|].
    apply (f_equal length) in Hn. unfold version_numbers in Hn.
    rewrite length_fmap, length_seqZ in Hn. lia.
  - intros w w' id g g' Hstep Hg Hg'.
    apply step_change in Hstep as [Hch _].
    by eapply change_currentVersion.
Qed.

Lemma version_monotonicity_witness :
  (∃ gen',
     findById "g1" (put_contents "g1" "qa@example.com" ["# Login"; "# Logout"] login_world)
       = Some gen'
     ∧ Generation.currentVersion gen' = 1 + Z.of_nat (length ["# Login"; "# Logout"])
     ∧ version_numbers gen' = seqZ 1 (Z.of_nat (length ["# Login"; "# Logout"]))
     ∧ length (Generation.version gen') = length ["# Login"; "# Logout"])
  ∧ (∀ g',
       findById "g1" (put_content "g1" "qa@example.com" (Some "# Login") login_world).2
         = Some g' →
       Generation.currentVersion login_generation ≤ Generation.currentVersion g').
Proof.
  split.
  - apply (proj1 version_monotonicity "g1" "qa@example.com" ["# Login"; "# Logout"]
             login_world login_generation); try reflexivity.
    simpl. repeat split; discriminate.
  - intros g'.
    apply (proj2 version_monotonicity login_world
             (put_content "g1" "qa@example.com" (Some "# Login") login_world).2
             "g1" login_generation g').
    + apply step_content.
    + reflexivity.
Defined.

(* --------------------------------------------------------------------- *)
(* Access control: GET /:id/view and GET /:id/download                   *)
(* --------------------------------------------------------------------- *)



(* --------------------------------------------------------------------- *)
(* The publication gate: PUT /:id/publish                                *)
(* --------------------------------------------------------------------- *)

Lemma put_publish_owner id email published w gen :
  findById id w = Some gen →
  Generation.email gen = email →
  Generation.status gen = Some completed →
  put_publish id email (Some published) w =
  (Json 200 (PublishBody published (stamp_at published (now w))
               (stamp_by published email)),
   save id (Generation.set_publishedBy (stamp_by published email)
              (Generation.set_publishedAt (stamp_at published (now w))
                 (Generation.set_published published gen))) w).
Proof.
  intros Hfind Hmail Hstatus. unfold put_publish.
  rewrite Hfind, Hmail, eqb_string_refl, (status_is_true _ _ Hstatus).
  destruct published; reflexivity.
Qed.



(* --------------------------------------------------------------------- *)
(* Status, error and markdown of the stored generations                  *)
(* --------------------------------------------------------------------- *)

Lemma settled_spec g :
  settled g →
  (Generation.status g = Some failed ↔
     has_error g ∧ Generation.result_markdown g = None)
  ∧ (Generation.status g = Some completed →
       is_Some (Generation.result_markdown g) ∧ Generation.error g = None).
Proof.
  unfold settled, has_error.
  destruct (Generation.status g) as [[|]|]; intros H; split.
  - split; [done|]. intros [_ Hmd]. destruct H as [_ [md Hsome]]. congruence.
  - intros _. by destruct H.
  - done.
  - done.
  - split; [done|]. intros [(m & Hm & _) _]. destruct H. congruence.
  - done.
Qed.

Lemma bad_world_reachable : reachable bad_world.
Proof.
  exists 1000. apply rtc_once.
  apply (step_testcases deaf_env "qa@example.com" (Some "BAD-1") (empty_world 1000)
           (Json 404 (ErrorBody "Issue not found"))).
  - reflexivity.
  - vm_compute. reflexivity.
Qed.

(** C7: in every world the service can reach, every stored generation has
    status failed iff its error is a non-empty string and result.markdown
    is absent, and a completed generation carries result.markdown and no
    error. Reachable worlds are closed under every request (create,
    preflight, edit, publish, delete), so no operation breaks this. *)
Theorem failed_iff_error w id g :
  reachable w →
  findById id w = Some g →
  (Generation.status g = Some failed ↔
     has_error g ∧ Generation.result_markdown g = None)
  ∧ (Generation.status g = Some completed →
       is_Some (Generation.result_markdown g) ∧ Generation.error g = None).
Proof.
  intros Hreach Hfind. apply settled_spec.
  apply reachable_ok in Hreach as [Hall _]. by destruct (Hall id g Hfind).
Qed.

Lemma failed_iff_error_witness :
  ∃ g, findById "g2" bad_world = Some g
       ∧ Generation.status g = Some failed
       ∧ (Generation.status g = Some failed ↔
            has_error g ∧ Generation.result_markdown g = None)
       ∧ (Generation.status g = Some completed →
            is_Some (Generation.result_markdown g) ∧ Generation.error g = None).
Proof.
  eexists. split; [vm_compute; reflexivity|]. split; [reflexivity|].
  eapply (failed_iff_error bad_world "g2").
  - exact bad_world_reachable.
  - vm_compute. reflexivity.
Defined.

(* --------------------------------------------------------------------- *)
(* The mode of the generations the service creates                       *)
(* --------------------------------------------------------------------- *)

Lemma prompts_differ : MANUAL_PROMPT ≠ AUTO_PROMPT.
Proof. intros H. vm_compute in H. discriminate H. Qed.

Lemma created_world_reachable : reachable created_world.
Proof.
  exists 1000. apply rtc_once.
  destruct (post_testcases login_env "qa@example.com" (Some "KAN-10") (empty_world 1000))
    as [[reply w']|] eqn:Hrun.
  - apply (step_testcases login_env "qa@example.com" (Some "KAN-10") (empty_world 1000) reply).
    + reflexivity.
    + unfold created_world, after_testcases. rewrite Hrun. reflexivity.
  - vm_compute in Hrun. discriminate Hrun.
Qed.

(* An owner who empties the content of a generation brings the service
   to a world where a completed generation has an empty content. *)
Example emptied_content_reachable :
  reachable (put_content "g1" "qa@example.com" (Some "") created_world).2
  ∧ (λ g, (Generation.status g, stored_content g, Generation.currentVersion g))
      <$> findById "g1" (put_content "g1" "qa@example.com" (Some "") created_world).2
    = Some (Some completed, "", 2).
Proof.
  split.
  - destruct created_world_reachable as [t0 Hrun]. exists t0.
    eapply rtc_r; [exact Hrun | apply step_content].
  - vm_compute. reflexivity.
Qed.

Example created_world_generation :
  (λ g, (Generation.status g, Generation.mode g, Generation.currentVersion g,
         Generation.version g, markdown_content g))
    <$> findById "g1" created_world
  = Some (Some completed, Some manual, 1, [],
          Some ("# Test Cases for KAN-10: Login button misaligned"
                +:+ JS.nl +:+ JS.nl +:+ "- Verify the position of the login button")).
Proof. vm_compute. reflexivity. Qed.

(** C10: the testcases route calls generateTestCase without the autoMode
    argument, and the request built then has the manual prompt as its
    system message, which is not the auto prompt. So in every world the
    service can reach, every stored generation has mode manual and every
    chat-completion call that was made carried the manual prompt. *)
Theorem mode_always_manual w :
  reachable w →
  (∀ id g, findById id w = Some g → Generation.mode g = Some manual)
  ∧ (∀ request, ChatCompletion request ∈ trace w →
       ∃ text, messages request =
               [ {| role := system; content := MANUAL_PROMPT |};
                 {| role := user; content := text |} ])
  ∧ (∀ this context issueKey,
       messages (chat_request this context issueKey None) !! 0%nat
       = Some {| role := system; content := MANUAL_PROMPT |})
  ∧ MANUAL_PROMPT ≠ AUTO_PROMPT.
Proof.
  intros Hreach. apply reachable_ok in Hreach as [Hgen Htr].
  split; [|split; [|split]].
  - intros id g Hfind. by destruct (Hgen id g Hfind).
  - intros request Hin. rewrite Forall_forall in Htr. exact (Htr _ Hin).
  - done.
  - exact prompts_differ.
Qed.

Lemma mode_always_manual_witness :
  (∀ id g, findById id created_world = Some g → Generation.mode g = Some manual)
  ∧ (∀ request, ChatCompletion request ∈ trace created_world →
       ∃ text, messages request =
               [ {| role := system; content := MANUAL_PROMPT |};
                 {| role := user; content := text |} ])
  ∧ (∀ this context issueKey,
       messages (chat_request this context issueKey None) !! 0%nat
       = Some {| role := system; content := MANUAL_PROMPT |})
  ∧ MANUAL_PROMPT ≠ AUTO_PROMPT.
Proof. apply (mode_always_manual created_world). exact created_world_reachable. Defined.

(* --------------------------------------------------------------------- *)
(* The retry loop of generateTestCase                                    *)
(* --------------------------------------------------------------------- *)

Lemma calls_emit_call request w :
  calls (emit (ChatCompletion request) w) = S (calls w).
Proof.
  unfold calls, emit. simpl. rewrite List.filter_app, length_app. simpl. lia.
Qed.

Lemma calls_sleep ms w : calls (sleep ms w) = calls w.
Proof.
  unfold calls, sleep. simpl. rewrite List.filter_app, length_app. simpl. lia.
Qed.

Lemma attempt_fails env request w message :
  failure_of (chat_completion env (calls w) request) = Some message →
  attempt env request w = (Rejected message, emit (ChatCompletion request) w).
Proof.
  unfold failure_of, attempt.
  destruct (chat_completion env (calls w) request) as [response|m]; [|congruence].
  destruct (choice_content response) as [text|]; [|congruence].
  destruct (JS.falsy text); congruence.
Qed.

Lemma attempt_succeeds env request w :
  failure_of (chat_completion env (calls w) request) = None →
  ∃ result, attempt env request w
            = (Resolved result, emit (ChatCompletion request) w).
Proof.
  unfold failure_of, attempt.
  destruct (chat_completion env (calls w) request) as [response|m]; [|done].
  destruct (choice_content response) as [text|]; [|done].
  destruct (JS.falsy text); [done|]. by eexists.
Qed.

Lemma fails_from_tail env request n0 message rest :
  fails_from env request n0 (message :: rest) →
  failure_of (chat_completion env n0 request) = Some message
  ∧ fails_from env request (S n0) rest.
Proof.
  intros Hall. split.
  - specialize (Hall 0%nat message eq_refl). by rewrite Nat.add_0_r in Hall.
  - intros i m Hi. specialize (Hall (S i) m Hi).
    by replace (S n0 + i)%nat with (n0 + S i)%nat by lia.
Qed.

(* Every attempt that is left fails: the loop makes them all, waits
   between them, and rejects with the last message. *)
Lemma retry_loop_exhausted this env request : ∀ msgs fuel retryCount w final,
  Z.of_nat (length msgs) = maxRetries this + 1 - retryCount →
  (length msgs ≤ fuel)%nat →
  fails_from env request (calls w) msgs →
  last msgs = Some final →
  ∃ w', retry_loop fuel this env request retryCount w = Some (Rejected final, w')
        ∧ generations w' = generations w
        ∧ trace w' = (trace w ++ schedule request retryCount (length msgs))%list.
Proof.
  induction msgs as [|message rest IH]; intros fuel retryCount w final Hlen Hfuel Hall Hlast;
    [done|].
  destruct fuel as [|fuel]; [simpl in Hfuel; lia|].
  apply fails_from_tail in Hall as [Hfirst Hrest].
  simpl in Hlen. simpl retry_loop.
  destruct (Z.leb_spec retryCount (maxRetries this)); [|lia].
  rewrite (attempt_fails _ _ _ _ Hfirst).
  destruct rest as [|message' rest'].
  - destruct (Z.leb_spec (retryCount + 1) (maxRetries this)); [simpl in Hlen; lia|].
    injection Hlast as <-. eexists. split; [done|]. done.
  - destruct (Z.leb_spec (retryCount + 1) (maxRetries this)); [|simpl in Hlen; lia].
    set (w1 := sleep _ _).
    destruct (IH fuel (retryCount + 1) w1 final) as (w' & Hrun & Hgen & Htr).
    + simpl length in *. lia.
    + simpl length in *. lia.
    + unfold w1. by rewrite calls_sleep, calls_emit_call.
    + done.
    + exists w'. split; [done|]. split; [by rewrite Hgen|].
      rewrite Htr. unfold w1. simpl. rewrite <- !app_assoc. done.
Qed.

(* The attempts fail with [msgs] and the next one succeeds: the loop
   stops there and resolves. *)
Lemma retry_loop_recovers this env request : ∀ msgs fuel retryCount w,
  retryCount + Z.of_nat (length msgs) ≤ maxRetries this →
  (length msgs < fuel)%nat →
  fails_from env request (calls w) msgs →
  failure_of (chat_completion env (calls w + length msgs)%nat request) = None →
  ∃ result w',
    retry_loop fuel this env request retryCount w = Some (Resolved (Some result), w')
    ∧ generations w' = generations w
    ∧ trace w' = (trace w ++ schedule request retryCount (S (length msgs)))%list.
Proof.
  induction msgs as [|message rest IH]; intros fuel retryCount w Hlen Hfuel Hall Hok.
  - destruct fuel as [|fuel]; [simpl in Hfuel; lia|].
    simpl in Hlen. simpl retry_loop.
    destruct (Z.leb_spec retryCount (maxRetries this)); [|lia].
    rewrite Nat.add_0_r in Hok.
    destruct (attempt_succeeds _ _ _ Hok) as [result ->].
    by eexists _, _.
  - destruct fuel as [|fuel]; [simpl in Hfuel; lia|].
    apply fails_from_tail in Hall as [Hfirst Hrest].
    simpl length in *. simpl retry_loop.
    destruct (Z.leb_spec retryCount (maxRetries this)); [|lia].
    rewrite (attempt_fails _ _ _ _ Hfirst).
    destruct (Z.leb_spec (retryCount + 1) (maxRetries this)); [|lia].
    set (w1 := sleep _ _).
    destruct (IH fuel (retryCount + 1) w1) as (result & w' & Hrun & Hgen & Htr).
    + lia.
    + lia.
    + unfold w1. by rewrite calls_sleep, calls_emit_call.
    + unfold w1. rewrite calls_sleep, calls_emit_call.
      by replace (S (calls w) + length rest)%nat with (calls w + S (length rest))%nat by lia.
    + exists result, w'. split; [done|]. split; [by rewrite Hgen|].
      rewrite Htr. unfold w1. simpl. rewrite <- !app_assoc. done.
Qed.

(* The loop never runs out of the fuel generateTestCase gives it. *)
Lemma retry_loop_total this env request : ∀ fuel retryCount w,
  (Z.to_nat (maxRetries this + 1 - retryCount) < fuel)%nat →
  is_Some (retry_loop fuel this env request retryCount w).
Proof.
  induction fuel as [|fuel IH]; intros retryCount w Hfuel; [lia|].
  cbn [retry_loop].
  destruct (Z.leb_spec retryCount (maxRetries this)); [|done].
  destruct (attempt env request w) as [[result|message] w1]; [done|].
  destruct (Z.leb_spec (retryCount + 1) (maxRetries this)); [|done].
  apply IH. lia.
Qed.

(* generateTestCase and the testcases route always give a result. *)
Lemma generateTestCase_total this env context issueKey autoMode w :
  is_Some (generateTestCase this env context issueKey autoMode w).
Proof. unfold generateTestCase. apply retry_loop_total. lia. Qed.

Lemma post_testcases_total env email issueKey w :
  is_Some (post_testcases env email issueKey w).
Proof.
  unfold post_testcases.
  destruct (JS.falsy _); [done|].
  destruct (open_generation _ _ _ _) as [g0 w1].
  destruct (getJiraService env) as [message|getIssue]; [done|].
  destruct (getIssue _) as [fields|error]; [|done].
  unfold generate.
  destruct (getOpenAIService env) as [message|openai]; [done|].
  destruct (generateTestCase_total openai env (issue_context fields)
              (JS.or_string issueKey "") None
              (emit (JiraGetIssue (JS.or_string issueKey "")) w1))
    as [[result w2] ->].
  simpl. destruct result as [[result|]|message]; done.
Qed.

Lemma getOpenAIService_maxRetries env this :
  getOpenAIService env = inr this → maxRetries this = 3.
Proof.
  unfold getOpenAIService, new_OpenAIService.
  destruct (JS.falsy _); [done|]. by intros [= <-].
Qed.

Lemma or_string_Some s : s ≠ "" → JS.or_string (Some s) "" = s.
Proof.
  intros Hs. unfold JS.or_string. destruct (String.eqb_spec s ""); done.
Qed.

(* The testcases route up to the fetch of the issue. *)
Lemma post_testcases_fetch env email issueKey w :
  issueKey ≠ "" →
  ∃ g0 w1,
    open_generation env issueKey email w = (g0, w1)
    ∧ post_testcases env email (Some issueKey) w
      = match getJiraService env with
        | inl message => Some (Next message, w1)
        | inr getIssue =>
            match getIssue issueKey with
            | IssueFailed error =>
                Some (fetch_failed (new_generation_id env) g0 error
                        (emit (JiraGetIssue issueKey) w1))
            | IssueFound fields =>
                generate env (new_generation_id env) issueKey g0
                  (issue_summary fields) (issue_context fields) (now w1)
                  (emit (JiraGetIssue issueKey) w1)
            end
        end.
Proof.
  intros Hkey. unfold post_testcases. rewrite (or_string_Some _ Hkey).
  apply falsy_false in Hkey. rewrite Hkey.
  destruct (open_generation env issueKey email w) as [g0 w1]. by eexists _, _.
Qed.

(** C6: in the testcases route, for a non-empty issue key.
    (1) When the JIRA fetch fails, the route answers after exactly one
    call to JIRA and no other outside call: the fetch is not retried.
    (2) When the issue is found and the model client is configured:
    (a) if the first k <= 3 calls fail and the next one succeeds, the
    route answers 200 after k + 1 calls, with waits of 2^i seconds
    (i = 1..k) between them; (b) if four calls in a row fail, the route
    makes exactly these four calls, with waits of 2, 4 and 8 seconds
    between them, answers 500 with the message of the fourth failure, and
    stores the generation with status failed and an error that carries
    this message after the prefix "OpenAI generation failed: ". *)
Theorem retry_policy env email issueKey w :
  issueKey ≠ "" →
  (∀ getIssue error,
     getJiraService env = inr getIssue →
     getIssue issueKey = IssueFailed error →
     ∃ reply w',
       post_testcases env email (Some issueKey) w = Some (reply, w')
       ∧ trace w' = (trace w ++ [JiraGetIssue issueKey])%list)
  ∧ (∀ getIssue fields openai,
       getJiraService env = inr getIssue →
       getIssue issueKey = IssueFound fields →
       getOpenAIService env = inr openai →
       let request := chat_request openai (issue_context fields) issueKey None in
       (∀ msgs,
          (length msgs ≤ 3)%nat →
          fails_from env request (calls w) msgs →
          failure_of (chat_completion env (calls w + length msgs)%nat request) = None →
          ∃ body w',
            post_testcases env email (Some issueKey) w = Some (Json 200 body, w')
            ∧ trace w' = (trace w ++ JiraGetIssue issueKey
                                  :: schedule request 0 (S (length msgs)))%list)
       ∧ (∀ m1 m2 m3 m4,
            fails_from env request (calls w) [m1; m2; m3; m4] →
            ∃ w' g,
              post_testcases env email (Some issueKey) w
                = Some (Json 500 (ErrorBody
                                    (JS.or_string (Some m4) "Failed to generate test cases")),
                        w')
              ∧ trace w' = (trace w ++
                              [ JiraGetIssue issueKey;
                                ChatCompletion request; Sleep 2000;
                                ChatCompletion request; Sleep 4000;
                                ChatCompletion request; Sleep 8000;
                                ChatCompletion request ])%list
              ∧ findById (new_generation_id env) w' = Some g
              ∧ Generation.status g = Some failed
              ∧ Generation.error g = Some ("OpenAI generation failed: " +:+ m4))).
Proof.
  intros Hkey.
  destruct (post_testcases_fetch env email issueKey w Hkey) as (g0 & w1 & Hopen & Hpost).
  pose proof (open_generation_effect env issueKey email w) as Heff.
  rewrite Hopen in Heff. destruct Heff as (Hg1 & Ht1 & _).
  assert (Hcalls : calls (emit (JiraGetIssue issueKey) w1) = calls w).
  { unfold calls, emit. simpl. rewrite Ht1, List.filter_app, length_app. simpl. lia. }
  split.
  - intros getIssue error Hjira Hfail. rewrite Hpost, Hjira, Hfail.
    eexists _, _. split; [reflexivity|]. simpl. by rewrite Ht1.
  - intros getIssue fields openai Hjira Hfound Hopenai request.
    pose proof (getOpenAIService_maxRetries _ _ Hopenai) as Hmax.
    rewrite Hpost, Hjira, Hfound. unfold generate. rewrite Hopenai.
    unfold generateTestCase. fold request. rewrite Hmax. split.
    + intros msgs Hlen Hall Hok.
      destruct (retry_loop_recovers openai env request msgs (S (Z.to_nat (3 + 1))) 0
                  (emit (JiraGetIssue issueKey) w1))
        as (result & w2 & -> & _ & Htr).
      * rewrite Hmax. lia.
      * simpl. lia.
      * by rewrite Hcalls.
      * by rewrite Hcalls.
      * simpl. eexists _, _. split; [reflexivity|]. simpl.
        rewrite Htr. simpl. rewrite Ht1, <- app_assoc. done.
    + intros m1 m2 m3 m4 Hall.
      destruct (retry_loop_exhausted openai env request [m1; m2; m3; m4]
                  (S (Z.to_nat (3 + 1))) 0 (emit (JiraGetIssue issueKey) w1) m4)
        as (w2 & -> & _ & Htr).
      * rewrite Hmax. simpl. lia.
      * simpl. lia.
      * by rewrite Hcalls.
      * done.
      * simpl. eexists _, _. split; [reflexivity|]. simpl.
        split; [rewrite Htr; simpl; rewrite Ht1, <- app_assoc; done|].
        split; [apply lookup_insert_eq|]. done.
Qed.

Lemma retry_policy_witness :
  (∃ reply w',
     post_testcases deaf_env "qa@example.com" (Some "BAD-1") (empty_world 1000)
       = Some (reply, w')
     ∧ trace w' = (trace (empty_world 1000) ++ [JiraGetIssue "BAD-1"])%list)
  ∧ (∃ body w',
       post_testcases recovering_env "qa@example.com" (Some "KAN-10") (empty_world 1000)
         = Some (Json 200 body, w')
       ∧ trace w' = (trace (empty_world 1000) ++ JiraGetIssue "KAN-10"
                       :: schedule login_request 0
                            (S (length ["503 Service Unavailable";
                                        "503 Service Unavailable"])))%list)
  ∧ (∃ w' g,
       post_testcases limited_env "qa@example.com" (Some "KAN-10") (empty_world 1000)
         = Some (Json 500 (ErrorBody
                             (JS.or_string (Some "429 Too Many Requests")
                                "Failed to generate test cases")),
                 w')
       ∧ trace w' = (trace (empty_world 1000) ++
                       [ JiraGetIssue "KAN-10";
                         ChatCompletion login_request; Sleep 2000;
                         ChatCompletion login_request; Sleep 4000;
                         ChatCompletion login_request; Sleep 8000;
                         ChatCompletion login_request ])%list
       ∧ findById (new_generation_id limited_env) w' = Some g
       ∧ Generation.status g = Some failed
       ∧ Generation.error g
         = Some ("OpenAI generation failed: " +:+ "429 Too Many Requests")).
Proof.
  split; [|split].
  - apply (proj1 (retry_policy deaf_env "qa@example.com" "BAD-1" (empty_world 1000)
                    ltac:(discriminate))
             (fun _ => IssueFailed "Issue not found") "Issue not found");
      reflexivity.
  - apply (proj1 (proj2 (retry_policy recovering_env "qa@example.com" "KAN-10"
                           (empty_world 1000) ltac:(discriminate))
                    (fun _ => IssueFound login_issue) login_issue default_service
                    eq_refl eq_refl eq_refl)
             ["503 Service Unavailable"; "503 Service Unavailable"]).
    + simpl. lia.
    + intros [|[|i]] message Hi; simpl in Hi; try discriminate Hi;
        injection Hi as <-; reflexivity.
    + reflexivity.
  - apply (proj2 (proj2 (retry_policy limited_env "qa@example.com" "KAN-10"
                           (empty_world 1000) ltac:(discriminate))
                    (fun _ => IssueFound login_issue) login_issue default_service
                    eq_refl eq_refl eq_refl)
             "429 Too Many Requests" "429 Too Many Requests"
             "429 Too Many Requests" "429 Too Many Requests").
    intros [|[|[|[|i]]]] message Hi; simpl in Hi; try discriminate Hi;
      injection Hi as <-; reflexivity.
Defined.

(* --------------------------------------------------------------------- *)
(* A failed fetch of the issue                                           *)
(* --------------------------------------------------------------------- *)

(* Whatever the message of the JIRA client, the testcases route stores
   the generation as failed, with the message (or a default when it is
   empty) as its error and the time as completedAt, and answers 404. *)
Lemma post_testcases_fetch_failed env email issueKey w getIssue error :
  issueKey ≠ "" →
  getJiraService env = inr getIssue →
  getIssue issueKey = IssueFailed error →
  ∃ w' g,
    post_testcases env email (Some issueKey) w
      = Some (Json 404 (ErrorBody error), w')
    ∧ findById (new_generation_id env) w' = Some g
    ∧ Generation.status g = Some failed
    ∧ Generation.error g = Some (JS.or_string (Some error) "Failed to fetch JIRA issue")
    ∧ Generation.completedAt g = Some (now w)
    ∧ Generation.result_markdown g = None.
Proof.
  intros Hkey Hjira Hfail.
  destruct (post_testcases_fetch env email issueKey w Hkey) as (g0 & w1 & Hopen & Hpost).
  pose proof (open_generation_effect env issueKey email w) as Heff.
  rewrite Hopen in Heff. destruct Heff as (_ & _ & Hnow & _ & Hmd & _).
  rewrite Hpost, Hjira, Hfail. eexists _, _. split; [reflexivity|].
  split; [apply lookup_insert_eq|]. simpl. rewrite Hnow. done.
Qed.

(** C3, at the failing inputs: when the JIRA client answers "JIRA
    authentication failed" the testcases route stores the generation as
    failed with this error and a completedAt, but answers 404 where the
    preflight route, on the same answer, gives 401; when it answers
    "connect ECONNREFUSED" the testcases route answers 404 again, where
    the preflight route gives 500. *)
Theorem post_testcases_status_not_classified :
  (∃ w' g,
     post_testcases refused_env "qa@example.com" (Some "KAN-10") (empty_world 1000)
       = Some (Json 404 (ErrorBody "JIRA authentication failed"), w')
     ∧ findById "g3" w' = Some g
     ∧ Generation.status g = Some failed
     ∧ Generation.error g = Some "JIRA authentication failed"
     ∧ Generation.completedAt g = Some 1000)
  ∧ statusCode "JIRA authentication failed" = 401
  ∧ (post_preflight refused_env (Some "KAN-10") (empty_world 1000)).1
    = Json 401 (ErrorBody "JIRA authentication failed")
  ∧ (∃ w',
       post_testcases offline_env "qa@example.com" (Some "KAN-10") (empty_world 1000)
         = Some (Json 404 (ErrorBody "connect ECONNREFUSED"), w'))
  ∧ statusCode "connect ECONNREFUSED" = 500
  ∧ (post_preflight offline_env (Some "KAN-10") (empty_world 1000)).1
    = Json 500 (ErrorBody "connect ECONNREFUSED").
Proof.
  split; [|split; [|split; [|split; [|split]]]].
  - eexists _, _. split; [vm_compute; reflexivity|].
    split; [vm_compute; reflexivity|]. repeat split.
  - reflexivity.
  - reflexivity.
  - eexists. vm_compute. reflexivity.
  - reflexivity.
  - reflexivity.
Qed.

(* --------------------------------------------------------------------- *)
(* Token and cost estimates                                              *)
(* --------------------------------------------------------------------- *)

(* The callback of line 67 never answers true: the images it keeps are
   none, when it does not throw. *)
Lemma filter_throwing_image_test l kept :
  filter_throwing image_test l = inr kept → kept = [].
Proof.
  revert kept. induction l as [|att rest IH]; intros kept; simpl.
  - by intros [= <-].
  - unfold image_test at 1. destruct (mimeType att); [done|].
    destruct (filter_throwing image_test rest) as [message|kept']; [done|].
    intros [= <-]. by apply IH.
Qed.


(* When the preflight route answers with an estimate, the estimate counts
   no image: estimatedTokens is ceil(C / 4) for the C characters of the
   context, and the cost is the formula of line 75, printed with five
   decimals. *)
Lemma post_preflight_estimate env issueKey w key title text n tokens cost :
  (post_preflight env issueKey w).1 = Json 200 (PreflightBody key title text n tokens cost) →
  ∃ getIssue fields,
    getJiraService env = inr getIssue
    ∧ getIssue key = IssueFound fields
    ∧ let C := Z.of_nat (String.length (issue_summary fields +:+ " "
                                         +:+ JS.or_string (description fields) "")) in
      tokens = JS.ceil_div C 4 + 0 * 200
      ∧ cost = toFixed 5 (estimateCost tokens).
Proof.
  unfold post_preflight. destruct (JS.falsy _); [done|].
  destruct (getJiraService env) as [message|getIssue]; [done|].
  destruct (getIssue _) as [fields|error] eqn:Hfound; [|unfold statusCode; simpl; intros [= ?]; repeat case_match; done].
  destruct (filter_throwing _ _) as [message|images] eqn:Himages; [done|].
  apply filter_throwing_image_test in Himages as ->.
  simpl. intros [= <- _ _ _ <- <-].
  exists getIssue, fields. by repeat split.
Qed.

(* The cost generateTestCase computes from the token counts. *)
Lemma account_cost text response :
  result_cost (account text response)
  = ((inject_Z (promptTokens (result_tokenUsage (account text response))) / 1000000)
       * (15 # 100)
     + (inject_Z (completionTokens (result_tokenUsage (account text response))) / 1000000)
       * (60 # 100))%Q.
Proof. reflexivity. Qed.

(** C8, at the failing input: for an issue with one attachment of type
    image/png the preflight route gives no estimate; the test of line 67
    calls startWiths, which no string has, and the TypeError leaves the
    handler uncaught. The context has 43 characters, so the claim asks for
    estimatedTokens = ceil(43/4) + 200 = 211. *)
Theorem post_preflight_image_throws :
  Z.of_nat (String.length (issue_summary screenshot_issue +:+ " "
                             +:+ JS.or_string (description screenshot_issue) "")) = 43
  ∧ estimateTokens 43 1 = 211
  ∧ (post_preflight screenshot_env (Some "KAN-10") (empty_world 1000)).1
    = Uncaught "att.mimeType?.startWiths is not a function".
Proof. repeat split. Qed.

(* --------------------------------------------------------------------- *)
(* The list                                                              *)
(* --------------------------------------------------------------------- *)

Global Instance newer_first_trans : Transitive newer_first.
Proof. intros x y z. unfold newer_first. lia. Qed.

Global Instance newer_first_total : Total newer_first.
Proof. intros x y. unfold newer_first. lia. Qed.

Lemma sort_desc_sorted l : StronglySorted newer_first (sort_desc l).
Proof. apply StronglySorted_merge_sort; apply _. Qed.

Lemma sort_desc_perm l : sort_desc l ≡ₚ l.
Proof. apply merge_sort_Permutation. Qed.

Lemma page_sorted (l : list (string * Generation.t)) skip limit :
  StronglySorted newer_first l →
  StronglySorted newer_first (take limit (drop skip l)).
Proof.
  intros Hl.
  rewrite <- (take_drop skip l) in Hl. apply StronglySorted_app_1_r in Hl.
  rewrite <- (take_drop limit (drop skip l)) in Hl. by apply StronglySorted_app_1_l in Hl.
Qed.

(* When page and limit parse as integers, the route does what the claim
   says: page >= 1, limit in [1, 50], the slice skips (page - 1) * limit
   items of the matches sorted most recent first and has at most limit
   items, and pages is ceil(total / limit). *)
Lemma get_list_numeric email page limit filter w p l :
  JS.parseInt (JS.or_string page "1") = JS.Int p →
  JS.parseInt (JS.or_string limit "10") = JS.Int l →
  ∃ items pg,
    get_list email page limit filter w = Some (Json 200 (ListBody items pg))
    ∧ 1 ≤ pg_page pg ∧ pg_page pg = Z.max 1 p
    ∧ 1 ≤ pg_limit pg ≤ 50 ∧ pg_limit pg = Z.min 50 (Z.max 1 l)
    ∧ pg_total pg
      = Z.of_nat (length (find (list_filter (JS.or_string filter "all") email) w))
    ∧ pg_pages pg = JS.ceil_div (pg_total pg) (pg_limit pg)
    ∧ items = take (Z.to_nat (pg_limit pg))
                (drop (Z.to_nat ((pg_page pg - 1) * pg_limit pg))
                   (sort_desc (find (list_filter (JS.or_string filter "all") email) w)))
    ∧ StronglySorted newer_first items
    ∧ (length items ≤ Z.to_nat (pg_limit pg))%nat.
Proof.
  intros Hp Hl. unfold get_list, list_params. rewrite Hp, Hl. simpl.
  eexists _, _. split; [reflexivity|]. simpl.
  repeat split; try lia.
  - apply page_sorted, sort_desc_sorted.
  - rewrite length_take. lia.
Qed.

Example list_params_default : list_params None None = (JS.Int 1, JS.Int 10, JS.Int 0).
Proof. reflexivity. Qed.

Example list_params_clamped :
  list_params (Some "-3") (Some "500") = (JS.Int 1, JS.Int 50, JS.Int 0).
Proof. reflexivity. Qed.

(** C9, at the failing inputs: for the query page=abc the page the route
    computes is NaN, not a number >= 1, and so is skip; for limit=ten the
    limit is NaN, not a number in [1, 50]. For the query page=3&limit=20
    the values are 3, 20 and a skip of 40. *)
Theorem list_params_not_a_number :
  list_params (Some "abc") None = (JS.NaN, JS.Int 10, JS.NaN)
  ∧ list_params (Some "2") (Some "ten") = (JS.Int 2, JS.NaN, JS.NaN)
  ∧ list_params (Some "3") (Some "20") = (JS.Int 3, JS.Int 20, JS.Int 40).
Proof. repeat split. Qed.

Example get_list_all :
  get_list "qa@example.com" None None None team_world
  = Some (Json 200
            (ListBody [ ("g6", shared_generation); ("g2", failed_generation);
                        ("g1", login_generation) ]
               {| pg_page := 1; pg_limit := 10; pg_total := 3; pg_pages := 1 |})).
Proof. vm_compute. reflexivity. Qed.

Example get_list_published :
  get_list "qa@example.com" (Some "1") (Some "5") (Some "published") team_world
  = Some (Json 200
            (ListBody [ ("g6", shared_generation) ]
               {| pg_page := 1; pg_limit := 5; pg_total := 1; pg_pages := 1 |})).
Proof. vm_compute. reflexivity. Qed.

Example get_view_stranger :
  get_view "g1" "lead@example.com" team_world = NotFound
  ∧ get_view "missing" "lead@example.com" team_world = NotFound.
Proof. split; vm_compute; reflexivity. Qed.

(* ===================================================================== *)
(* Further properties of the routes                                      *)
(* ===================================================================== *)

(* --------------------------------------------------------------------- *)
(* What a request may do to a stored generation                          *)
(* --------------------------------------------------------------------- *)

Lemma put_content_cases id email content w :
  (put_content id email content w).2 = w
  ∨ ∃ g c, content = Some c
           ∧ findById id w = Some g
           ∧ Generation.email g = email
           ∧ Generation.status g = Some completed
           ∧ (put_content id email content w).2
             = save id (write_content c (track_version email c (now w) g)) w.
Proof.
  unfold put_content. destruct content as [c|]; [|by left].
  destruct (findById id w) as [g|] eqn:Hg; [|by left].
  destruct (String.eqb_spec (Generation.email g) email) as [Hown|]; [|by left].
  destruct (status_is completed g) eqn:Hst; [|by left].
  apply bool_decide_eq_true in Hst. right. by exists g, c.
Qed.

Lemma put_publish_cases id email published w :
  (put_publish id email published w).2 = w
  ∨ ∃ g b, published = Some b
           ∧ findById id w = Some g
           ∧ Generation.email g = email
           ∧ Generation.status g = Some completed
           ∧ (put_publish id email published w).2
             = save id (Generation.set_publishedBy (stamp_by b email)
                          (Generation.set_publishedAt (stamp_at b (now w))
                             (Generation.set_published b g))) w.
Proof.
  destruct published as [b|]; [|by left].
  destruct (findById id w) as [g|] eqn:Hg; [|unfold put_publish; rewrite Hg; by left].
  destruct (String.eqb_spec (Generation.email g) email) as [Hown|Hother].
  - destruct (Generation.status g) as [[|]|] eqn:Hst.
    + right. exists g, b. rewrite (put_publish_owner id email b w g Hg Hown Hst). done.
    + left. unfold put_publish, status_is. rewrite Hg, Hst.
      destruct (negb _); done.
    + left. unfold put_publish, status_is. rewrite Hg, Hst.
      destruct (negb _); done.
  - left. unfold put_publish. rewrite Hg.
    apply String.eqb_neq in Hother. by rewrite Hother.
Qed.

Lemma delete_generation_cases id email w :
  (delete_generation id email w).2 = w
  ∨ ∃ g, findById id w = Some g
         ∧ Generation.email g = email
         ∧ (delete_generation id email w).2 = findByIdAndDelete id w.
Proof.
  unfold delete_generation. destruct (findById id w) as [g|] eqn:Hg; [|by left].
  destruct (String.eqb_spec (Generation.email g) email) as [Hown|]; [|by left].
  right. by exists g.
Qed.

(* A generation that a step keeps is the same afterwards, or it was
   edited or published in the name of its own email while completed. *)
Lemma step_lookup w w' id g g' :
  step w w' →
  findById id w = Some g → findById id w' = Some g' →
  g' = g ∨ touched (now w) g g'.
Proof.
  unfold findById.
  destruct 1 as [env email issueKey w reply w' Hfresh Hrun | env issueKey w
                | id0 email content w | id0 email published w | id0 email w | dt w Hdt];
    intros Hg Hg'.
  - apply post_testcases_effect in Hrun as ([Hgen | (g0 & Hgen & _)] & _);
      rewrite Hgen in Hg'.
    + left. congruence.
    + rewrite lookup_insert_ne in Hg' by congruence. left. congruence.
  - destruct (post_preflight_effect env issueKey w) as [Hgen _].
    rewrite Hgen in Hg'. left. congruence.
  - destruct (put_content_cases id0 email content w)
      as [Hsame | (g0 & c & _ & Hg0 & Hown & Hst & Hsave)].
    + rewrite Hsame in Hg'. left. congruence.
    + rewrite Hsave in Hg'. simpl in Hg'. unfold findById in Hg0.
      destruct (decide (id0 = id)) as [->|Hne].
      * rewrite lookup_insert_eq in Hg'. right.
        assert (g0 = g) as -> by congruence.
        injection Hg' as <-. subst email. by apply touched_edit.
      * rewrite lookup_insert_ne in Hg' by done. left. congruence.
  - destruct (put_publish_cases id0 email published w)
      as [Hsame | (g0 & b & _ & Hg0 & Hown & Hst & Hsave)].
    + rewrite Hsame in Hg'. left. congruence.
    + rewrite Hsave in Hg'. simpl in Hg'. unfold findById in Hg0.
      destruct (decide (id0 = id)) as [->|Hne].
      * rewrite lookup_insert_eq in Hg'. right.
        assert (g0 = g) as -> by congruence.
        injection Hg' as <-. subst email. by apply touched_publish.
      * rewrite lookup_insert_ne in Hg' by done. left. congruence.
  - destruct (delete_generation_cases id0 email w) as [Hsame | (g0 & _ & _ & Hdel)].
    + rewrite Hsame in Hg'. left. congruence.
    + rewrite Hdel in Hg'. simpl in Hg'.
      destruct (decide (id0 = id)) as [->|Hne].
      * by rewrite lookup_delete_eq in Hg'.
      * rewrite lookup_delete_ne in Hg' by done. left. congruence.
  - left. simpl in Hg'. congruence.
Qed.

(* --------------------------------------------------------------------- *)
(* The outcomes of POST /testcases                                       *)
(* --------------------------------------------------------------------- *)

Lemma ensure_title_heading issueKey summary text :
  JS.startsWith (ensure_title issueKey summary text) "#" = true.
Proof.
  unfold ensure_title. destruct (JS.startsWith text "#") eqn:Hhead; simpl; done.
Qed.

Lemma open_generation_opened env issueKey email w :
  opened_by email issueKey (open_generation env issueKey email w).1.
Proof.
  unfold open_generation.
  destruct (associate_project env issueKey email w) as [project w0]. simpl.
  by repeat split.
Qed.

(* The outcomes of the testcases route, one by one. *)
Lemma post_testcases_cases env email issueKey w reply w' :
  post_testcases env email issueKey w = Some (reply, w') →
  (JS.or_string issueKey "" = ""
   ∧ reply = Json 400 (ErrorBody "issueKey required") ∧ w' = w)
  ∨ ∃ g,
      generations w' = <[new_generation_id env := g]> (generations w)
      ∧ opened_by email (JS.or_string issueKey "") g
      ∧ settled g
      ∧ match Generation.status g with
        | None => ∃ message, reply = Next message ∧ getJiraService env = inl message
        | Some failed =>
            ∃ error, reply = Json 404 (ErrorBody error) ∨ reply = Json 500 (ErrorBody error)
        | Some completed =>
            ∃ body text, reply = Json 200 body
                         ∧ markdown_content g = Some text
                         ∧ JS.startsWith text "#" = true
        end.
Proof.
  unfold post_testcases. intros Hrun.
  destruct (JS.falsy (JS.or_string issueKey "")) eqn:Hkey.
  { injection Hrun as <- <-. left. by apply falsy_spec in Hkey. }
  right.
  pose proof (open_generation_effect env (JS.or_string issueKey "") email w) as Hopen.
  pose proof (open_generation_opened env (JS.or_string issueKey "") email w) as Hby.
  destruct (open_generation env (JS.or_string issueKey "") email w) as [g0 w1].
  destruct Hopen as (Hg1 & _ & _ & Herr & Hmd & Hst & _).
  simpl in Hby. destruct Hby as (Hb1 & Hb2 & Hb3 & Hb4 & Hb5 & Hb6 & Hb7).
  destruct (getJiraService env) as [message|getIssue] eqn:Hjira.
  { injection Hrun as <- <-. eexists. split; [exact Hg1|].
    split; [by repeat split|]. unfold settled. simpl. rewrite Hst.
    split; [done|]. by exists message. }
  destruct (getIssue (JS.or_string issueKey "")) as [fields|error].
  - unfold generate in Hrun.
    destruct (getOpenAIService env) as [message|openai].
    + injection Hrun as <- <-. eexists. split.
      { simpl. rewrite Hg1. apply insert_insert_eq. }
      split; [by repeat split|]. unfold settled. simpl.
      split; [split; [by eexists | done]|]. eexists. by right.
    + unfold generateTestCase in Hrun.
      destruct (retry_loop _ openai env _ 0 _) as [[result w2]|] eqn:Hloop; [|done].
      apply retry_loop_extends in Hloop as (evs & (Hg2 & _ & _) & _).
      simpl in Hg2. simpl in Hrun.
      destruct result as [[result|]|message]; injection Hrun as <- <-.
      * eexists. split.
        { simpl. rewrite Hg2, Hg1. apply insert_insert_eq. }
        split; [by repeat split|]. unfold settled. simpl.
        split; [split; [done | by eexists]|].
        eexists _, _. split; [done|]. split; [done|]. apply ensure_title_heading.
      * eexists. split.
        { simpl. rewrite Hg2, Hg1. apply insert_insert_eq. }
        split; [by repeat split|]. unfold settled. simpl.
        split; [split; [by eexists | done]|]. eexists. by right.
      * eexists. split.
        { simpl. rewrite Hg2, Hg1. apply insert_insert_eq. }
        split; [by repeat split|]. unfold settled. simpl.
        split; [split; [by eexists | done]|]. eexists. by right.
  - injection Hrun as <- <-. eexists. split.
    { simpl. rewrite Hg1. apply insert_insert_eq. }
    split; [by repeat split|]. unfold settled. simpl.
    split; [split; [|done]|].
    + eexists. split; [done|].
      by apply (or_string_nonempty (Some error) "Failed to fetch JIRA issue").
    + eexists. by left.
Qed.

(** X1: every request to the testcases route ends in one of four ways.
    Without an issue key it answers 400 and changes nothing. Otherwise it
    stores exactly one generation, under the new id, owned by the
    requester, at currentVersion 1 with no history and not published, and
    leaves the others alone; the answer agrees with the stored status: no
    status (and no error, no markdown) only when the JIRA client could
    not be built (the error goes to next), failed (no markdown) with 404
    or 500, completed (no error) with 200 and a content that starts with
    "#". *)
Theorem post_testcases_outcome env email issueKey w reply w' :
  post_testcases env email issueKey w = Some (reply, w') →
  (JS.or_string issueKey "" = ""
   ∧ reply = Json 400 (ErrorBody "issueKey required") ∧ w' = w)
  ∨ ∃ g,
      findById (new_generation_id env) w' = Some g
      ∧ (∀ id, id ≠ new_generation_id env → findById id w' = findById id w)
      ∧ opened_by email (JS.or_string issueKey "") g
      ∧ match Generation.status g with
        | None =>
            Generation.error g = None ∧ Generation.result_markdown g = None
            ∧ ∃ message, reply = Next message ∧ getJiraService env = inl message
        | Some failed =>
            Generation.result_markdown g = None
            ∧ ∃ error, reply = Json 404 (ErrorBody error)
                       ∨ reply = Json 500 (ErrorBody error)
        | Some completed =>
            Generation.error g = None
            ∧ ∃ body text, reply = Json 200 body
                           ∧ markdown_content g = Some text
                           ∧ JS.startsWith text "#" = true
        end.
Proof.
  intros Hrun.
  apply post_testcases_cases in Hrun as [Hrefused | (g & Hgen & Hby & Hset & Hreply)];
    [by left|].
  right. exists g. unfold findById. rewrite Hgen.
  split; [apply lookup_insert_eq|]. split.
  { intros id Hne. by apply lookup_insert_ne. }
  split; [done|]. unfold settled in Hset.
  destruct (Generation.status g) as [[|]|].
  - by destruct Hset.
  - by destruct Hset.
  - by destruct Hset.
Qed.

Lemma post_testcases_outcome_witness :
  ∃ reply w',
    post_testcases login_env "qa@example.com" (Some "KAN-10") (empty_world 1000)
      = Some (reply, w')
    ∧ ((JS.or_string (Some "KAN-10") "" = ""
        ∧ reply = Json 400 (ErrorBody "issueKey required") ∧ w' = empty_world 1000)
       ∨ ∃ g,
           findById (new_generation_id login_env) w' = Some g
           ∧ (∀ id, id ≠ new_generation_id login_env →
                findById id w' = findById id (empty_world 1000))
           ∧ opened_by "qa@example.com" (JS.or_string (Some "KAN-10") "") g
           ∧ match Generation.status g with
             | None =>
                 Generation.error g = None ∧ Generation.result_markdown g = None
                 ∧ ∃ message, reply = Next message
                              ∧ getJiraService login_env = inl message
             | Some failed =>
                 Generation.result_markdown g = None
                 ∧ ∃ error, reply = Json 404 (ErrorBody error)
                            ∨ reply = Json 500 (ErrorBody error)
             | Some completed =>
                 Generation.error g = None
                 ∧ ∃ body text, reply = Json 200 body
                                ∧ markdown_content g = Some text
                                ∧ JS.startsWith text "#" = true
             end).
Proof.
  eexists _, _. split; [vm_compute; reflexivity|].
  apply (post_testcases_outcome login_env "qa@example.com" (Some "KAN-10")
           (empty_world 1000)).
  vm_compute. reflexivity.
Defined.

(* --------------------------------------------------------------------- *)
(* Invariants of the stored generations                                  *)
(* --------------------------------------------------------------------- *)

Lemma step_new w w' id g' :
  step w w' →
  findById id w = None → findById id w' = Some g' →
  ∃ email issueKey, opened_by email issueKey g'.
Proof.
  unfold findById.
  destruct 1 as [env email issueKey w reply w' Hfresh Hrun | env issueKey w
                | id0 email content w | id0 email published w | id0 email w | dt w Hdt];
    intros Hg Hg'.
  - apply post_testcases_cases in Hrun as [(_ & _ & ->) | (g0 & Hgen & Hby & _)];
      [congruence|].
    rewrite Hgen in Hg'.
    destruct (decide (new_generation_id env = id)) as [Heq|Hne].
    + rewrite Heq, lookup_insert_eq in Hg'. injection Hg' as <-. by eexists _, _.
    + rewrite lookup_insert_ne in Hg' by done. congruence.
  - destruct (post_preflight_effect env issueKey w) as [Hgen _].
    rewrite Hgen in Hg'. congruence.
  - destruct (put_content_cases id0 email content w)
      as [Hsame | (g0 & c & _ & Hg0 & _ & _ & Hsave)].
    + rewrite Hsame in Hg'. congruence.
    + rewrite Hsave in Hg'. simpl in Hg'. unfold findById in Hg0.
      rewrite lookup_insert_ne in Hg' by congruence. congruence.
  - destruct (put_publish_cases id0 email published w)
      as [Hsame | (g0 & b & _ & Hg0 & _ & _ & Hsave)].
    + rewrite Hsame in Hg'. congruence.
    + rewrite Hsave in Hg'. simpl in Hg'. unfold findById in Hg0.
      rewrite lookup_insert_ne in Hg' by congruence. congruence.
  - destruct (delete_generation_cases id0 email w) as [Hsame | (g0 & _ & _ & Hdel)].
    + rewrite Hsame in Hg'. congruence.
    + rewrite Hdel in Hg'. simpl in Hg'.
      apply lookup_delete_Some in Hg' as [_ Hg']. congruence.
  - simpl in Hg'. congruence.
Qed.

Lemma opened_history email issueKey g : opened_by email issueKey g → history_ok g.
Proof.
  intros (_ & _ & Hcv & Hvs & _). unfold history_ok, version_numbers.
  rewrite Hcv, Hvs. by repeat split.
Qed.

Lemma opened_publication email issueKey g : opened_by email issueKey g → publication_ok g.
Proof.
  intros (_ & _ & _ & _ & Hp & Hat & Hby). unfold publication_ok.
  rewrite Hp, Hat, Hby. repeat split; try done.
  intros [[? ?] _]. done.
Qed.

Lemma track_version_history email content t g :
  Generation.email g = email →
  history_ok g → history_ok (track_version email content t g).
Proof.
  intros Hmail (Hcv & Hnums & Hby).
  destruct (decide (stored_content g = "")) as [Hempty|Hne].
  { rewrite track_version_same by by left. done. }
  destruct (decide (stored_content g = content)) as [Hsame|Hdiff].
  { rewrite track_version_same by by right. done. }
  rewrite (track_version_changed _ _ _ _ Hne Hdiff).
  rewrite (versionExists_fresh g _ eq_refl Hcv Hnums).
  assert (Hnum : JS.or_number (Generation.currentVersion g) 1 = Generation.currentVersion g).
  { unfold JS.or_number. destruct (Z.eqb_spec (Generation.currentVersion g) 0); [lia | done]. }
  unfold history_ok, version_numbers in *. simpl. rewrite Hnum.
  split; [lia|]. split.
  - rewrite fmap_app, Hnums. simpl. rewrite Hnum.
    replace (Generation.currentVersion g + 1 - 1)
      with (Z.of_nat (S (Z.to_nat (Generation.currentVersion g - 1)))) by lia.
    rewrite seqZ_S. do 2 f_equal; lia.
  - apply Forall_app. split; [done|]. by constructor.
Qed.

Lemma touched_history t g g' : touched t g g' → history_ok g → history_ok g'.
Proof.
  intros [content Hst | published Hst] Hok.
  - by apply (track_version_history (Generation.email g) content t g eq_refl) in Hok.
  - done.
Qed.

Lemma track_version_publication email content t g :
  let g' := track_version email content t g in
  Generation.published g' = Generation.published g
  ∧ Generation.publishedAt g' = Generation.publishedAt g
  ∧ Generation.publishedBy g' = Generation.publishedBy g
  ∧ Generation.email g' = Generation.email g.
Proof.
  unfold track_version. destruct (negb _ && negb _); [|done].
  destruct (existsb _ _); done.
Qed.

Lemma touched_publication t g g' : touched t g g' → publication_ok g → publication_ok g'.
Proof.
  intros [content Hst | published Hst] (Hon & Hoff & Hown).
  - pose proof (track_version_keeps (Generation.email g) content t g) as Hkeep.
    pose proof (track_version_publication (Generation.email g) content t g) as Hpub.
    cbv zeta in Hkeep, Hpub.
    destruct Hkeep as (Hs & _). destruct Hpub as (Hp & Hat & Hby & Hmail).
    unfold publication_ok, edited. simpl. rewrite Hp, Hat, Hby, Hs, Hmail. done.
  - unfold publication_ok, republished. simpl.
    destruct published; simpl; repeat split; try done;
      try (intros [H1 H2]; first [done | by destruct H1]); by eexists.
Qed.

Lemma reachable_history_publication w :
  reachable w →
  ∀ id g, findById id w = Some g → history_ok g ∧ publication_ok g.
Proof.
  intros [t0 Hrun]. revert w Hrun.
  apply (rtc_ind_r (λ w, ∀ id g, findById id w = Some g → history_ok g ∧ publication_ok g)).
  - intros id g Hg. done.
  - intros w1 w2 _ Hstep IH id g' Hg'.
    destruct (findById id w1) as [g|] eqn:Hg.
    + destruct (IH id g Hg) as [Hh Hp].
      destruct (step_lookup w1 w2 id g g' Hstep Hg Hg') as [-> | Htouch]; [done|].
      split; [by eapply touched_history | by eapply touched_publication].
    + destruct (step_new w1 w2 id g' Hstep Hg Hg') as (email & issueKey & Hby).
      split; [by eapply opened_history | by eapply opened_publication].
Qed.

(** X2: in every world the service can reach, every stored generation
    has currentVersion >= 1 and a version[] that holds exactly the
    versions 1 .. currentVersion - 1, in this order and once each; every
    entry was written in the name of the generation's owner. *)
Theorem reachable_history w id g :
  reachable w →
  findById id w = Some g →
  1 ≤ Generation.currentVersion g
  ∧ version_numbers g = seqZ 1 (Generation.currentVersion g - 1)
  ∧ Z.of_nat (length (Generation.version g)) = Generation.currentVersion g - 1
  ∧ NoDup (version_numbers g)
  ∧ Forall (fun v => Version.updatedBy v = Generation.email g) (Generation.version g).
Proof.
  intros Hreach Hfind.
  destruct (reachable_history_publication w Hreach id g Hfind) as [(Hcv & Hnums & Hby) _].
  split; [done|]. split; [done|]. split; [|split; [|done]].
  - apply (f_equal length) in Hnums. unfold version_numbers in Hnums.
    rewrite length_fmap, length_seqZ in Hnums. lia.
  - rewrite Hnums. apply NoDup_seqZ.
Qed.


Lemma edited_world_reachable : reachable edited_world.
Proof.
  destruct created_world_reachable as [t0 Hrun]. exists t0.
  eapply rtc_r; [exact Hrun | apply step_content].
Qed.


Lemma reachable_history_witness :
  ∃ g, findById "g1" edited_world = Some g
       ∧ 1 ≤ Generation.currentVersion g
       ∧ version_numbers g = seqZ 1 (Generation.currentVersion g - 1)
       ∧ Z.of_nat (length (Generation.version g)) = Generation.currentVersion g - 1
       ∧ NoDup (version_numbers g)
       ∧ Forall (fun v => Version.updatedBy v = Generation.email g) (Generation.version g).
Proof.
  eexists. split; [vm_compute; reflexivity|].
  apply (reachable_history edited_world "g1").
  - exact edited_world_reachable.
  - vm_compute. reflexivity.
Defined.


(* --------------------------------------------------------------------- *)
(* What no request changes                                               *)
(* --------------------------------------------------------------------- *)

Lemma track_version_frame email content t g :
  let g' := track_version email content t g in
  Generation.email g' = Generation.email g
  ∧ Generation.issueKey g' = Generation.issueKey g
  ∧ Generation.project g' = Generation.project g
  ∧ Generation.mode g' = Generation.mode g
  ∧ Generation.status g' = Generation.status g
  ∧ Generation.error g' = Generation.error g
  ∧ Generation.createdAt g' = Generation.createdAt g
  ∧ Generation.startedAt g' = Generation.startedAt g
  ∧ Generation.completedAt g' = Generation.completedAt g
  ∧ Generation.generationTimeSeconds g' = Generation.generationTimeSeconds g
  ∧ Generation.cost g' = Generation.cost g
  ∧ Generation.tokenUsage g' = Generation.tokenUsage g
  ∧ Generation.version g `prefix_of` Generation.version g'.
Proof.
  unfold track_version. destruct (negb _ && negb _); [|by repeat split].
  destruct (existsb _ _); simpl; repeat split; try done.
  by apply prefix_app_r.
Qed.

(** X4: no request changes the owner, the issue key, the project, the
    mode, the status, the error, the times of creation, start and
    completion, the generation time, the cost or the token usage of a
    generation that it keeps; the version[] it had stays as a prefix of
    the version[] it has afterwards; and a generation that a request
    changes at all was completed. *)
Theorem step_keeps_record w w' id g g' :
  step w w' →
  findById id w = Some g → findById id w' = Some g' →
  Generation.email g' = Generation.email g
  ∧ Generation.issueKey g' = Generation.issueKey g
  ∧ Generation.project g' = Generation.project g
  ∧ Generation.mode g' = Generation.mode g
  ∧ Generation.status g' = Generation.status g
  ∧ Generation.error g' = Generation.error g
  ∧ Generation.createdAt g' = Generation.createdAt g
  ∧ Generation.startedAt g' = Generation.startedAt g
  ∧ Generation.completedAt g' = Generation.completedAt g
  ∧ Generation.generationTimeSeconds g' = Generation.generationTimeSeconds g
  ∧ Generation.cost g' = Generation.cost g
  ∧ Generation.tokenUsage g' = Generation.tokenUsage g
  ∧ Generation.version g `prefix_of` Generation.version g'
  ∧ (g' ≠ g → Generation.status g = Some completed).
Proof.
  intros Hstep Hg Hg'.
  destruct (step_lookup w w' id g g' Hstep Hg Hg') as [-> | [content Hst | published Hst]].
  - by repeat split.
  - pose proof (track_version_frame (Generation.email g) content (now w) g) as Hframe.
    cbv zeta in Hframe. unfold edited. simpl.
    destruct Hframe as (? & ? & ? & ? & ? & ? & ? & ? & ? & ? & ? & ? & ?).
    by repeat split.
  - unfold republished. simpl. by repeat split.
Qed.

Lemma step_keeps_record_witness :
  ∃ g', findById "g1" (put_content "g1" "qa@example.com" (Some "# Login") login_world).2
        = Some g'
        ∧ Generation.email g' = Generation.email login_generation
        ∧ Generation.issueKey g' = Generation.issueKey login_generation
        ∧ Generation.status g' = Generation.status login_generation
        ∧ Generation.cost g' = Generation.cost login_generation
        ∧ Generation.version login_generation `prefix_of` Generation.version g'
        ∧ (g' ≠ login_generation → Generation.status login_generation = Some completed).
Proof.
  eexists. split; [vm_compute; reflexivity|].
  destruct (step_keeps_record login_world
              (put_content "g1" "qa@example.com" (Some "# Login") login_world).2
              "g1" login_generation _
              (step_content "g1" "qa@example.com" (Some "# Login") login_world)
              eq_refl ltac:(vm_compute; reflexivity))
    as (H1 & H2 & _ & _ & H5 & _ & _ & _ & _ & _ & H11 & _ & H13 & H14).
  repeat split; assumption.
Defined.

(* --------------------------------------------------------------------- *)
(* Who may change or remove a generation                                 *)
(* --------------------------------------------------------------------- *)

Lemma put_content_refused id email content w :
  (∃ g c, content = Some c ∧ findById id w = Some g ∧ Generation.email g = email
          ∧ Generation.status g = Some completed)
  ∨ (put_content id email content w).2 = w
    ∧ ∃ code error, (put_content id email content w).1 = Json code (ErrorBody error)
                    ∧ (code = 400 ∨ code = 404).
Proof.
  unfold put_content. destruct content as [c|]; [|right; split; [done|]; eexists _, _; eauto].
  destruct (findById id w) as [g|] eqn:Hg; [|right; split; [done|]; eexists _, _; eauto].
  destruct (String.eqb_spec (Generation.email g) email) as [Hown|];
    [|right; split; [done|]; eexists _, _; eauto].
  destruct (status_is completed g) eqn:Hst;
    [|right; split; [done|]; eexists _, _; eauto].
  apply bool_decide_eq_true in Hst. left. by exists g, c.
Qed.

Lemma put_publish_refused id email published w :
  (∃ g b, published = Some b ∧ findById id w = Some g ∧ Generation.email g = email
          ∧ Generation.status g = Some completed)
  ∨ (put_publish id email published w).2 = w
    ∧ ∃ code error, (put_publish id email published w).1 = Json code (ErrorBody error)
                    ∧ (code = 400 ∨ code = 404).
Proof.
  unfold put_publish. destruct published as [b|]; [|right; split; [done|]; eexists _, _; eauto].
  destruct (findById id w) as [g|] eqn:Hg; [|right; split; [done|]; eexists _, _; eauto].
  destruct (String.eqb_spec (Generation.email g) email) as [Hown|];
    [|right; split; [done|]; eexists _, _; eauto].
  destruct (status_is completed g) eqn:Hst;
    [|right; split; [done|]; eexists _, _; eauto].
  apply bool_decide_eq_true in Hst. left. by exists g, b.
Qed.

Lemma delete_generation_refused id email w :
  (∃ g, findById id w = Some g ∧ Generation.email g = email)
  ∨ (delete_generation id email w).2 = w
    ∧ ∃ code error, (delete_generation id email w).1 = Json code (ErrorBody error)
                    ∧ (code = 403 ∨ code = 404).
Proof.
  unfold delete_generation.
  destruct (findById id w) as [g|] eqn:Hg; [|right; split; [done|]; eexists _, _; eauto].
  destruct (String.eqb_spec (Generation.email g) email) as [Hown|];
    [|right; split; [done|]; eexists _, _; eauto].
  left. by exists g.
Qed.

(** X5: the content, publish and delete routes answer 200, or change the
    world, only for a request made in the name of the generation's owner;
    the content and publish routes, moreover, only for a completed
    generation and a body of the right type. Every other request is
    answered with an error body and leaves the world as it was. *)
Theorem only_owner_changes id email content published w :
  ((put_content id email content w).2 ≠ w
   ∨ (∃ body, (put_content id email content w).1 = Json 200 body) →
   ∃ g c, content = Some c ∧ findById id w = Some g ∧ Generation.email g = email
          ∧ Generation.status g = Some completed)
  ∧ ((put_publish id email published w).2 ≠ w
     ∨ (∃ body, (put_publish id email published w).1 = Json 200 body) →
     ∃ g b, published = Some b ∧ findById id w = Some g ∧ Generation.email g = email
            ∧ Generation.status g = Some completed)
  ∧ ((delete_generation id email w).2 ≠ w
     ∨ (∃ body, (delete_generation id email w).1 = Json 200 body) →
     ∃ g, findById id w = Some g ∧ Generation.email g = email).
Proof.
  split; [|split].
  - destruct (put_content_refused id email content w)
      as [Hok | (Hsame & code & error & Hreply & Hcode)]; [done|].
    intros [Hne | [body Hbody]]; [done|].
    rewrite Hreply in Hbody. injection Hbody as -> _. lia.
  - destruct (put_publish_refused id email published w)
      as [Hok | (Hsame & code & error & Hreply & Hcode)]; [done|].
    intros [Hne | [body Hbody]]; [done|].
    rewrite Hreply in Hbody. injection Hbody as -> _. lia.
  - destruct (delete_generation_refused id email w)
      as [Hok | (Hsame & code & error & Hreply & Hcode)]; [done|].
    intros [Hne | [body Hbody]]; [done|].
    rewrite Hreply in Hbody. injection Hbody as -> _. lia.
Qed.

Lemma only_owner_changes_witness :
  (∃ g c, Some "# Login" = Some c ∧ findById "g1" login_world = Some g
          ∧ Generation.email g = "qa@example.com"
          ∧ Generation.status g = Some completed)
  ∧ (∃ g b, Some true = Some b ∧ findById "g1" login_world = Some g
            ∧ Generation.email g = "qa@example.com"
            ∧ Generation.status g = Some completed)
  ∧ (∃ g, findById "g1" login_world = Some g ∧ Generation.email g = "qa@example.com").
Proof.
  pose proof (only_owner_changes "g1" "qa@example.com" (Some "# Login") (Some true)
                login_world) as (Hedit & Hpublish & Hdelete).
  split; [|split].
  - apply Hedit. right. eexists. vm_compute. reflexivity.
  - apply Hpublish. right. eexists. vm_compute. reflexivity.
  - apply Hdelete. right. eexists. vm_compute. reflexivity.
Defined.

(** X6: the owner can delete a generation whatever its status and
    whether or not it is published. The route answers 200; afterwards the
    generation is missing for every requester (view, download, content
    and publish answer 404), while the other generations and the project
    collection, with its counts, are as before. *)
Theorem delete_generation_removes id email w g :
  findById id w = Some g →
  Generation.email g = email →
  let w' := (delete_generation id email w).2 in
  (delete_generation id email w).1 = Json 200 (MessageBody "Generation deleted successfully")
  ∧ findById id w' = None
  ∧ (∀ id', id' ≠ id → findById id' w' = findById id' w)
  ∧ projects w' = projects w
  ∧ trace w' = trace w
  ∧ ∀ requester content published,
      get_view id requester w' = NotFound
      ∧ get_download id requester w' = NotFound
      ∧ put_content id requester (Some content) w' = (NotFound, w')
      ∧ put_publish id requester (Some published) w' = (NotFound, w')
      ∧ (delete_generation id requester w').1 = Json 404 (ErrorBody "Generation not found").
Proof.
  intros Hfind Hown. unfold delete_generation.
  rewrite Hfind, Hown, eqb_string_refl. simpl.
  assert (Hgone : findById id (findByIdAndDelete id w) = None).
  { unfold findById, findByIdAndDelete. simpl. apply lookup_delete_eq. }
  split; [done|]. split; [done|]. split.
  { intros id' Hne. unfold findById, findByIdAndDelete. simpl.
    by apply lookup_delete_ne. }
  split; [done|]. split; [done|].
  intros requester content published.
  unfold get_view, get_download, put_content, put_publish, NotFound.
  rewrite Hgone. done.
Qed.

Lemma delete_generation_removes_witness :
  (delete_generation "g2" "qa@example.com" team_world).1
    = Json 200 (MessageBody "Generation deleted successfully")
  ∧ findById "g2" (delete_generation "g2" "qa@example.com" team_world).2 = None
  ∧ (∀ id', id' ≠ "g2" →
       findById id' (delete_generation "g2" "qa@example.com" team_world).2
       = findById id' team_world)
  ∧ projects (delete_generation "g2" "qa@example.com" team_world).2 = projects team_world
  ∧ trace (delete_generation "g2" "qa@example.com" team_world).2 = trace team_world
  ∧ ∀ requester content published,
      get_view "g2" requester (delete_generation "g2" "qa@example.com" team_world).2
        = NotFound
      ∧ get_download "g2" requester (delete_generation "g2" "qa@example.com" team_world).2
        = NotFound
      ∧ put_content "g2" requester (Some content)
          (delete_generation "g2" "qa@example.com" team_world).2
        = (NotFound, (delete_generation "g2" "qa@example.com" team_world).2)
      ∧ put_publish "g2" requester (Some published)
          (delete_generation "g2" "qa@example.com" team_world).2
        = (NotFound, (delete_generation "g2" "qa@example.com" team_world).2)
      ∧ (delete_generation "g2" requester
           (delete_generation "g2" "qa@example.com" team_world).2).1
        = Json 404 (ErrorBody "Generation not found").
Proof.
  apply (delete_generation_removes "g2" "qa@example.com" team_world failed_generation);
    reflexivity.
Defined.

(* --------------------------------------------------------------------- *)
(* Requests in a row                                                     *)
(* --------------------------------------------------------------------- *)

Lemma or_string_same s : JS.or_string (Some s) "" = s.
Proof. unfold JS.or_string. destruct (String.eqb_spec s ""); by subst. Qed.

(** X7: what the owner stores through the content route is what the view
    and download routes give back. After a successful edit, the view
    route answers the submitted content with the currentVersion that the
    edit reported, and the download route sends the submitted content as
    a file under the generation's file name. *)
Theorem put_content_then_read id email content w gen :
  findById id w = Some gen →
  Generation.email gen = email →
  Generation.status gen = Some completed →
  let w' := (put_content id email (Some content) w).2 in
  ∃ version data,
    (put_content id email (Some content) w).1 = Json 200 (ContentBody content version)
    ∧ get_view id email w' = Json 200 (ViewBody data)
    ∧ view_content data = content
    ∧ view_currentVersion data = version
    ∧ view_email data = email
    ∧ get_download id email w'
      = File "text/markdown"
             ("attachment; filename=" +:+ JS.dq
                +:+ JS.or_string (markdown_filename gen) "output.md" +:+ JS.dq)
             content.
Proof.
  intros Hfind Hown Hst.
  rewrite (put_content_owner id email content w gen Hfind Hown Hst). cbn [fst snd].
  pose proof (track_version_frame email content (now w) gen) as Hframe.
  cbv zeta in Hframe. destruct Hframe as (Hmail & _ & _ & _ & Hstatus & _).
  pose proof (track_version_keeps email content (now w) gen) as Hkeep.
  cbv zeta in Hkeep. destruct Hkeep as (_ & _ & _ & Hmd & _).
  eexists _, _. split; [reflexivity|].
  unfold get_view, get_download. rewrite findById_save.
  unfold status_is, markdown_content, markdown_filename. simpl.
  rewrite Hmail, Hstatus, Hown, eqb_string_refl, Hst, Hmd. simpl.
  split; [reflexivity|]. simpl.
  assert (Hsame : (if String.eqb content "" then "" else content) = content).
  { destruct (String.eqb_spec content ""); by subst. }
  rewrite Hsame. repeat split; try done.
  destruct (Generation.result_markdown gen); done.
Qed.

Lemma put_content_then_read_witness :
  ∃ version data,
    (put_content "g1" "qa@example.com" (Some "# Login") login_world).1
      = Json 200 (ContentBody "# Login" version)
    ∧ get_view "g1" "qa@example.com"
        (put_content "g1" "qa@example.com" (Some "# Login") login_world).2
      = Json 200 (ViewBody data)
    ∧ view_content data = "# Login"
    ∧ view_currentVersion data = version
    ∧ view_email data = "qa@example.com"
    ∧ get_download "g1" "qa@example.com"
        (put_content "g1" "qa@example.com" (Some "# Login") login_world).2
      = File "text/markdown"
             ("attachment; filename=" +:+ JS.dq
                +:+ JS.or_string (markdown_filename login_generation) "output.md"
                +:+ JS.dq)
             "# Login".
Proof.
  apply (put_content_then_read "g1" "qa@example.com" "# Login" login_world login_generation);
    reflexivity.
Defined.

(** X8: publication opens a completed generation to everybody and
    unpublication closes it again. After the owner has published it,
    every requester gets its content from the view and download routes,
    and the view shows it as published by the owner; after the owner has
    unpublished it, every other requester gets 404 "Not found" from
    both, while the owner still gets the content. *)
Theorem put_publish_then_read id email w gen :
  findById id w = Some gen →
  Generation.email gen = email →
  Generation.status gen = Some completed →
  (∀ requester,
     let w' := (put_publish id email (Some true) w).2 in
     (∃ data, get_view id requester w' = Json 200 (ViewBody data)
              ∧ view_content data = stored_content gen
              ∧ view_published data = true
              ∧ view_publishedBy data = Some email
              ∧ view_publishedAt data = Some (now w))
     ∧ get_download id requester w' = download_of gen)
  ∧ (∀ requester,
       let w' := (put_publish id email (Some false) w).2 in
       if String.eqb email requester
       then (∃ data, get_view id requester w' = Json 200 (ViewBody data)
                     ∧ view_content data = stored_content gen
                     ∧ view_published data = false)
            ∧ get_download id requester w' = download_of gen
       else get_view id requester w' = NotFound
            ∧ get_download id requester w' = NotFound).
Proof.
  intros Hfind Hown Hst. split; intros requester.
  - rewrite (put_publish_owner id email true w gen Hfind Hown Hst). cbn [fst snd].
    unfold get_view, get_download, download_of, stored_content. rewrite findById_save.
    unfold status_is, markdown_content, markdown_filename. simpl. rewrite Hst.
    rewrite bool_decide_eq_true_2 by done. rewrite andb_false_r. simpl.
    split; [|done]. eexists. split; [reflexivity|]. done.
  - rewrite (put_publish_owner id email false w gen Hfind Hown Hst). cbn [fst snd].
    unfold get_view, get_download, download_of, stored_content, NotFound.
    rewrite findById_save.
    unfold status_is, markdown_content, markdown_filename. simpl. rewrite Hst, Hown.
    rewrite bool_decide_eq_true_2 by done.
    destruct (String.eqb email requester); simpl; [|done].
    split; [|done]. eexists. split; [reflexivity|]. done.
Qed.

Lemma put_publish_then_read_witness :
  (∀ requester,
     let w' := (put_publish "g1" "qa@example.com" (Some true) login_world).2 in
     (∃ data, get_view "g1" requester w' = Json 200 (ViewBody data)
              ∧ view_content data = stored_content login_generation
              ∧ view_published data = true
              ∧ view_publishedBy data = Some "qa@example.com"
              ∧ view_publishedAt data = Some (now login_world))
     ∧ get_download "g1" requester w' = download_of login_generation)
  ∧ (∀ requester,
       let w' := (put_publish "g1" "qa@example.com" (Some false) login_world).2 in
       if String.eqb "qa@example.com" requester
       then (∃ data, get_view "g1" requester w' = Json 200 (ViewBody data)
                     ∧ view_content data = stored_content login_generation
                     ∧ view_published data = false)
            ∧ get_download "g1" requester w' = download_of login_generation
       else get_view "g1" requester w' = NotFound
            ∧ get_download "g1" requester w' = NotFound).
Proof.
  apply (put_publish_then_read "g1" "qa@example.com" login_world login_generation);
    reflexivity.
Defined.

(* --------------------------------------------------------------------- *)
(* What the list shows                                                   *)
(* --------------------------------------------------------------------- *)

Lemma list_filter_canView filterType email g :
  list_filter filterType email g = true →
  canView g email = true
  ∧ (filterType = "mine" → Generation.email g = email)
  ∧ (filterType = "published" →
       Generation.published g = true ∧ Generation.status g = Some completed).
Proof.
  unfold list_filter, canView.
  destruct (String.eqb_spec filterType "mine") as [->|Hmine].
  - intros Hown. rewrite Hown. split; [done|]. split; [|done].
    intros _. by apply String.eqb_eq.
  - destruct (String.eqb_spec filterType "published") as [->|Hpub].
    + intros Hvis. rewrite Hvis, orb_true_r. split; [done|]. split; [done|].
      intros _. apply andb_true_iff in Hvis as [Hp Hs].
      split; [done|]. by apply bool_decide_eq_true in Hs.
    + intros Hvis. done.
Qed.

(** X9: whatever the page, the limit and the filter, every generation
    that the list route returns is stored under the id it is listed with
    and may be viewed by the requester (it is the requester's own, or it
    is published and completed). With filter=mine every item is the
    requester's own; with filter=published every item is published and
    completed. *)
Theorem get_list_viewable email page limit filter w code items pagination :
  get_list email page limit filter w = Some (Json code (ListBody items pagination)) →
  ∀ id g, (id, g) ∈ items →
    findById id w = Some g
    ∧ canView g email = true
    ∧ (filter = Some "mine" → Generation.email g = email)
    ∧ (filter = Some "published" →
         Generation.published g = true ∧ Generation.status g = Some completed).
Proof.
  unfold get_list. destruct (list_params page limit) as [[p l] s].
  destruct p as [|p]; [done|]. destruct l as [|l]; [done|]. destruct s as [|s]; [done|].
  intros [= _ <- _] id g Hin.
  apply subseteq_take, subseteq_drop in Hin.
  unfold sort_desc in Hin. rewrite merge_sort_Permutation in Hin.
  unfold find in Hin. apply list_elem_of_In, filter_In in Hin as [Hin Htest].
  apply list_elem_of_In, elem_of_map_to_list in Hin. simpl in Htest.
  apply list_filter_canView in Htest as (Hview & Hmine & Hpub).
  split; [done|]. split; [done|]. split.
  - intros ->. by apply Hmine.
  - intros ->. by apply Hpub.
Qed.

Lemma get_list_viewable_witness :
  get_list "qa@example.com" (Some "1") (Some "5") (Some "published") team_world
    = Some (Json 200 (ListBody [("g6", shared_generation)]
                        {| pg_page := 1; pg_limit := 5; pg_total := 1; pg_pages := 1 |}))
  ∧ findById "g6" team_world = Some shared_generation
  ∧ canView shared_generation "qa@example.com" = true
  ∧ (Some "published" = Some "mine" →
       Generation.email shared_generation = "qa@example.com")
  ∧ (Some "published" = Some "published" →
       Generation.published shared_generation = true
       ∧ Generation.status shared_generation = Some completed).
Proof.
  split; [vm_compute; reflexivity|].
  apply (get_list_viewable "qa@example.com" (Some "1") (Some "5") (Some "published")
           team_world 200 [("g6", shared_generation)]
           {| pg_page := 1; pg_limit := 5; pg_total := 1; pg_pages := 1 |}).
  - vm_compute. reflexivity.
  - apply list_elem_of_singleton. reflexivity.
Defined.

Lemma ceil_div_bounds a b :
  0 ≤ a → 0 < b →
  a ≤ JS.ceil_div a b * b ∧ (JS.ceil_div a b - 1) * b < a ∧ 0 ≤ JS.ceil_div a b.
Proof.
  intros Ha Hb. unfold JS.ceil_div.
  pose proof (Z.div_mod (a + b - 1) b ltac:(lia)) as Hdm.
  pose proof (Z.mod_pos_bound (a + b - 1) b Hb) as Hmod.
  assert (Hq : 0 ≤ (a + b - 1) / b) by (apply Z.div_pos; lia).
  revert Hdm Hmod Hq.
  generalize ((a + b - 1) / b), ((a + b - 1) mod b). intros q r Hdm Hmod Hq.
  repeat split; lia.
Qed.

(** X10: for a page and a limit that parse as integers, the list route
    returns min(limit, total - skip) items (none when skip is beyond the
    total), where limit and skip are the clamped values; pages is the
    least number of pages of this limit that hold all matches: pages x
    limit >= total > (pages - 1) x limit, and pages = 0 exactly when
    nothing matches; a page beyond pages is empty and a page before the
    last one is full. *)
Theorem get_list_page_size email page limit filter w p l :
  JS.parseInt (JS.or_string page "1") = JS.Int p →
  JS.parseInt (JS.or_string limit "10") = JS.Int l →
  ∃ items pg,
    get_list email page limit filter w = Some (Json 200 (ListBody items pg))
    ∧ Z.of_nat (length items)
      = Z.min (pg_limit pg) (Z.max 0 (pg_total pg - (pg_page pg - 1) * pg_limit pg))
    ∧ pg_total pg ≤ pg_pages pg * pg_limit pg
    ∧ (0 < pg_total pg → (pg_pages pg - 1) * pg_limit pg < pg_total pg)
    ∧ (pg_pages pg = 0 ↔ pg_total pg = 0)
    ∧ (pg_pages pg < pg_page pg → items = [])
    ∧ (pg_page pg < pg_pages pg → Z.of_nat (length items) = pg_limit pg).
Proof.
  intros Hp Hl.
  destruct (get_list_numeric email page limit filter w p l Hp Hl)
    as (items & pg & Hrun & Hpage & _ & Hlimit & _ & Htotal & Hpages & Hitems & _ & _).
  exists items, pg. split; [done|].
  assert (Hnonneg : 0 ≤ pg_total pg) by (rewrite Htotal; lia).
  destruct (ceil_div_bounds (pg_total pg) (pg_limit pg) Hnonneg ltac:(lia))
    as (Hcover & Hleast & Hpos).
  rewrite <- Hpages in Hcover, Hleast, Hpos.
  assert (Hlen : Z.of_nat (length items)
                 = Z.min (pg_limit pg)
                     (Z.max 0 (pg_total pg - (pg_page pg - 1) * pg_limit pg))).
  { rewrite Hitems, length_take, length_drop.
    rewrite (Permutation_length (sort_desc_perm _)), Htotal. nia. }
  split; [done|]. split; [lia|]. split; [lia|]. split; [split; intros; nia|].
  split.
  - intros Hbeyond. apply length_zero_iff_nil. nia.
  - intros Hbefore. nia.
Qed.

Lemma get_list_page_size_witness :
  ∃ items pg,
    get_list "qa@example.com" (Some "2") (Some "2") None team_world
      = Some (Json 200 (ListBody items pg))
    ∧ Z.of_nat (length items)
      = Z.min (pg_limit pg) (Z.max 0 (pg_total pg - (pg_page pg - 1) * pg_limit pg))
    ∧ pg_total pg ≤ pg_pages pg * pg_limit pg
    ∧ (0 < pg_total pg → (pg_pages pg - 1) * pg_limit pg < pg_total pg)
    ∧ (pg_pages pg = 0 ↔ pg_total pg = 0)
    ∧ (pg_pages pg < pg_page pg → items = [])
    ∧ (pg_page pg < pg_pages pg → Z.of_nat (length items) = pg_limit pg).
Proof.
  apply (get_list_page_size "qa@example.com" (Some "2") (Some "2") None team_world 2 2);
    reflexivity.
Defined.

(* --------------------------------------------------------------------- *)
(* Bounds on the retry loop, whatever the model client answers           *)
(* --------------------------------------------------------------------- *)

Lemma attempt_result env request w :
  now (attempt env request w).2 = now w
  ∧ ∀ result, (attempt env request w).1 = Resolved result → result_content result ≠ "".
Proof.
  unfold attempt.
  destruct (chat_completion env (calls w) request) as [response|message]; [|done].
  destruct (choice_content response) as [text|]; [|done].
  destruct (JS.falsy text) eqn:Hempty; [done|].
  split; [done|]. simpl. intros result [= <-]. simpl. by apply falsy_false.
Qed.

Lemma slept_app evs1 evs2 : slept (evs1 ++ evs2) = slept evs1 + slept evs2.
Proof.
  induction evs1 as [|e evs1 IH]; simpl; [lia|]. destruct e; lia.
Qed.

Lemma model_calls_app evs1 evs2 :
  model_calls (evs1 ++ evs2) = (model_calls evs1 + model_calls evs2)%nat.
Proof. unfold model_calls. by rewrite List.filter_app, length_app. Qed.

Lemma jira_calls_app evs1 evs2 :
  jira_calls (evs1 ++ evs2) = (jira_calls evs1 + jira_calls evs2)%nat.
Proof. unfold jira_calls. by rewrite List.filter_app, length_app. Qed.

Lemma retry_loop_bounded this env request : ∀ fuel retryCount w,
  0 ≤ retryCount ≤ maxRetries this →
  (Z.to_nat (maxRetries this + 1 - retryCount) < fuel)%nat →
  ∃ result w' evs,
    retry_loop fuel this env request retryCount w = Some (result, w')
    ∧ extends w evs w'
    ∧ Forall (loop_event request) evs
    ∧ (1 ≤ model_calls evs)%nat
    ∧ Z.of_nat (model_calls evs) ≤ maxRetries this + 1 - retryCount
    ∧ now w' = now w + slept evs
    ∧ 0 ≤ slept evs ≤ (2 ^ (maxRetries this + 1) - 2 ^ (retryCount + 1)) * 1000
    ∧ result ≠ Resolved None
    ∧ ∀ r, result = Resolved (Some r) → result_content r ≠ "".
Proof.
  induction fuel as [|fuel IH]; intros retryCount w Hcount Hfuel; [lia|].
  cbn [retry_loop].
  destruct (Z.leb_spec retryCount (maxRetries this)); [|lia].
  pose proof (attempt_extends env request w) as Hext.
  pose proof (attempt_result env request w) as [Hnow Hcontent].
  assert (Hpow : 2 ^ (retryCount + 1) ≤ 2 ^ (maxRetries this + 1))
    by (apply Z.pow_le_mono_r; lia).
  destruct (attempt env request w) as [[ok|message] w1]; simpl in Hext, Hnow, Hcontent.
  - exists (Resolved (Some ok)), w1, [ChatCompletion request].
    assert (Hc1 : model_calls [ChatCompletion request] = 1%nat) by reflexivity.
    assert (Hs1 : slept [ChatCompletion request] = 0) by reflexivity.
    split; [done|]. split; [done|]. split; [repeat constructor|].
    rewrite Hc1, Hs1.
    split; [lia|]. split; [lia|]. split; [lia|].
    split; [lia|]. split; [done|]. intros r [= <-]. by apply Hcontent.
  - destruct (Z.leb_spec (retryCount + 1) (maxRetries this)).
    + destruct (IH (retryCount + 1) (sleep (2 ^ (retryCount + 1) * 1000) w1))
        as (result & w' & evs & Hrun & Hext' & Hall & Hone & Hmost & Htime & Hslept & Hdef & Htext);
        [lia | lia |].
      exists result, w',
        ([ChatCompletion request] ++ [Sleep (2 ^ (retryCount + 1) * 1000)] ++ evs)%list.
      assert (Hdouble : 2 ^ (retryCount + 1 + 1) = 2 * 2 ^ (retryCount + 1)).
      { replace (retryCount + 1 + 1) with (Z.succ (retryCount + 1)) by lia.
        apply Z.pow_succ_r. lia. }
      assert (Hwait : 0 < 2 ^ (retryCount + 1)) by (apply Z.pow_pos_nonneg; lia).
      split; [done|]. split.
      { eapply extends_trans; [exact Hext|].
        eapply extends_trans; [apply extends_sleep | exact Hext']. }
      split.
      { constructor; [by left|]. constructor; [right; by eexists | done]. }
      rewrite !model_calls_app, !slept_app.
      assert (Hc1 : model_calls [ChatCompletion request] = 1%nat) by reflexivity.
      assert (Hc2 : model_calls [Sleep (2 ^ (retryCount + 1) * 1000)] = 0%nat)
        by reflexivity.
      assert (Hs1 : slept [ChatCompletion request] = 0) by reflexivity.
      assert (Hs2 : slept [Sleep (2 ^ (retryCount + 1) * 1000)]
                    = 2 ^ (retryCount + 1) * 1000) by (cbn [slept foldr]; lia).
      assert (Hn : now (sleep (2 ^ (retryCount + 1) * 1000) w1)
                   = now w + 2 ^ (retryCount + 1) * 1000) by (cbn [now sleep]; lia).
      rewrite Hc1, Hc2, Hs1, Hs2.
      split; [lia|]. split; [lia|]. split; [lia|]. split; [lia|]. done.
    + exists (Rejected message), w1, [ChatCompletion request].
      assert (Hc1 : model_calls [ChatCompletion request] = 1%nat) by reflexivity.
      assert (Hs1 : slept [ChatCompletion request] = 0) by reflexivity.
      split; [done|]. split; [done|]. split; [repeat constructor|].
      rewrite Hc1, Hs1.
      split; [lia|]. split; [lia|]. split; [lia|].
      split; [lia|]. split; done.
Qed.

(** X11: whatever the model client answers, generateTestCase with
    maxRetries = m >= 0 settles after at least one and at most m + 1
    calls, all with the same request, and after waits of at most
    (2^(m+1) - 2) seconds in total; the clock of the world advances by
    exactly these waits and nothing else in the world changes. It never
    resolves with undefined, and a result it resolves with has a
    non-empty content. *)
Theorem generateTestCase_bounded this env context issueKey autoMode w :
  0 ≤ maxRetries this →
  ∃ result w' evs,
    generateTestCase this env context issueKey autoMode w = Some (result, w')
    ∧ generations w' = generations w
    ∧ projects w' = projects w
    ∧ trace w' = (trace w ++ evs)%list
    ∧ Forall (loop_event (chat_request this context issueKey autoMode)) evs
    ∧ (1 ≤ model_calls evs)%nat
    ∧ Z.of_nat (model_calls evs) ≤ maxRetries this + 1
    ∧ now w' = now w + slept evs
    ∧ 0 ≤ slept evs ≤ (2 ^ (maxRetries this + 1) - 2) * 1000
    ∧ result ≠ Resolved None
    ∧ ∀ r, result = Resolved (Some r) → result_content r ≠ "".
Proof.
  intros Hmax. unfold generateTestCase.
  destruct (retry_loop_bounded this env (chat_request this context issueKey autoMode)
              (S (Z.to_nat (maxRetries this + 1))) 0 w)
    as (result & w' & evs & Hrun & (Hg & Hp & Ht) & Hall & Hone & Hmost & Htime & Hslept
        & Hdef & Htext); [lia | lia |].
  exists result, w', evs. rewrite Z.sub_0_r in Hmost.
  change (2 ^ (0 + 1)) with 2 in Hslept.
  split; [done|]. split; [done|]. split; [done|]. split; [done|]. split; [done|].
  split; [done|]. split; [done|]. split; [done|]. split; [done|]. split; done.
Qed.

Lemma generateTestCase_bounded_witness :
  ∃ result w' evs,
    generateTestCase default_service limited_env "Title: x Description:y" "KAN-10" None
      (empty_world 1000)
      = Some (result, w')
    ∧ generations w' = generations (empty_world 1000)
    ∧ projects w' = projects (empty_world 1000)
    ∧ trace w' = (trace (empty_world 1000) ++ evs)%list
    ∧ Forall (loop_event (chat_request default_service "Title: x Description:y" "KAN-10"
                            None)) evs
    ∧ (1 ≤ model_calls evs)%nat
    ∧ Z.of_nat (model_calls evs) ≤ maxRetries default_service + 1
    ∧ now w' = now (empty_world 1000) + slept evs
    ∧ 0 ≤ slept evs ≤ (2 ^ (maxRetries default_service + 1) - 2) * 1000
    ∧ result ≠ Resolved None
    ∧ ∀ r, result = Resolved (Some r) → result_content r ≠ "".
Proof.
  apply (generateTestCase_bounded default_service limited_env "Title: x Description:y"
           "KAN-10" None (empty_world 1000)).
  simpl. lia.
Defined.

(** X12: whatever JIRA and the model client answer, a request to the
    testcases route calls JIRA at most once and the model at most four
    times, and spends at most 14 seconds in waits; the clock advances by
    these waits only. The model is called only after JIRA has found the
    issue. *)
Theorem post_testcases_calls env email issueKey w reply w' :
  post_testcases env email issueKey w = Some (reply, w') →
  ∃ evs,
    trace w' = (trace w ++ evs)%list
    ∧ (jira_calls evs ≤ 1)%nat
    ∧ (model_calls evs ≤ 4)%nat
    ∧ now w' = now w + slept evs
    ∧ 0 ≤ slept evs ≤ 14000
    ∧ ((0 < model_calls evs)%nat →
         jira_calls evs = 1%nat
         ∧ ∃ getIssue fields,
             getJiraService env = inr getIssue
             ∧ getIssue (JS.or_string issueKey "") = IssueFound fields).
Proof.
  unfold post_testcases. intros Hrun.
  assert (Hnone : model_calls [] = 0%nat ∧ jira_calls [] = 0%nat ∧ slept [] = 0) by done.
  destruct Hnone as (Hm0 & Hj0 & Hs0).
  destruct (JS.falsy (JS.or_string issueKey "")).
  { injection Hrun as <- <-. exists []. rewrite app_nil_r, Hm0, Hj0, Hs0.
    repeat split; first [lia | exfalso; lia]. }
  pose proof (open_generation_effect env (JS.or_string issueKey "") email w) as Hopen.
  destruct (open_generation env (JS.or_string issueKey "") email w) as [g0 w1].
  destruct Hopen as (_ & Ht1 & Hn1 & _).
  destruct (getJiraService env) as [message|getIssue] eqn:Hjira.
  { injection Hrun as <- <-. exists []. rewrite app_nil_r, Hm0, Hj0, Hs0, Ht1, Hn1.
    repeat split; first [lia | exfalso; lia]. }
  set (fetch := JiraGetIssue (JS.or_string issueKey "")) in *.
  assert (Hfetch : model_calls [fetch] = 0%nat ∧ jira_calls [fetch] = 1%nat
                   ∧ slept [fetch] = 0) by done.
  destruct Hfetch as (Hm1 & Hj1 & Hs1).
  destruct (getIssue (JS.or_string issueKey "")) as [fields|error] eqn:Hissue.
  - unfold generate in Hrun.
    destruct (getOpenAIService env) as [message|openai] eqn:Hopenai.
    + injection Hrun as <- <-. exists [fetch]. simpl trace. simpl now.
      rewrite Ht1, Hn1, Hm1, Hj1, Hs1. repeat split; first [lia | exfalso; lia].
    + pose proof (getOpenAIService_maxRetries env openai Hopenai) as Hmax.
      unfold generateTestCase in Hrun. rewrite Hmax in Hrun.
      destruct (retry_loop_bounded openai env
                  (chat_request openai (issue_context fields) (JS.or_string issueKey "") None)
                  (S (Z.to_nat (3 + 1))) 0 (emit fetch w1))
        as (result & w2 & evs & Hloop & (_ & _ & Ht2) & Hall & Hone & Hmost & Htime
            & Hslept & _); [lia | rewrite Hmax; simpl; lia |].
      rewrite Hloop in Hrun. simpl in Hrun.
      rewrite Hmax in Hmost, Hslept.
      change ((2 ^ (3 + 1) - 2 ^ (0 + 1)) * 1000) with 14000 in Hslept.
      assert (Hjira_none : jira_calls evs = 0%nat).
      { clear -Hall. induction Hall as [|e evs [-> | [ms ->]] _ IH]; [done| |]; exact IH. }
      assert (Hshape : trace w2 = (trace w ++ fetch :: evs)%list
                       ∧ now w2 = now w + slept (fetch :: evs)).
      { split.
        - rewrite Ht2. simpl. rewrite Ht1, <- app_assoc. done.
        - rewrite Htime. simpl. lia. }
      destruct Hshape as [Htrace Hnow].
      exists (fetch :: evs).
      change (fetch :: evs) with ([fetch] ++ evs)%list.
      change (fetch :: evs) with ([fetch] ++ evs)%list in Htrace, Hnow.
      rewrite model_calls_app, jira_calls_app, slept_app in *.
      rewrite Hm1, Hj1, Hs1, Hjira_none in *.
      destruct result as [[result|]|message]; injection Hrun as <- <-; simpl trace; simpl now;
        (split; [done|]; split; [lia|]; split; [lia|]; split; [lia|]; split; [lia|];
         intros _; split; [lia|]; by eexists _, _).
  - injection Hrun as <- <-. exists [fetch]. simpl trace. simpl now.
    rewrite Ht1, Hn1, Hm1, Hj1, Hs1. repeat split; first [lia | exfalso; lia].
Qed.

Lemma post_testcases_calls_witness :
  ∃ reply w' evs,
    post_testcases limited_env "qa@example.com" (Some "KAN-10") (empty_world 1000)
      = Some (reply, w')
    ∧ trace w' = (trace (empty_world 1000) ++ evs)%list
    ∧ (jira_calls evs ≤ 1)%nat
    ∧ (model_calls evs ≤ 4)%nat
    ∧ now w' = now (empty_world 1000) + slept evs
    ∧ 0 ≤ slept evs ≤ 14000
    ∧ ((0 < model_calls evs)%nat →
         jira_calls evs = 1%nat
         ∧ ∃ getIssue fields,
             getJiraService limited_env = inr getIssue
             ∧ getIssue (JS.or_string (Some "KAN-10") "") = IssueFound fields).
Proof.
  eexists _, _.
  assert (Hrun : post_testcases limited_env "qa@example.com" (Some "KAN-10")
                   (empty_world 1000) = Some (?[reply], ?[w']))
    by (vm_compute; reflexivity).
  destruct (post_testcases_calls limited_env "qa@example.com" (Some "KAN-10")
              (empty_world 1000) _ _ Hrun) as (evs & Hevs).
  exists evs. split; [exact Hrun | exact Hevs].
Defined.

(* --------------------------------------------------------------------- *)
(* utils/projectUtils.js: the project key of an issue key                *)
(* --------------------------------------------------------------------- *)

Lemma upper_char_facts c :
  is_alnum (JS.upper_char c) = is_alnum c
  ∧ JS.upper_char (JS.upper_char c) = JS.upper_char c
  ∧ (is_alnum c = true → is_upper_alnum (JS.upper_char c) = true)
  ∧ (JS.upper_char c = "-"%char ↔ c = "-"%char).
Proof.
  destruct c as [[] [] [] [] [] [] [] []]; vm_compute; repeat split; congruence.
Qed.

Lemma span_alnum_spec s :
  let '(run, rest) := span_alnum s in
  s = run +:+ rest
  ∧ string_forall is_alnum run = true
  ∧ match rest with
    | String c _ => is_alnum c = false
    | EmptyString => True
    end.
Proof.
  induction s as [|c s IH]; simpl; [done|].
  destruct (is_alnum c) eqn:Hc.
  - destruct (span_alnum s) as [run rest]. destruct IH as (-> & Hrun & Hrest).
    simpl. rewrite Hc. done.
  - simpl. by rewrite Hc.
Qed.

Lemma span_alnum_hyphen run rest :
  string_forall is_alnum run = true →
  span_alnum (run +:+ "-" +:+ rest) = (run, "-" +:+ rest).
Proof.
  induction run as [|c run IH]; simpl; [done|].
  intros [Hc Hrun]%andb_true_iff. rewrite Hc, (IH Hrun). done.
Qed.

Lemma toUpperCase_facts s :
  JS.toUpperCase (JS.toUpperCase s) = JS.toUpperCase s
  ∧ (string_forall is_alnum s = true →
       string_forall is_upper_alnum (JS.toUpperCase s) = true)
  ∧ (JS.toUpperCase s = "" ↔ s = "")
  ∧ String.length (JS.toUpperCase s) = String.length s.
Proof.
  induction s as [|c s (IH1 & IH2 & IH3 & IH4)]; simpl; [done|].
  destruct (upper_char_facts c) as (_ & Hidem & Hupper & _).
  rewrite Hidem, IH1, IH4. split; [done|]. split; [|done].
  intros [Hc Hs]%andb_true_iff. rewrite (Hupper Hc), (IH2 Hs). done.
Qed.

Lemma span_alnum_upper s :
  span_alnum (JS.toUpperCase s)
  = (JS.toUpperCase (span_alnum s).1, JS.toUpperCase (span_alnum s).2).
Proof.
  induction s as [|c s IH]; simpl; [done|].
  destruct (upper_char_facts c) as (Halnum & _). rewrite Halnum.
  destruct (is_alnum c); [|done].
  rewrite IH. by destruct (span_alnum s).
Qed.

Lemma extractProject_iff issueKey key :
  extractProject issueKey = Some key ↔
  ∃ run rest, run ≠ "" ∧ string_forall is_alnum run = true
              ∧ issueKey = run +:+ "-" +:+ rest
              ∧ key = JS.toUpperCase run.
Proof.
  split.
  - unfold extractProject. destruct (JS.falsy issueKey); [done|].
    pose proof (span_alnum_spec issueKey) as Hspan.
    destruct (span_alnum issueKey) as [run rest].
    destruct Hspan as (Heq & Hrun & _).
    destruct run as [|c run]; [done|]. destruct rest as [|h rest]; [done|].
    destruct (Ascii.eqb_spec h "-") as [->|Hne].
    + intros [= <-]. exists (String c run), rest. by repeat split.
    + destruct h as [[] [] [] [] [] [] [] []]; done.
  - intros (run & rest & Hne & Hrun & -> & ->).
    unfold extractProject.
    destruct run as [|c run]; [done|].
    rewrite (span_alnum_hyphen (String c run) rest Hrun). done.
Qed.

Lemma extractProject_upper issueKey key :
  extractProject issueKey = Some key →
  key ≠ "" ∧ string_forall is_upper_alnum key = true ∧ JS.toUpperCase key = key.
Proof.
  intros (run & rest & Hne & Hrun & _ & ->)%extractProject_iff.
  destruct (toUpperCase_facts run) as (Hidem & Hupper & Hempty & _).
  split; [by rewrite Hempty|]. split; [by apply Hupper | done].
Qed.

(** X13: extractProject answers a key exactly for the issue keys that
    start with a non-empty run of letters and digits followed by a
    hyphen, and the key is this run in upper case: it is never empty, it
    is made of digits and upper-case letters only, and it is the same for
    an issue key and for its upper-case form. Every other string, the
    empty one included, has no project key. *)
Theorem extractProject_spec issueKey :
  (∀ key, extractProject issueKey = Some key ↔
     ∃ run rest, run ≠ "" ∧ string_forall is_alnum run = true
                 ∧ issueKey = run +:+ "-" +:+ rest
                 ∧ key = JS.toUpperCase run)
  ∧ (∀ key, extractProject issueKey = Some key →
       key ≠ "" ∧ string_forall is_upper_alnum key = true
       ∧ JS.toUpperCase key = key)
  ∧ extractProject (JS.toUpperCase issueKey) = extractProject issueKey.
Proof.
  split; [intros key; apply extractProject_iff|].
  split; [intros key; apply extractProject_upper|].
  unfold extractProject.
  assert (Hfalsy : JS.falsy (JS.toUpperCase issueKey) = JS.falsy issueKey).
  { destruct issueKey; done. }
  rewrite Hfalsy, span_alnum_upper. destruct (JS.falsy issueKey); [done|].
  destruct (span_alnum issueKey) as [run rest]. simpl.
  destruct run as [|c run]; [done|]. simpl.
  destruct rest as [|h rest]; [done|]. simpl.
  destruct (upper_char_facts c) as (_ & Hidem & _).
  destruct (toUpperCase_facts run) as (Hidem' & _).
  destruct (Ascii.eqb_spec h "-") as [->|Hne].
  - simpl. by rewrite Hidem, Hidem'.
  - destruct (upper_char_facts h) as (_ & _ & _ & Hhyphen).
    destruct (Ascii.eqb_spec (JS.upper_char h) "-") as [Heq|Hne'].
    + by apply Hhyphen in Heq.
    + destruct h as [[] [] [] [] [] [] [] []]; try done.
Qed.

Lemma extractProject_spec_witness :
  (∃ run rest, run ≠ "" ∧ string_forall is_alnum run = true
               ∧ "sdet-45" = run +:+ "-" +:+ rest
               ∧ "SDET" = JS.toUpperCase run)
  ∧ ("SDET" ≠ "" ∧ string_forall is_upper_alnum "SDET" = true
     ∧ JS.toUpperCase "SDET" = "SDET").
Proof.
  destruct (extractProject_spec "sdet-45") as (Hiff & Hkey & _).
  split.
  - apply (proj1 (Hiff "SDET")). reflexivity.
  - apply (Hkey "SDET"). reflexivity.
Defined.

(* --------------------------------------------------------------------- *)
(* The project of a generation                                           *)
(* --------------------------------------------------------------------- *)

Lemma countByProject_positive pid id g w :
  Generation.project g = Some pid →
  1 ≤ countByProject pid (set_generations (<[id := g]> (generations w)) w).
Proof.
  intros Hproject. unfold countByProject. simpl.
  rewrite map_filter_insert_True by done.
  pose proof (map_size_ne_0_lookup_2
                (<[id := g]> (filter (fun kv : string * Generation.t =>
                                        Generation.project kv.2 = Some pid)
                                     (generations w)))
                id (mk_is_Some _ _ (lookup_insert_eq _ id g))) as Hsize.
  lia.
Qed.

(* Lines 164-194 of the testcases route, for an issue key that has a
   project key, in a world whose projects are stored under their keys. *)
Lemma open_generation_linked env issueKey email w key :
  extractProject issueKey = Some key →
  projects_keyed w →
  ∃ g w' p,
    open_generation env issueKey email w = (g, w')
    ∧ projects w' !! key = Some p
    ∧ Generation.project g = Some (Project._id p)
    ∧ Project.projectKey p = key
    ∧ Project.lastGeneratedAt p = now w
    ∧ Project.totalGenerations p = countByProject (Project._id p) w'
    ∧ 1 ≤ Project.totalGenerations p
    ∧ match projects w !! key with
      | Some old =>
          Project._id p = Project._id old
          ∧ Project.createdBy p = Project.createdBy old
          ∧ Project.firstGeneratedAt p = Project.firstGeneratedAt old
      | None =>
          Project._id p = new_project_id env
          ∧ Project.createdBy p = email
          ∧ Project.firstGeneratedAt p = now w
      end
    ∧ (∀ other, other ≠ key → projects w' !! other = projects w !! other)
    ∧ projects_keyed w'.
Proof.
  intros Hkey Hkeyed.
  assert (Hupper : JS.toUpperCase key = key).
  { by destruct (extractProject_upper issueKey key Hkey) as (_ & _ & ?). }
  unfold open_generation, associate_project, findOrCreateProject. rewrite Hkey, Hupper.
  set (project :=
         match projects w !! key with
         | Some project => Project.set_lastGeneratedAt (now w) project
         | None => _
         end).
  assert (Hpk : Project.projectKey project = key).
  { unfold project. destruct (projects w !! key) as [old|] eqn:Hold; [|done].
    simpl. by apply Hkeyed. }
  cbn [set_projects projects now generations save set_generations trace recount_project].
  unfold recount_project. cbn [projects save set_generations set_projects].
  rewrite Hpk, lookup_insert_eq.
  eexists _, _, _. split; [reflexivity|]. cbn [projects set_projects].
  split; [apply lookup_insert_eq|]. cbn.
  split; [done|]. split; [done|].
  split; [unfold project; by destruct (projects w !! key)|].
  split; [done|]. split.
  { apply (countByProject_positive (Project._id project) (new_generation_id env)).
    done. }
  split; [unfold project; by destruct (projects w !! key)|]. split.
  - intros other Hne. by rewrite !lookup_insert_ne.
  - intros k p. cbn. rewrite insert_insert_eq.
    destruct (decide (key = k)) as [<-|Hne].
    + rewrite lookup_insert_eq. by intros [= <-].
    + rewrite lookup_insert_ne by done. apply Hkeyed.
Qed.

Lemma countByProject_resave pid id g g' w w' :
  generations w !! id = Some g →
  Generation.project g' = Generation.project g →
  generations w' = <[id := g']> (generations w) →
  countByProject pid w' = countByProject pid w.
Proof.
  intros Hg Hproject Hgen. unfold countByProject. rewrite Hgen.
  apply (f_equal Z.of_nat).
  rewrite map_filter_insert. simpl. rewrite Hproject.
  destruct (decide (Generation.project g = Some pid)) as [Hyes|Hno].
  - apply map_size_insert_Some. exists g.
    apply map_lookup_filter_Some. by split.
  - rewrite map_filter_delete_not; [done|].
    intros y Hy. simpl. congruence.
Qed.

(* After the generation has been opened, the testcases route leaves the
   projects alone and stores the generation with the project it had. *)
Lemma post_testcases_after_open env email issueKey w reply w' :
  post_testcases env email issueKey w = Some (reply, w') →
  (JS.or_string issueKey "" = "" ∧ w' = w)
  ∨ ∃ g0 w1 g,
      open_generation env (JS.or_string issueKey "") email w = (g0, w1)
      ∧ projects w' = projects w1
      ∧ generations w' = <[new_generation_id env := g]> (generations w1)
      ∧ Generation.project g = Generation.project g0.
Proof.
  unfold post_testcases. intros Hrun.
  destruct (JS.falsy (JS.or_string issueKey "")) eqn:Hempty.
  { injection Hrun as <- <-. left. by apply falsy_spec in Hempty. }
  right.
  pose proof (open_generation_effect env (JS.or_string issueKey "") email w) as Hopen.
  destruct (open_generation env (JS.or_string issueKey "") email w) as [g0 w1].
  destruct Hopen as (Hg1 & _).
  exists g0, w1.
  destruct (getJiraService env) as [message|getIssue].
  { injection Hrun as <- <-. exists (Generation.set_updatedAt (now w1) g0).
    split; [done|]. split; [done|]. split; [|done].
    rewrite Hg1 at 1. by rewrite Hg1, insert_insert_eq. }
  destruct (getIssue (JS.or_string issueKey "")) as [fields|error].
  - unfold generate in Hrun.
    destruct (getOpenAIService env) as [message|openai].
    + injection Hrun as <- <-. by eexists.
    + unfold generateTestCase in Hrun.
      destruct (retry_loop _ openai env _ 0 _) as [[result w2]|] eqn:Hloop; [|done].
      apply retry_loop_extends in Hloop as (evs & (Hg2 & Hp2 & _) & _).
      simpl in Hg2, Hp2, Hrun.
      destruct result as [[result|]|message]; injection Hrun as <- <-;
        eexists; simpl; rewrite Hg2, Hp2; done.
  - injection Hrun as <- <-. by eexists.
Qed.

(** X14: the project of a new generation. For an issue key with a
    project key, in a world whose projects are stored under their keys,
    a request to the testcases route leaves a generation that is linked
    to the project stored under that key. This project is created, by the
    requester, when the key is new, and otherwise keeps its id and its
    creator; its totalGenerations is the number of stored generations
    linked to it, the new one included; the projects under other keys
    are untouched. *)
Theorem post_testcases_project env email issueKey w key reply w' :
  extractProject issueKey = Some key →
  projects_keyed w →
  post_testcases env email (Some issueKey) w = Some (reply, w') →
  ∃ g p,
    findById (new_generation_id env) w' = Some g
    ∧ projects w' !! key = Some p
    ∧ Generation.project g = Some (Project._id p)
    ∧ Project.projectKey p = key
    ∧ Project.totalGenerations p = countByProject (Project._id p) w'
    ∧ 1 ≤ Project.totalGenerations p
    ∧ match projects w !! key with
      | Some old =>
          Project._id p = Project._id old
          ∧ Project.createdBy p = Project.createdBy old
          ∧ Project.firstGeneratedAt p = Project.firstGeneratedAt old
      | None =>
          Project._id p = new_project_id env
          ∧ Project.createdBy p = email
          ∧ Project.firstGeneratedAt p = now w
      end
    ∧ (∀ other, other ≠ key → projects w' !! other = projects w !! other).
Proof.
  intros Hkey Hkeyed Hrun.
  assert (Hnonempty : issueKey ≠ "").
  { intros ->. done. }
  destruct (open_generation_linked env issueKey email w key Hkey Hkeyed)
    as (g0 & w1 & p & Hopen & Hp & Hlink & Hpk & _ & Hcount & Hone & Hold & Hother & _).
  pose proof (open_generation_effect env issueKey email w) as Heff.
  rewrite Hopen in Heff. destruct Heff as (Hg1 & _).
  apply post_testcases_after_open in Hrun
    as [[Hempty _] | (g0' & w1' & g & Hopen' & Hp' & Hgen & Hproj)].
  { by rewrite (or_string_Some _ Hnonempty) in Hempty. }
  rewrite (or_string_Some _ Hnonempty), Hopen in Hopen'. injection Hopen' as <- <-.
  exists g, p. unfold findById. rewrite Hgen, Hp'.
  split; [apply lookup_insert_eq|]. split; [done|]. split; [congruence|].
  split; [done|]. split; [|done].
  rewrite Hcount. symmetry.
  eapply (countByProject_resave _ (new_generation_id env)
            (Generation.set_updatedAt (now w1) g0) g w1 w'); [|done|done].
  rewrite Hg1. apply lookup_insert_eq.
Qed.

Lemma projects_keyed_empty t0 : projects_keyed (empty_world t0).
Proof. intros key p Hp. cbn in Hp. by rewrite lookup_empty in Hp. Qed.

Lemma post_testcases_project_witness :
  ∃ reply w' g p,
    post_testcases login_env "qa@example.com" (Some "KAN-10") (empty_world 1000)
      = Some (reply, w')
    ∧ findById (new_generation_id login_env) w' = Some g
    ∧ projects w' !! "KAN" = Some p
    ∧ Generation.project g = Some (Project._id p)
    ∧ Project.projectKey p = "KAN"
    ∧ Project.totalGenerations p = countByProject (Project._id p) w'
    ∧ 1 ≤ Project.totalGenerations p.
Proof.
  eexists _, _.
  assert (Hrun : post_testcases login_env "qa@example.com" (Some "KAN-10")
                   (empty_world 1000) = Some (?[reply], ?[w']))
    by (vm_compute; reflexivity).
  destruct (post_testcases_project login_env "qa@example.com" "KAN-10"
              (empty_world 1000) "KAN" _ _ eq_refl (projects_keyed_empty 1000) Hrun)
    as (g & p & Hg & Hp & Hlink & Hkey & Hcount & Hone & _).
  exists g, p. repeat split; assumption.
Defined.

(* A step is a request to the testcases route, or it leaves the projects
   alone and gives no generation a new project. *)
Lemma step_projects w w' :
  step w w' →
  (∃ env email issueKey reply,
     generations w !! new_generation_id env = None
     ∧ post_testcases env email issueKey w = Some (reply, w'))
  ∨ (projects w' = projects w
     ∧ ∀ id g', findById id w' = Some g' →
         ∃ g, findById id w = Some g ∧ Generation.project g' = Generation.project g).
Proof.
  assert (Hsame : ∀ w : World, ∀ id g', findById id w = Some g' →
            ∃ g, findById id w = Some g ∧ Generation.project g' = Generation.project g).
  { intros w0 id g' Hg'. by exists g'. }
  destruct 1 as [env email issueKey w reply w' Hfresh Hrun | env issueKey w
                | id0 email content w | id0 email published w | id0 email w | dt w Hdt].
  - left. by exists env, email, issueKey, reply.
  - right. unfold post_preflight.
    destruct (JS.falsy _); [split; [done | exact (Hsame w)]|].
    destruct (getJiraService env) as [message|getIssue]; [split; [done | exact (Hsame w)]|].
    destruct (getIssue _) as [fields|error]; [|split; [done | exact (Hsame w)]].
    destruct (filter_throwing _ _); (split; [done | exact (Hsame w)]).
  - right.
    destruct (put_content_cases id0 email content w)
      as [-> | (g0 & c & _ & Hg0 & _ & _ & ->)]; [split; [done | exact (Hsame w)]|].
    split; [done|]. intros id g' Hg'.
    destruct (decide (id0 = id)) as [<-|Hne].
    + rewrite findById_save in Hg'. injection Hg' as <-. exists g0. split; [done|].
      simpl.
      pose proof (track_version_frame email c (now w) g0) as Hframe.
      cbv zeta in Hframe. by destruct Hframe as (_ & _ & ? & _).
    + rewrite findById_save_ne in Hg' by done. by exists g'.
  - right.
    destruct (put_publish_cases id0 email published w)
      as [-> | (g0 & b & _ & Hg0 & _ & _ & ->)]; [split; [done | exact (Hsame w)]|].
    split; [done|]. intros id g' Hg'.
    destruct (decide (id0 = id)) as [<-|Hne].
    + rewrite findById_save in Hg'. injection Hg' as <-. by exists g0.
    + rewrite findById_save_ne in Hg' by done. by exists g'.
  - right.
    destruct (delete_generation_cases id0 email w) as [-> | (g0 & _ & _ & ->)];
      [split; [done | exact (Hsame w)]|].
    split; [done|]. intros id g' Hg'.
    unfold findById, findByIdAndDelete in Hg'. simpl in Hg'.
    apply lookup_delete_Some in Hg' as [_ Hg']. by exists g'.
  - right. split; [done | exact (Hsame w)].
Qed.

Lemma step_projects_ok w w' : step w w' → projects_ok w → projects_ok w'.
Proof.
  intros Hstep (Hkeyed & Hformat & Hlinks).
  destruct (step_projects w w' Hstep)
    as [(env & email & issueKey & reply & Hfresh & Hrun) | (Hp & Hg)].
  2: { unfold projects_ok, projects_keyed. rewrite Hp.
       split; [done|]. split; [done|].
       intros id g' pid Hg' Hpid. destruct (Hg id g' Hg') as (g & Hfind & Hproj).
       apply (Hlinks id g pid Hfind). congruence. }
  apply post_testcases_after_open in Hrun
    as [[_ ->] | (g0 & w1 & g & Hopen & Hp & Hgen & Hproj)]; [done|].
  pose proof (open_generation_effect env (JS.or_string issueKey "") email w) as Heff.
  rewrite Hopen in Heff. destruct Heff as (Hg1 & _).
  assert (Hold : ∀ id g', findById id w' = Some g' →
            id = new_generation_id env ∧ g' = g ∨ findById id w = Some g').
  { intros id g' Hg'. unfold findById in *. rewrite Hgen, Hg1 in Hg'.
    destruct (decide (new_generation_id env = id)) as [<-|Hne].
    - rewrite lookup_insert_eq in Hg'. left. split; congruence.
    - rewrite !lookup_insert_ne in Hg' by done. by right. }
  destruct (extractProject (JS.or_string issueKey "")) as [key|] eqn:Hkey.
  - destruct (open_generation_linked env (JS.or_string issueKey "") email w key Hkey Hkeyed)
      as (g0' & w1' & p & Hopen' & Hpk & Hlink & _ & _ & _ & Hone & Hsame & Hother & Hkeyed').
    rewrite Hopen in Hopen'. injection Hopen' as <- <-.
    destruct (extractProject_upper _ _ Hkey) as (Hne & Hupper & _).
    unfold projects_ok, projects_keyed. rewrite Hp.
    split; [exact Hkeyed'|]. split.
    + intros k q Hq. destruct (decide (k = key)) as [->|Hdiff].
      * rewrite Hpk in Hq. injection Hq as <-. done.
      * rewrite Hother in Hq by done. by apply (Hformat k q).
    + intros id g' pid Hg' Hpid.
      destruct (Hold id g' Hg') as [[-> ->] | Hfound].
      * exists key, p. split; [done|]. congruence.
      * destruct (Hlinks id g' pid Hfound Hpid) as (k & q & Hq & Hid).
        destruct (decide (k = key)) as [->|Hdiff].
        -- exists key, p. split; [done|]. rewrite Hq in Hsame.
           destruct Hsame as (Hsame & _). congruence.
        -- exists k, q. split; [|done]. by rewrite Hother.
  - assert (Hnone : projects w1 = projects w ∧ Generation.project g0 = None).
    { unfold open_generation, associate_project in Hopen. rewrite Hkey in Hopen.
      injection Hopen as <- <-. done. }
    destruct Hnone as [Hp1 Hnone].
    unfold projects_ok, projects_keyed. rewrite Hp, Hp1.
    split; [done|]. split; [done|].
    intros id g' pid Hg' Hpid.
    destruct (Hold id g' Hg') as [[-> ->] | Hfound]; [congruence|].
    by apply (Hlinks id g' pid).
Qed.

(** X15: in every world the service can reach, each project is stored
    under its own key, which is a non-empty string of digits and
    upper-case letters, and has a totalGenerations of at least 1; and the
    project of every stored generation is the id of a stored project. *)
Theorem reachable_projects w :
  reachable w →
  (∀ key p, projects w !! key = Some p →
     Project.projectKey p = key
     ∧ key ≠ "" ∧ string_forall is_upper_alnum key = true
     ∧ 1 ≤ Project.totalGenerations p)
  ∧ (∀ id g pid, findById id w = Some g → Generation.project g = Some pid →
       ∃ key p, projects w !! key = Some p ∧ Project._id p = pid).
Proof.
  intros [t0 Hrun].
  assert (Hok : projects_ok w).
  { revert w Hrun. apply (rtc_ind_r projects_ok).
    - split; [apply projects_keyed_empty|]. split.
      + intros key p Hp. cbn in Hp. by rewrite lookup_empty in Hp.
      + intros id g pid Hg. done.
    - intros w1 w2 _ Hstep IH. by eapply step_projects_ok. }
  destruct Hok as (Hkeyed & Hformat & Hlinks).
  split; [|done]. intros key p Hp. split; [by apply Hkeyed | by apply (Hformat key p)].
Qed.

Lemma reachable_projects_witness :
  (∀ key p, projects created_world !! key = Some p →
     Project.projectKey p = key
     ∧ key ≠ "" ∧ string_forall is_upper_alnum key = true
     ∧ 1 ≤ Project.totalGenerations p)
  ∧ (∀ id g pid, findById id created_world = Some g → Generation.project g = Some pid →
       ∃ key p, projects created_world !! key = Some p ∧ Project._id p = pid).
Proof. apply (reachable_projects created_world). exact created_world_reachable. Defined.

Example created_world_project :
  (λ p, (Project._id p, Project.createdBy p, Project.totalGenerations p))
    <$> projects created_world !! "KAN"
  = Some ("p1", "qa@example.com", 1).
Proof. vm_compute. reflexivity. Qed.

(* --------------------------------------------------------------------- *)
(* POST /preflight                                                       *)
(* --------------------------------------------------------------------- *)

Lemma statusCode_range error :
  statusCode error = 401 ∨ statusCode error = 404 ∨ statusCode error = 500.
Proof.
  unfold statusCode.
  destruct (JS.includes error "authentication" || JS.includes error "forbidden");
    [by left|].
  destruct (JS.includes error "not found"); [right; by left | right; by right].
Qed.

(** X16: the preflight route only reads. Whatever the request and the
    answers of JIRA, it leaves the generations, the projects and the
    clock as they were, calls JIRA at most once and the model never, and
    never hands an error to next. When it answers with an error body, the
    status is 400, 401, 404 or 500 and the error text is not empty. *)
Theorem post_preflight_reads env issueKey w :
  let reply := (post_preflight env issueKey w).1 in
  let w' := (post_preflight env issueKey w).2 in
  generations w' = generations w
  ∧ projects w' = projects w
  ∧ now w' = now w
  ∧ (trace w' = trace w
     ∨ trace w' = (trace w ++ [JiraGetIssue (JS.or_string issueKey "")])%list)
  ∧ (∀ message, reply ≠ Next message)
  ∧ (∀ code error, reply = Json code (ErrorBody error) →
       (code = 400 ∨ code = 401 ∨ code = 404 ∨ code = 500) ∧ error ≠ "").
Proof.
  unfold post_preflight.
  destruct (JS.falsy _).
  { split; [done|]. split; [done|]. split; [done|]. split; [by left|].
    split; [done|]. intros code error [= <- <-]. split; [by left | done]. }
  destruct (getJiraService env) as [message|getIssue].
  { split; [done|]. split; [done|]. split; [done|]. split; [by left|].
    split; done. }
  destruct (getIssue _) as [fields|error].
  - destruct (filter_throwing _ _);
      (split; [done|]; split; [done|]; split; [done|]; split; [by right|];
       split; done).
  - split; [done|]. split; [done|]. split; [done|]. split; [by right|].
    split; [done|]. intros code e [= <- <-]. split.
    + destruct (statusCode_range error) as [-> | [-> | ->]]; lia.
    + by apply (or_string_nonempty (Some error) "Issue not found in JIRA").
Qed.

Lemma post_preflight_reads_witness :
  (∀ code error,
     (post_preflight refused_env (Some "KAN-10") (empty_world 1000)).1
       = Json code (ErrorBody error) →
     (code = 400 ∨ code = 401 ∨ code = 404 ∨ code = 500) ∧ error ≠ "")
  ∧ (post_preflight refused_env (Some "KAN-10") (empty_world 1000)).1
    = Json 401 (ErrorBody "JIRA authentication failed").
Proof.
  split; [|reflexivity].
  apply (post_preflight_reads refused_env (Some "KAN-10") (empty_world 1000)).
Defined.




Example post_preflight_login :
  (post_preflight login_env (Some "KAN-10") (empty_world 1000)).1
  = Json 200 (PreflightBody "KAN-10" "Login button misaligned"
                "The button overlaps the footer." 0 14 (480 # 100000)).
Proof. vm_compute. reflexivity. Qed.

(* --------------------------------------------------------------------- *)
(* A generation that succeeds                                            *)
(* --------------------------------------------------------------------- *)

Lemma attempt_succeeds_with env request w response text :
  chat_completion env (calls w) request = Resolved response →
  choice_content response = Some text →
  text ≠ "" →
  attempt env request w
  = (Resolved (account text response), emit (ChatCompletion request) w).
Proof.
  intros Hanswer Htext Hne. unfold attempt. rewrite Hanswer, Htext.
  apply falsy_false in Hne. by rewrite Hne.
Qed.

Lemma retry_loop_recovers_with this env request response text :
  choice_content response = Some text →
  text ≠ "" →
  ∀ msgs fuel retryCount w,
    retryCount + Z.of_nat (length msgs) ≤ maxRetries this →
    (length msgs < fuel)%nat →
    fails_from env request (calls w) msgs →
    chat_completion env (calls w + length msgs)%nat request = Resolved response →
    ∃ w',
      retry_loop fuel this env request retryCount w
        = Some (Resolved (Some (account text response)), w')
      ∧ generations w' = generations w
      ∧ projects w' = projects w
      ∧ trace w' = (trace w ++ schedule request retryCount (S (length msgs)))%list.
Proof.
  intros Htext Hne.
  induction msgs as [|message rest IH]; intros fuel retryCount w Hlen Hfuel Hall Hok.
  - destruct fuel as [|fuel]; [simpl in Hfuel; lia|].
    simpl in Hlen. simpl retry_loop.
    destruct (Z.leb_spec retryCount (maxRetries this)); [|lia].
    rewrite Nat.add_0_r in Hok.
    rewrite (attempt_succeeds_with _ _ _ _ _ Hok Htext Hne). by eexists.
  - destruct fuel as [|fuel]; [simpl in Hfuel; lia|].
    apply fails_from_tail in Hall as [Hfirst Hrest].
    simpl length in *. simpl retry_loop.
    destruct (Z.leb_spec retryCount (maxRetries this)); [|lia].
    rewrite (attempt_fails _ _ _ _ Hfirst).
    destruct (Z.leb_spec (retryCount + 1) (maxRetries this)); [|lia].
    set (w1 := sleep _ _).
    destruct (IH fuel (retryCount + 1) w1) as (w' & Hrun & Hgen & Hproj & Htr).
    + lia.
    + lia.
    + unfold w1. by rewrite calls_sleep, calls_emit_call.
    + unfold w1. rewrite calls_sleep, calls_emit_call.
      by replace (S (calls w) + length rest)%nat with (calls w + S (length rest))%nat by lia.
    + exists w'. split; [done|]. split; [by rewrite Hgen|]. split; [by rewrite Hproj|].
      rewrite Htr. unfold w1. simpl. rewrite <- !app_assoc. done.
Qed.

(** X18: a generation that succeeds. For a non-empty issue key whose
    issue JIRA finds, with the model client configured: if the first
    k <= 3 calls fail and the next one answers with a non-empty content,
    the route answers 200 with the stored markdown and cost, and the
    stored generation is completed, has no error, is at currentVersion 1
    with no history and not published; its file name is
    <issueKey>_testcases_<id>.md; its content is the answer itself when
    the answer starts with "#", and otherwise the answer under the title
    line "# Test Cases for <issueKey>: <summary or Untitled>", so it
    always starts with "#"; its token usage is that of the answer (0 for
    a missing count) and its cost is promptTokens/1e6 x 0.15 +
    completionTokens/1e6 x 0.60. *)
Theorem post_testcases_success env email issueKey w getIssue fields openai
    msgs response text :
  issueKey ≠ "" →
  getJiraService env = inr getIssue →
  getIssue issueKey = IssueFound fields →
  getOpenAIService env = inr openai →
  (length msgs ≤ 3)%nat →
  fails_from env (chat_request openai (issue_context fields) issueKey None) (calls w) msgs →
  chat_completion env (calls w + length msgs)%nat
    (chat_request openai (issue_context fields) issueKey None) = Resolved response →
  choice_content response = Some text →
  text ≠ "" →
  let counts := default {| prompt_tokens := None; completion_tokens := None;
                           total_tokens := None |} (usage response) in
  let tokens := {| promptTokens := default 0 (prompt_tokens counts);
                   completionTokens := default 0 (completion_tokens counts);
                   totalTokens := default 0 (total_tokens counts) |} in
  let price := ((inject_Z (promptTokens tokens) / 1000000) * (15 # 100)
                + (inject_Z (completionTokens tokens) / 1000000) * (60 # 100))%Q in
  ∃ w' g markdown seconds,
    post_testcases env email (Some issueKey) w
      = Some (Json 200 (CreatedBody (new_generation_id env) issueKey markdown seconds
                          (Some price)), w')
    ∧ findById (new_generation_id env) w' = Some g
    ∧ Generation.status g = Some completed
    ∧ Generation.error g = None
    ∧ Generation.email g = email
    ∧ Generation.result_markdown g = Some markdown
    ∧ Markdown.filename markdown
      = Some (issueKey +:+ "_testcases_" +:+ new_generation_id env +:+ ".md")
    ∧ (∃ content, Markdown.content markdown = Some content
                  ∧ JS.startsWith content "#" = true
                  ∧ (JS.startsWith text "#" = true → content = text)
                  ∧ (JS.startsWith text "#" = false →
                       content = "# Test Cases for " +:+ issueKey +:+ ": "
                                 +:+ JS.or_string (Some (issue_summary fields)) "Untitled"
                                 +:+ JS.nl +:+ JS.nl +:+ text))
    ∧ Generation.tokenUsage g = Some tokens
    ∧ Generation.cost g = Some price
    ∧ Generation.completedAt g = Some (now w')
    ∧ Generation.currentVersion g = 1
    ∧ Generation.version g = []
    ∧ Generation.published g = false.
Proof.
  intros Hkey Hjira Hfound Hopenai Hlen Hall Hanswer Htext Hne counts tokens price.
  destruct (post_testcases_fetch env email issueKey w Hkey) as (g0 & w1 & Hopen & Hpost).
  pose proof (open_generation_effect env issueKey email w) as Heff.
  pose proof (open_generation_opened env issueKey email w) as Hby.
  rewrite Hopen in Heff, Hby. destruct Heff as (_ & Ht1 & _ & Herr & _).
  simpl in Hby. destruct Hby as (Hmail & _ & _ & _ & Hpub & _).
  assert (Hcalls : calls (emit (JiraGetIssue issueKey) w1) = calls w).
  { unfold calls, emit. simpl. rewrite Ht1, List.filter_app, length_app. simpl. lia. }
  pose proof (getOpenAIService_maxRetries _ _ Hopenai) as Hmax.
  rewrite Hpost, Hjira, Hfound. unfold generate. rewrite Hopenai.
  unfold generateTestCase.
  destruct (retry_loop_recovers_with openai env
              (chat_request openai (issue_context fields) issueKey None)
              response text Htext Hne msgs
              (S (Z.to_nat (maxRetries openai + 1))) 0
              (emit (JiraGetIssue issueKey) w1))
    as (w2 & -> & _); [rewrite Hmax; lia | rewrite Hmax; simpl; lia
                       | by rewrite Hcalls | by rewrite Hcalls |].
  simpl. eexists _, _, _, _. split; [reflexivity|].
  split; [apply lookup_insert_eq|]. simpl.
  split; [done|]. split; [done|]. split; [done|]. split; [done|]. split; [done|].
  split.
  { eexists. split; [done|]. split; [apply ensure_title_heading|].
    unfold ensure_title. split; intros ->; done. }
  by repeat split.
Qed.

Lemma post_testcases_success_witness :
  ∃ w' g markdown seconds,
    post_testcases recovering_env "qa@example.com" (Some "KAN-10") (empty_world 1000)
      = Some (Json 200 (CreatedBody "g1" "KAN-10" markdown seconds
                          (Some ((inject_Z 1200 / 1000000) * (15 # 100)
                                 + (inject_Z 800 / 1000000) * (60 # 100))%Q)), w')
    ∧ findById "g1" w' = Some g
    ∧ Generation.status g = Some completed
    ∧ Generation.result_markdown g = Some markdown
    ∧ Markdown.filename markdown = Some "KAN-10_testcases_g1.md"
    ∧ Generation.currentVersion g = 1
    ∧ Generation.version g = [].
Proof.
  destruct (post_testcases_success recovering_env "qa@example.com" "KAN-10"
              (empty_world 1000) (fun _ => IssueFound login_issue) login_issue
              default_service ["503 Service Unavailable"; "503 Service Unavailable"]
              login_answer "- Verify the position of the login button")
    as (w' & g & markdown & seconds & Hrun & Hg & Hst & _ & _ & Hmd & Hname & _ & _ & _ & _
        & Hcv & Hvs & _).
  - discriminate.
  - reflexivity.
  - reflexivity.
  - reflexivity.
  - simpl. lia.
  - intros [|[|i]] message Hi; simpl in Hi; try discriminate Hi;
      injection Hi as <-; reflexivity.
  - reflexivity.
  - reflexivity.
  - discriminate.
  - exists w', g, markdown, seconds. repeat split; assumption.
Defined.

(* --------------------------------------------------------------------- *)
(* What the view shows of a stored generation                            *)
(* --------------------------------------------------------------------- *)

(** X19: in every world the service can reach, a view that is answered
    names the owner as the last updater, reports a currentVersion that is
    one more than the number of entries of the version[] it shows, shows
    publishedBy as the owner when it shows the generation as published,
    and gives the project key that extractProject finds in the issue
    key. *)
Theorem get_view_consistent w id requester data :
  reachable w →
  get_view id requester w = Json 200 (ViewBody data) →
  ∃ g, findById id w = Some g
       ∧ view_email data = Generation.email g
       ∧ view_lastUpdatedBy data = Generation.email g
       ∧ view_currentVersion data = 1 + Z.of_nat (length (view_version data))
       ∧ (view_published data = true →
            view_publishedBy data = Some (Generation.email g))
       ∧ view_projectKey data = extractProject (view_issueKey data).
Proof.
  intros Hreach. unfold get_view.
  destruct (findById id w) as [g|] eqn:Hfind; [|done].
  destruct (reachable_history_publication w Hreach id g Hfind)
    as [(Hcv & Hnums & Hby) (_ & _ & Hpub)].
  destruct (negb _ && negb _); [done|].
  intros [= <-]. exists g.
  cbn [view_email view_lastUpdatedBy view_currentVersion view_version
       view_published view_publishedBy view_projectKey view_issueKey].
  split; [done|]. split; [done|]. split; [|split; [|split]].
  - destruct (last (Generation.version g)) as [v|] eqn:Hlast; simpl; [|done].
    apply last_Some in Hlast as [front Hfront]. rewrite Hfront in Hby.
    apply Forall_app in Hby as [_ Hv]. apply Forall_inv in Hv.
    cbv beta in Hv. rewrite Hv. by destruct (String.eqb _ _).
  - apply (f_equal length) in Hnums. unfold version_numbers in Hnums.
    rewrite length_fmap, length_seqZ in Hnums.
    unfold JS.or_number. destruct (Z.eqb_spec (Generation.currentVersion g) 0); lia.
  - rewrite orb_false_r. intros Hp. by apply Hpub.
  - unfold extractProject. by destruct (JS.falsy (Generation.issueKey g)).
Qed.

Lemma get_view_consistent_witness :
  ∃ data g,
    get_view "g1" "qa@example.com" edited_world = Json 200 (ViewBody data)
    ∧ findById "g1" edited_world = Some g
    ∧ view_email data = Generation.email g
    ∧ view_lastUpdatedBy data = Generation.email g
    ∧ view_currentVersion data = 1 + Z.of_nat (length (view_version data))
    ∧ (view_published data = true →
         view_publishedBy data = Some (Generation.email g))
    ∧ view_projectKey data = extractProject (view_issueKey data).
Proof.
  eexists.
  assert (Hview : get_view "g1" "qa@example.com" edited_world = Json 200 (ViewBody ?[data]))
    by (vm_compute; reflexivity).
  destruct (get_view_consistent edited_world "g1" "qa@example.com" _
              edited_world_reachable Hview) as (g & Hg).
  exists g. split; [exact Hview | exact Hg].
Defined.

(* --------------------------------------------------------------------- *)
(* middleware/auth.js                                                    *)
(* --------------------------------------------------------------------- *)

Lemma prefix_slice p : ∀ s,
  String.prefix p s = true → s = p +:+ slice s (String.length p).
Proof.
  induction p as [|a p IH]; intros s; [by destruct s|].
  destruct s as [|b s]; simpl; [done|].
  destruct (ascii_dec a b) as [->|]; [|done].
  intros Hp. change (String b s = String b (p +:+ slice s (String.length p))). f_equal. by apply IH.
Qed.

Lemma prefix_append p s : String.prefix p (p +:+ s) = true.
Proof.
  induction p as [|a p IH]; simpl; [by destruct s|].
  destruct (ascii_dec a a); done.
Qed.

Lemma slice_append p s : slice (p +:+ s) (String.length p) = s.
Proof. induction p as [|a p IH]; simpl; [by destruct s | done]. Qed.

Section JwtFacts.

Variable jwt_sign : TokenPayload → string → Z → string.
Variable jwt_verify : string → string → option TokenPayload.

(** X20: requireAuth lets a request through exactly when its
    Authorization header is "Bearer " followed by a non-empty token that
    jwt.verify accepts with the configured secret, and req.user is then
    read from the token's payload. Every other request is refused with
    401: as "invalid token" when the header is "Bearer " followed by a
    non-empty token that jwt.verify rejects, and as "Missing token" when
    the header is absent, does not start with "Bearer " (in this letter
    case) or carries an empty token. *)
Theorem requireAuth_passes jwtConfig authorization :
  (∀ user, requireAuth jwt_verify jwtConfig authorization = Passed user ↔
     ∃ token payload,
       authorization = Some ("Bearer " +:+ token)
       ∧ token ≠ ""
       ∧ jwt_verify token (secret jwtConfig) = Some payload
       ∧ user = {| userId := sub payload;
                   user_email := payload_email payload;
                   user_name := payload_name payload |})
  ∧ (∀ code error, requireAuth jwt_verify jwtConfig authorization = Refused code error →
       code = 401
       ∧ (error = "invalid token"
            ∧ (∃ token, authorization = Some ("Bearer " +:+ token) ∧ token ≠ ""
                        ∧ jwt_verify token (secret jwtConfig) = None)
          ∨ error = "Missing token"
            ∧ ¬ ∃ token, authorization = Some ("Bearer " +:+ token) ∧ token ≠ "")).
Proof.
  unfold requireAuth, JS.startsWith.
  destruct (String.prefix "Bearer " (JS.or_string authorization "")) eqn:Hprefix.
  - apply (prefix_slice "Bearer ") in Hprefix. simpl String.length in Hprefix.
    set (token := slice (JS.or_string authorization "") 7) in *.
    assert (Hheader : authorization = Some ("Bearer " +:+ token)).
    { destruct authorization as [h|]; [|done]. revert Hprefix.
      unfold JS.or_string. destruct (String.eqb_spec h ""); [done | by intros <-]. }
    assert (Hunique : ∀ t, authorization = Some ("Bearer " +:+ t) → t = token).
    { intros t Ht. rewrite Hheader in Ht. apply (inj Some) in Ht.
      transitivity (slice ("Bearer " +:+ t) 7);
        [symmetry; apply (slice_append "Bearer ")
        | rewrite <- Ht; apply (slice_append "Bearer ")]. }
    destruct (JS.falsy token) eqn:Hempty.
    { apply falsy_spec in Hempty. split.
      - intros user. split; [done|]. intros (t & payload & Ht & Hne & _).
        apply Hunique in Ht. congruence.
      - intros code error [= <- <-]. split; [done|]. right. split; [done|].
        intros (t & Ht & Hne). apply Hunique in Ht. congruence. }
    apply falsy_false in Hempty.
    destruct (jwt_verify token (secret jwtConfig)) as [payload|] eqn:Hverify.
    + split; [|done]. intros user. split.
      * intros [= <-]. by exists token, payload.
      * intros (t & p & Ht & _ & Hv & ->). apply Hunique in Ht. subst t.
        rewrite Hverify in Hv. by injection Hv as <-.
    + split.
      * intros user. split; [done|]. intros (t & p & Ht & _ & Hv & _).
        apply Hunique in Ht. subst t. congruence.
      * intros code error [= <- <-]. split; [done|]. left. split; [done|].
        by exists token.
  - assert (Hnot : ∀ t, authorization ≠ Some ("Bearer " +:+ t)).
    { intros t ->. revert Hprefix. unfold JS.or_string.
      destruct (String.eqb_spec ("Bearer " +:+ t) ""); [done|].
      by rewrite (prefix_append "Bearer " t). }
    split.
    + intros user. split; [done|]. intros (t & p & Ht & _). by apply Hnot in Ht.
    + intros code error [= <- <-]. split; [done|]. right. split; [done|].
      intros (t & Ht & _). by apply Hnot in Ht.
Qed.

(** X21: requireAuth does not look at the type of a token. Provided
    jwt.verify gives back the payloads that jwt.sign was given for the two
    tokens of a user, and the tokens are not empty, a request that carries
    the access token passes with the user's id, email and name, and a
    request that carries the refresh token passes as well, with the user's
    id and an undefined email and name. *)
Theorem requireAuth_tokens jwtConfig user :
  verifies jwt_sign jwt_verify jwtConfig
    {| sub := Some (user_id user);
       payload_email := Some (document_email user);
       payload_name := document_name user;
       token_type := None |}
    (accessTokenTtlSec jwtConfig) →
  verifies jwt_sign jwt_verify jwtConfig
    {| sub := Some (user_id user);
       payload_email := None;
       payload_name := None;
       token_type := Some "refresh" |}
    (refreshTokenTtlSec jwtConfig) →
  requireAuth jwt_verify jwtConfig
    (Some ("Bearer " +:+ issueAccessToken jwt_sign jwtConfig user))
  = Passed {| userId := Some (user_id user);
              user_email := Some (document_email user);
              user_name := document_name user |}
  ∧ requireAuth jwt_verify jwtConfig
      (Some ("Bearer " +:+ issueRefreshToken jwt_sign jwtConfig user))
    = Passed {| userId := Some (user_id user);
                user_email := None;
                user_name := None |}.
Proof.
  assert (Hpass : ∀ payload ttl,
            verifies jwt_sign jwt_verify jwtConfig payload ttl →
            requireAuth jwt_verify jwtConfig
              (Some ("Bearer " +:+ jwt_sign payload (secret jwtConfig) ttl))
            = Passed {| userId := sub payload;
                        user_email := payload_email payload;
                        user_name := payload_name payload |}).
  { intros payload ttl [Hne Hverify].
    unfold requireAuth, JS.startsWith.
    assert (Hheader : JS.or_string
                        (Some ("Bearer " +:+ jwt_sign payload (secret jwtConfig) ttl)) ""
                      = "Bearer " +:+ jwt_sign payload (secret jwtConfig) ttl) by done.
    rewrite Hheader, (prefix_append "Bearer ").
    rewrite (slice_append "Bearer "). apply falsy_false in Hne.
    by rewrite Hne, Hverify. }
  intros Haccess Hrefresh. split.
  - apply (Hpass _ _ Haccess).
  - apply (Hpass _ _ Hrefresh).
Qed.

End JwtFacts.

Lemma requireAuth_passes_witness :
  ∃ token payload,
    Some "Bearer access" = Some ("Bearer " +:+ token)
    ∧ token ≠ ""
    ∧ toy_verify qa_user token (secret toy_config) = Some payload
    ∧ {| userId := Some "u1"; user_email := Some "qa@example.com";
         user_name := Some "QA" |}
      = {| userId := sub payload;
           user_email := payload_email payload;
           user_name := payload_name payload |}.
Proof.
  apply (proj1 (requireAuth_passes (toy_verify qa_user) toy_config
                  (Some "Bearer access"))
           {| userId := Some "u1"; user_email := Some "qa@example.com";
              user_name := Some "QA" |}).
  reflexivity.
Defined.

Lemma requireAuth_tokens_witness :
  requireAuth (toy_verify qa_user) toy_config
    (Some ("Bearer " +:+ issueAccessToken toy_sign toy_config qa_user))
  = Passed {| userId := Some "u1"; user_email := Some "qa@example.com";
              user_name := Some "QA" |}
  ∧ requireAuth (toy_verify qa_user) toy_config
      (Some ("Bearer " +:+ issueRefreshToken toy_sign toy_config qa_user))
    = Passed {| userId := Some "u1"; user_email := None; user_name := None |}.
Proof.
  apply (requireAuth_tokens toy_sign (toy_verify qa_user) toy_config qa_user).
  - split; [vm_compute; discriminate | reflexivity].
  - split; [vm_compute; discriminate | reflexivity].
Defined.
